(** * RADIUS accounting forwarder: PostgreSQL (radacct) to ClickHouse

    A shallow embedding of
    [microservices/EdgeRuntime/acct-forwarder/forwarder.py] and the
    properties of its forwarding cycle, drain loop, error handlers and
    connection supervisors.

    Python values are an inductive type, rows are records, the [radacct]
    table is a finite map from the primary key to its row, and the
    effectful code threads an explicit [world] (both stores, the process
    globals and the scripted behaviour of the environment) through an
    exception monad. *)

From Stdlib Require Import ZArith QArith Ascii String List Sorting.Sorted
  Permutation.
From stdpp Require Import base tactics option list sorting gmap pretty strings.

Open Scope string_scope.
Open Scope Z_scope.

(** ** Python values *)

Module Py.

(** [datetime.datetime]: the civil fields the object stores; [utcoffset]
    is the fixed offset of its [tzinfo] in minutes, [None] when naive. *)
Record datetime := Datetime {
  year : Z; month : Z; day : Z;
  hour : Z; minute : Z; second : Z; microsecond : Z;
  utcoffset : option Z
}.

(** The values a driver row can hold in a nullable column. *)
Inductive value :=
| VNone
| VInt (z : Z)
| VStr (s : string)
| VDatetime (d : datetime).

(** The exceptions the forwarder can meet. [DriverError] stands for any
    exception raised by [psycopg2] or [clickhouse_driver]. *)
Inductive exn :=
| ValueError (msg : string)
| TypeError (msg : string)
| RuntimeError (msg : string)
| DriverError (msg : string).

Inductive result (A : Type) :=
| Ok (a : A)
| Raise (e : exn).
Arguments Ok {A} a.
Arguments Raise {A} e.

#[global] Instance datetime_eq_dec : EqDecision datetime.
Proof. solve_decision. Defined.
#[global] Instance value_eq_dec : EqDecision value.
Proof. solve_decision. Defined.
#[global] Instance exn_eq_dec : EqDecision exn.
Proof. solve_decision. Defined.

(** [val is None] *)
Definition is_none (v : value) : bool :=
  match v with VNone => true | _ => false end.

(** [isinstance(val, datetime)] *)
Definition isinstance_datetime (v : value) : bool :=
  match v with VDatetime _ => true | _ => false end.

(** [bool(val)]: [None], [0] and the empty string are false; a
    [datetime] has no [__bool__] and is always true. *)
Definition truthy (v : value) : bool :=
  match v with
  | VNone => false
  | VInt z => negb (z =? 0)
  | VStr s => negb (String.eqb s "")
  | VDatetime _ => true
  end.

(** Zero-padded decimal of a non-negative field, as ["%0nd"]. *)
Definition zpad (n : nat) (z : Z) : string :=
  let s := pretty (Z.to_N z) in
  String.concat "" (replicate (n - String.length s)%nat "0") ++ s.

Definition fmt_offset (o : option Z) : string :=
  match o with
  | None => ""
  | Some m =>
      (if m <? 0 then "-" else "+")
        ++ zpad 2 (Z.abs m / 60) ++ ":" ++ zpad 2 (Z.abs m mod 60)
  end.

(** [datetime.isoformat(sep)] *)
Definition isoformat_sep (sep : string) (d : datetime) : string :=
  zpad 4 (year d) ++ "-" ++ zpad 2 (month d) ++ "-" ++ zpad 2 (day d)
    ++ sep
    ++ zpad 2 (hour d) ++ ":" ++ zpad 2 (minute d) ++ ":" ++ zpad 2 (second d)
    ++ (if microsecond d =? 0 then "" else "." ++ zpad 6 (microsecond d))
    ++ fmt_offset (utcoffset d).

Definition isoformat : datetime -> string := isoformat_sep "T".

(** [str(val)] *)
Definition str (v : value) : string :=
  match v with
  | VNone => "None"
  | VInt z => pretty z
  | VStr s => s
  | VDatetime d => isoformat_sep " " d
  end.

(** *** Text

    A [str] is held as its UTF-8 encoding. A byte that belongs to no
    well-formed sequence stands for the lone surrogate [U+DC00 + byte],
    as [errors="surrogateescape"] reads it, so every [string] is one
    [str]. The built-ins are those of CPython 3.11, the character tables
    those of its Unicode 14.0 database. *)

Definition between (lo hi c : N) : bool := ((lo <=? c) && (c <=? hi))%N.

Definition in_ranges (c : N) (rs : list (N * N)) : bool :=
  existsb (fun r => between r.1 r.2 c) rs.

(** Second bytes that a three-byte and a four-byte lead admit. *)
Definition second_of_three (b0 b1 : N) : bool :=
  ((b0 =? 0xE0) && between 0xA0 0xBF b1
   || between 0xE1 0xEC b0 && between 0x80 0xBF b1
   || (b0 =? 0xED) && between 0x80 0x9F b1
   || between 0xEE 0xEF b0 && between 0x80 0xBF b1)%N.

Definition second_of_four (b0 b1 : N) : bool :=
  ((b0 =? 0xF0) && between 0x90 0xBF b1
   || between 0xF1 0xF3 b0 && between 0x80 0xBF b1
   || (b0 =? 0xF4) && between 0x80 0x8F b1)%N.

(** The code point that starts at the head of [bs], with the number of
    bytes after the first that it takes. *)
Definition utf8_head (bs : list N) : N * nat :=
  match bs with
  | [] => (0, 0%nat)
  | b0 :: bs1 =>
      if (b0 <? 0x80)%N then (b0, 0%nat)
      else
        match bs1 with
        | b1 :: bs2 =>
            if between 0xC2 0xDF b0 && between 0x80 0xBF b1
            then ((b0 - 0xC0) * 0x40 + (b1 - 0x80), 1%nat)
            else
              match bs2 with
              | b2 :: bs3 =>
                  if second_of_three b0 b1 && between 0x80 0xBF b2
                  then ((b0 - 0xE0) * 0x1000 + (b1 - 0x80) * 0x40
                        + (b2 - 0x80), 2%nat)
                  else
                    match bs3 with
                    | b3 :: _ =>
                        if second_of_four b0 b1 && between 0x80 0xBF b2
                           && between 0x80 0xBF b3
                        then ((b0 - 0xF0) * 0x40000 + (b1 - 0x80) * 0x1000
                              + (b2 - 0x80) * 0x40 + (b3 - 0x80), 3%nat)
                        else (0xDC00 + b0, 0%nat)
                    | [] => (0xDC00 + b0, 0%nat)
                    end
              | [] => (0xDC00 + b0, 0%nat)
              end
        | [] => (0xDC00 + b0, 0%nat)
        end
  end%N.

(** [skip] bytes are left of the code point decoded last. *)
Fixpoint utf8_decode (skip : nat) (bs : list N) : list N :=
  match bs with
  | [] => []
  | _ :: bs' =>
      match skip with
      | S k => utf8_decode k bs'
      | O => let '(c, k) := utf8_head bs in c :: utf8_decode k bs'
      end
  end.

(** The code points of a [str]. *)
Definition code_points (s : string) : list N :=
  utf8_decode 0 (N_of_ascii <$> list_ascii_of_string s).

Definition utf8_encode (c : N) : list N :=
  (if c <? 0x80 then [c]
   else if c <? 0x800 then [0xC0 + c / 0x40; 0x80 + c mod 0x40]
   else if c <? 0x10000
        then [0xE0 + c / 0x1000; 0x80 + c / 0x40 mod 0x40; 0x80 + c mod 0x40]
   else [0xF0 + c / 0x40000; 0x80 + c / 0x1000 mod 0x40;
         0x80 + c / 0x40 mod 0x40; 0x80 + c mod 0x40])%N.

(** The [str] of code points none of which is a surrogate. *)
Definition text (cs : list N) : string :=
  string_of_list_ascii (ascii_of_N <$> (cs ≫= utf8_encode)).

(** [Py_UNICODE_ISSPACE] from U+007F on. *)
Definition unicode_spaces : list (N * N) :=
  [
    (0x85, 0x85); (0xA0, 0xA0); (0x1680, 0x1680); (0x2000, 0x200A); (0x2028, 0x2029);
    (0x202F, 0x202F); (0x205F, 0x205F); (0x3000, 0x3000)
  ]%N.

(** The decimal digits from U+007F on, in runs that start at a zero. *)
Definition unicode_decimals : list (N * N) :=
  [
    (0x660, 0x669); (0x6F0, 0x6F9); (0x7C0, 0x7C9); (0x966, 0x96F);
    (0x9E6, 0x9EF); (0xA66, 0xA6F); (0xAE6, 0xAEF); (0xB66, 0xB6F);
    (0xBE6, 0xBEF); (0xC66, 0xC6F); (0xCE6, 0xCEF); (0xD66, 0xD6F);
    (0xDE6, 0xDEF); (0xE50, 0xE59); (0xED0, 0xED9); (0xF20, 0xF29);
    (0x1040, 0x1049); (0x1090, 0x1099); (0x17E0, 0x17E9); (0x1810, 0x1819);
    (0x1946, 0x194F); (0x19D0, 0x19D9); (0x1A80, 0x1A89); (0x1A90, 0x1A99);
    (0x1B50, 0x1B59); (0x1BB0, 0x1BB9); (0x1C40, 0x1C49); (0x1C50, 0x1C59);
    (0xA620, 0xA629); (0xA8D0, 0xA8D9); (0xA900, 0xA909); (0xA9D0, 0xA9D9);
    (0xA9F0, 0xA9F9); (0xAA50, 0xAA59); (0xABF0, 0xABF9); (0xFF10, 0xFF19);
    (0x104A0, 0x104A9); (0x10D30, 0x10D39); (0x11066, 0x1106F); (0x110F0, 0x110F9);
    (0x11136, 0x1113F); (0x111D0, 0x111D9); (0x112F0, 0x112F9); (0x11450, 0x11459);
    (0x114D0, 0x114D9); (0x11650, 0x11659); (0x116C0, 0x116C9); (0x11730, 0x11739);
    (0x118E0, 0x118E9); (0x11950, 0x11959); (0x11C50, 0x11C59); (0x11D50, 0x11D59);
    (0x11DA0, 0x11DA9); (0x16A60, 0x16A69); (0x16AC0, 0x16AC9); (0x16B50, 0x16B59);
    (0x1D7CE, 0x1D7FF); (0x1E140, 0x1E149); (0x1E2F0, 0x1E2F9); (0x1E950, 0x1E959);
    (0x1FBF0, 0x1FBF9)
  ]%N.

(** The code points from U+0080 on for which [Py_UNICODE_ISPRINTABLE]
    is false: the categories Cc, Cf, Cs, Co, Cn, Zl, Zp and Zs. *)
Definition unicode_nonprintable : list (N * N) :=
  [
    (0x80, 0xA0); (0xAD, 0xAD); (0x378, 0x379); (0x380, 0x383);
    (0x38B, 0x38B); (0x38D, 0x38D); (0x3A2, 0x3A2); (0x530, 0x530);
    (0x557, 0x558); (0x58B, 0x58C); (0x590, 0x590); (0x5C8, 0x5CF);
    (0x5EB, 0x5EE); (0x5F5, 0x605); (0x61C, 0x61C); (0x6DD, 0x6DD);
    (0x70E, 0x70F); (0x74B, 0x74C); (0x7B2, 0x7BF); (0x7FB, 0x7FC);
    (0x82E, 0x82F); (0x83F, 0x83F); (0x85C, 0x85D); (0x85F, 0x85F);
    (0x86B, 0x86F); (0x88F, 0x897); (0x8E2, 0x8E2); (0x984, 0x984);
    (0x98D, 0x98E); (0x991, 0x992); (0x9A9, 0x9A9); (0x9B1, 0x9B1);
    (0x9B3, 0x9B5); (0x9BA, 0x9BB); (0x9C5, 0x9C6); (0x9C9, 0x9CA);
    (0x9CF, 0x9D6); (0x9D8, 0x9DB); (0x9DE, 0x9DE); (0x9E4, 0x9E5);
    (0x9FF, 0xA00); (0xA04, 0xA04); (0xA0B, 0xA0E); (0xA11, 0xA12);
    (0xA29, 0xA29); (0xA31, 0xA31); (0xA34, 0xA34); (0xA37, 0xA37);
    (0xA3A, 0xA3B); (0xA3D, 0xA3D); (0xA43, 0xA46); (0xA49, 0xA4A);
    (0xA4E, 0xA50); (0xA52, 0xA58); (0xA5D, 0xA5D); (0xA5F, 0xA65);
    (0xA77, 0xA80); (0xA84, 0xA84); (0xA8E, 0xA8E); (0xA92, 0xA92);
    (0xAA9, 0xAA9); (0xAB1, 0xAB1); (0xAB4, 0xAB4); (0xABA, 0xABB);
    (0xAC6, 0xAC6); (0xACA, 0xACA); (0xACE, 0xACF); (0xAD1, 0xADF);
    (0xAE4, 0xAE5); (0xAF2, 0xAF8); (0xB00, 0xB00); (0xB04, 0xB04);
    (0xB0D, 0xB0E); (0xB11, 0xB12); (0xB29, 0xB29); (0xB31, 0xB31);
    (0xB34, 0xB34); (0xB3A, 0xB3B); (0xB45, 0xB46); (0xB49, 0xB4A);
    (0xB4E, 0xB54); (0xB58, 0xB5B); (0xB5E, 0xB5E); (0xB64, 0xB65);
    (0xB78, 0xB81); (0xB84, 0xB84); (0xB8B, 0xB8D); (0xB91, 0xB91);
    (0xB96, 0xB98); (0xB9B, 0xB9B); (0xB9D, 0xB9D); (0xBA0, 0xBA2);
    (0xBA5, 0xBA7); (0xBAB, 0xBAD); (0xBBA, 0xBBD); (0xBC3, 0xBC5);
    (0xBC9, 0xBC9); (0xBCE, 0xBCF); (0xBD1, 0xBD6); (0xBD8, 0xBE5);
    (0xBFB, 0xBFF); (0xC0D, 0xC0D); (0xC11, 0xC11); (0xC29, 0xC29);
    (0xC3A, 0xC3B); (0xC45, 0xC45); (0xC49, 0xC49); (0xC4E, 0xC54);
    (0xC57, 0xC57); (0xC5B, 0xC5C); (0xC5E, 0xC5F); (0xC64, 0xC65);
    (0xC70, 0xC76); (0xC8D, 0xC8D); (0xC91, 0xC91); (0xCA9, 0xCA9);
    (0xCB4, 0xCB4); (0xCBA, 0xCBB); (0xCC5, 0xCC5); (0xCC9, 0xCC9);
    (0xCCE, 0xCD4); (0xCD7, 0xCDC); (0xCDF, 0xCDF); (0xCE4, 0xCE5);
    (0xCF0, 0xCF0); (0xCF3, 0xCFF); (0xD0D, 0xD0D); (0xD11, 0xD11);
    (0xD45, 0xD45); (0xD49, 0xD49); (0xD50, 0xD53); (0xD64, 0xD65);
    (0xD80, 0xD80); (0xD84, 0xD84); (0xD97, 0xD99); (0xDB2, 0xDB2);
    (0xDBC, 0xDBC); (0xDBE, 0xDBF); (0xDC7, 0xDC9); (0xDCB, 0xDCE);
    (0xDD5, 0xDD5); (0xDD7, 0xDD7); (0xDE0, 0xDE5); (0xDF0, 0xDF1);
    (0xDF5, 0xE00); (0xE3B, 0xE3E); (0xE5C, 0xE80); (0xE83, 0xE83);
    (0xE85, 0xE85); (0xE8B, 0xE8B); (0xEA4, 0xEA4); (0xEA6, 0xEA6);
    (0xEBE, 0xEBF); (0xEC5, 0xEC5); (0xEC7, 0xEC7); (0xECE, 0xECF);
    (0xEDA, 0xEDB); (0xEE0, 0xEFF); (0xF48, 0xF48); (0xF6D, 0xF70);
    (0xF98, 0xF98); (0xFBD, 0xFBD); (0xFCD, 0xFCD); (0xFDB, 0xFFF);
    (0x10C6, 0x10C6); (0x10C8, 0x10CC); (0x10CE, 0x10CF); (0x1249, 0x1249);
    (0x124E, 0x124F); (0x1257, 0x1257); (0x1259, 0x1259); (0x125E, 0x125F);
    (0x1289, 0x1289); (0x128E, 0x128F); (0x12B1, 0x12B1); (0x12B6, 0x12B7);
    (0x12BF, 0x12BF); (0x12C1, 0x12C1); (0x12C6, 0x12C7); (0x12D7, 0x12D7);
    (0x1311, 0x1311); (0x1316, 0x1317); (0x135B, 0x135C); (0x137D, 0x137F);
    (0x139A, 0x139F); (0x13F6, 0x13F7); (0x13FE, 0x13FF); (0x1680, 0x1680);
    (0x169D, 0x169F); (0x16F9, 0x16FF); (0x1716, 0x171E); (0x1737, 0x173F);
    (0x1754, 0x175F); (0x176D, 0x176D); (0x1771, 0x1771); (0x1774, 0x177F);
    (0x17DE, 0x17DF); (0x17EA, 0x17EF); (0x17FA, 0x17FF); (0x180E, 0x180E);
    (0x181A, 0x181F); (0x1879, 0x187F); (0x18AB, 0x18AF); (0x18F6, 0x18FF);
    (0x191F, 0x191F); (0x192C, 0x192F); (0x193C, 0x193F); (0x1941, 0x1943);
    (0x196E, 0x196F); (0x1975, 0x197F); (0x19AC, 0x19AF); (0x19CA, 0x19CF);
    (0x19DB, 0x19DD); (0x1A1C, 0x1A1D); (0x1A5F, 0x1A5F); (0x1A7D, 0x1A7E);
    (0x1A8A, 0x1A8F); (0x1A9A, 0x1A9F); (0x1AAE, 0x1AAF); (0x1ACF, 0x1AFF);
    (0x1B4D, 0x1B4F); (0x1B7F, 0x1B7F); (0x1BF4, 0x1BFB); (0x1C38, 0x1C3A);
    (0x1C4A, 0x1C4C); (0x1C89, 0x1C8F); (0x1CBB, 0x1CBC); (0x1CC8, 0x1CCF);
    (0x1CFB, 0x1CFF); (0x1F16, 0x1F17); (0x1F1E, 0x1F1F); (0x1F46, 0x1F47);
    (0x1F4E, 0x1F4F); (0x1F58, 0x1F58); (0x1F5A, 0x1F5A); (0x1F5C, 0x1F5C);
    (0x1F5E, 0x1F5E); (0x1F7E, 0x1F7F); (0x1FB5, 0x1FB5); (0x1FC5, 0x1FC5);
    (0x1FD4, 0x1FD5); (0x1FDC, 0x1FDC); (0x1FF0, 0x1FF1); (0x1FF5, 0x1FF5);
    (0x1FFF, 0x200F); (0x2028, 0x202F); (0x205F, 0x206F); (0x2072, 0x2073);
    (0x208F, 0x208F); (0x209D, 0x209F); (0x20C1, 0x20CF); (0x20F1, 0x20FF);
    (0x218C, 0x218F); (0x2427, 0x243F); (0x244B, 0x245F); (0x2B74, 0x2B75);
    (0x2B96, 0x2B96); (0x2CF4, 0x2CF8); (0x2D26, 0x2D26); (0x2D28, 0x2D2C);
    (0x2D2E, 0x2D2F); (0x2D68, 0x2D6E); (0x2D71, 0x2D7E); (0x2D97, 0x2D9F);
    (0x2DA7, 0x2DA7); (0x2DAF, 0x2DAF); (0x2DB7, 0x2DB7); (0x2DBF, 0x2DBF);
    (0x2DC7, 0x2DC7); (0x2DCF, 0x2DCF); (0x2DD7, 0x2DD7); (0x2DDF, 0x2DDF);
    (0x2E5E, 0x2E7F); (0x2E9A, 0x2E9A); (0x2EF4, 0x2EFF); (0x2FD6, 0x2FEF);
    (0x2FFC, 0x3000); (0x3040, 0x3040); (0x3097, 0x3098); (0x3100, 0x3104);
    (0x3130, 0x3130); (0x318F, 0x318F); (0x31E4, 0x31EF); (0x321F, 0x321F);
    (0xA48D, 0xA48F); (0xA4C7, 0xA4CF); (0xA62C, 0xA63F); (0xA6F8, 0xA6FF);
    (0xA7CB, 0xA7CF); (0xA7D2, 0xA7D2); (0xA7D4, 0xA7D4); (0xA7DA, 0xA7F1);
    (0xA82D, 0xA82F); (0xA83A, 0xA83F); (0xA878, 0xA87F); (0xA8C6, 0xA8CD);
    (0xA8DA, 0xA8DF); (0xA954, 0xA95E); (0xA97D, 0xA97F); (0xA9CE, 0xA9CE);
    (0xA9DA, 0xA9DD); (0xA9FF, 0xA9FF); (0xAA37, 0xAA3F); (0xAA4E, 0xAA4F);
    (0xAA5A, 0xAA5B); (0xAAC3, 0xAADA); (0xAAF7, 0xAB00); (0xAB07, 0xAB08);
    (0xAB0F, 0xAB10); (0xAB17, 0xAB1F); (0xAB27, 0xAB27); (0xAB2F, 0xAB2F);
    (0xAB6C, 0xAB6F); (0xABEE, 0xABEF); (0xABFA, 0xABFF); (0xD7A4, 0xD7AF);
    (0xD7C7, 0xD7CA); (0xD7FC, 0xF8FF); (0xFA6E, 0xFA6F); (0xFADA, 0xFAFF);
    (0xFB07, 0xFB12); (0xFB18, 0xFB1C); (0xFB37, 0xFB37); (0xFB3D, 0xFB3D);
    (0xFB3F, 0xFB3F); (0xFB42, 0xFB42); (0xFB45, 0xFB45); (0xFBC3, 0xFBD2);
    (0xFD90, 0xFD91); (0xFDC8, 0xFDCE); (0xFDD0, 0xFDEF); (0xFE1A, 0xFE1F);
    (0xFE53, 0xFE53); (0xFE67, 0xFE67); (0xFE6C, 0xFE6F); (0xFE75, 0xFE75);
    (0xFEFD, 0xFF00); (0xFFBF, 0xFFC1); (0xFFC8, 0xFFC9); (0xFFD0, 0xFFD1);
    (0xFFD8, 0xFFD9); (0xFFDD, 0xFFDF); (0xFFE7, 0xFFE7); (0xFFEF, 0xFFFB);
    (0xFFFE, 0xFFFF); (0x1000C, 0x1000C); (0x10027, 0x10027); (0x1003B, 0x1003B);
    (0x1003E, 0x1003E); (0x1004E, 0x1004F); (0x1005E, 0x1007F); (0x100FB, 0x100FF);
    (0x10103, 0x10106); (0x10134, 0x10136); (0x1018F, 0x1018F); (0x1019D, 0x1019F);
    (0x101A1, 0x101CF); (0x101FE, 0x1027F); (0x1029D, 0x1029F); (0x102D1, 0x102DF);
    (0x102FC, 0x102FF); (0x10324, 0x1032C); (0x1034B, 0x1034F); (0x1037B, 0x1037F);
    (0x1039E, 0x1039E); (0x103C4, 0x103C7); (0x103D6, 0x103FF); (0x1049E, 0x1049F);
    (0x104AA, 0x104AF); (0x104D4, 0x104D7); (0x104FC, 0x104FF); (0x10528, 0x1052F);
    (0x10564, 0x1056E); (0x1057B, 0x1057B); (0x1058B, 0x1058B); (0x10593, 0x10593);
    (0x10596, 0x10596); (0x105A2, 0x105A2); (0x105B2, 0x105B2); (0x105BA, 0x105BA);
    (0x105BD, 0x105FF); (0x10737, 0x1073F); (0x10756, 0x1075F); (0x10768, 0x1077F);
    (0x10786, 0x10786); (0x107B1, 0x107B1); (0x107BB, 0x107FF); (0x10806, 0x10807);
    (0x10809, 0x10809); (0x10836, 0x10836); (0x10839, 0x1083B); (0x1083D, 0x1083E);
    (0x10856, 0x10856); (0x1089F, 0x108A6); (0x108B0, 0x108DF); (0x108F3, 0x108F3);
    (0x108F6, 0x108FA); (0x1091C, 0x1091E); (0x1093A, 0x1093E); (0x10940, 0x1097F);
    (0x109B8, 0x109BB); (0x109D0, 0x109D1); (0x10A04, 0x10A04); (0x10A07, 0x10A0B);
    (0x10A14, 0x10A14); (0x10A18, 0x10A18); (0x10A36, 0x10A37); (0x10A3B, 0x10A3E);
    (0x10A49, 0x10A4F); (0x10A59, 0x10A5F); (0x10AA0, 0x10ABF); (0x10AE7, 0x10AEA);
    (0x10AF7, 0x10AFF); (0x10B36, 0x10B38); (0x10B56, 0x10B57); (0x10B73, 0x10B77);
    (0x10B92, 0x10B98); (0x10B9D, 0x10BA8); (0x10BB0, 0x10BFF); (0x10C49, 0x10C7F);
    (0x10CB3, 0x10CBF); (0x10CF3, 0x10CF9); (0x10D28, 0x10D2F); (0x10D3A, 0x10E5F);
    (0x10E7F, 0x10E7F); (0x10EAA, 0x10EAA); (0x10EAE, 0x10EAF); (0x10EB2, 0x10EFF);
    (0x10F28, 0x10F2F); (0x10F5A, 0x10F6F); (0x10F8A, 0x10FAF); (0x10FCC, 0x10FDF);
    (0x10FF7, 0x10FFF); (0x1104E, 0x11051); (0x11076, 0x1107E); (0x110BD, 0x110BD);
    (0x110C3, 0x110CF); (0x110E9, 0x110EF); (0x110FA, 0x110FF); (0x11135, 0x11135);
    (0x11148, 0x1114F); (0x11177, 0x1117F); (0x111E0, 0x111E0); (0x111F5, 0x111FF);
    (0x11212, 0x11212); (0x1123F, 0x1127F); (0x11287, 0x11287); (0x11289, 0x11289);
    (0x1128E, 0x1128E); (0x1129E, 0x1129E); (0x112AA, 0x112AF); (0x112EB, 0x112EF);
    (0x112FA, 0x112FF); (0x11304, 0x11304); (0x1130D, 0x1130E); (0x11311, 0x11312);
    (0x11329, 0x11329); (0x11331, 0x11331); (0x11334, 0x11334); (0x1133A, 0x1133A);
    (0x11345, 0x11346); (0x11349, 0x1134A); (0x1134E, 0x1134F); (0x11351, 0x11356);
    (0x11358, 0x1135C); (0x11364, 0x11365); (0x1136D, 0x1136F); (0x11375, 0x113FF);
    (0x1145C, 0x1145C); (0x11462, 0x1147F); (0x114C8, 0x114CF); (0x114DA, 0x1157F);
    (0x115B6, 0x115B7); (0x115DE, 0x115FF); (0x11645, 0x1164F); (0x1165A, 0x1165F);
    (0x1166D, 0x1167F); (0x116BA, 0x116BF); (0x116CA, 0x116FF); (0x1171B, 0x1171C);
    (0x1172C, 0x1172F); (0x11747, 0x117FF); (0x1183C, 0x1189F); (0x118F3, 0x118FE);
    (0x11907, 0x11908); (0x1190A, 0x1190B); (0x11914, 0x11914); (0x11917, 0x11917);
    (0x11936, 0x11936); (0x11939, 0x1193A); (0x11947, 0x1194F); (0x1195A, 0x1199F);
    (0x119A8, 0x119A9); (0x119D8, 0x119D9); (0x119E5, 0x119FF); (0x11A48, 0x11A4F);
    (0x11AA3, 0x11AAF); (0x11AF9, 0x11BFF); (0x11C09, 0x11C09); (0x11C37, 0x11C37);
    (0x11C46, 0x11C4F); (0x11C6D, 0x11C6F); (0x11C90, 0x11C91); (0x11CA8, 0x11CA8);
    (0x11CB7, 0x11CFF); (0x11D07, 0x11D07); (0x11D0A, 0x11D0A); (0x11D37, 0x11D39);
    (0x11D3B, 0x11D3B); (0x11D3E, 0x11D3E); (0x11D48, 0x11D4F); (0x11D5A, 0x11D5F);
    (0x11D66, 0x11D66); (0x11D69, 0x11D69); (0x11D8F, 0x11D8F); (0x11D92, 0x11D92);
    (0x11D99, 0x11D9F); (0x11DAA, 0x11EDF); (0x11EF9, 0x11FAF); (0x11FB1, 0x11FBF);
    (0x11FF2, 0x11FFE); (0x1239A, 0x123FF); (0x1246F, 0x1246F); (0x12475, 0x1247F);
    (0x12544, 0x12F8F); (0x12FF3, 0x12FFF); (0x1342F, 0x143FF); (0x14647, 0x167FF);
    (0x16A39, 0x16A3F); (0x16A5F, 0x16A5F); (0x16A6A, 0x16A6D); (0x16ABF, 0x16ABF);
    (0x16ACA, 0x16ACF); (0x16AEE, 0x16AEF); (0x16AF6, 0x16AFF); (0x16B46, 0x16B4F);
    (0x16B5A, 0x16B5A); (0x16B62, 0x16B62); (0x16B78, 0x16B7C); (0x16B90, 0x16E3F);
    (0x16E9B, 0x16EFF); (0x16F4B, 0x16F4E); (0x16F88, 0x16F8E); (0x16FA0, 0x16FDF);
    (0x16FE5, 0x16FEF); (0x16FF2, 0x16FFF); (0x187F8, 0x187FF); (0x18CD6, 0x18CFF);
    (0x18D09, 0x1AFEF); (0x1AFF4, 0x1AFF4); (0x1AFFC, 0x1AFFC); (0x1AFFF, 0x1AFFF);
    (0x1B123, 0x1B14F); (0x1B153, 0x1B163); (0x1B168, 0x1B16F); (0x1B2FC, 0x1BBFF);
    (0x1BC6B, 0x1BC6F); (0x1BC7D, 0x1BC7F); (0x1BC89, 0x1BC8F); (0x1BC9A, 0x1BC9B);
    (0x1BCA0, 0x1CEFF); (0x1CF2E, 0x1CF2F); (0x1CF47, 0x1CF4F); (0x1CFC4, 0x1CFFF);
    (0x1D0F6, 0x1D0FF); (0x1D127, 0x1D128); (0x1D173, 0x1D17A); (0x1D1EB, 0x1D1FF);
    (0x1D246, 0x1D2DF); (0x1D2F4, 0x1D2FF); (0x1D357, 0x1D35F); (0x1D379, 0x1D3FF);
    (0x1D455, 0x1D455); (0x1D49D, 0x1D49D); (0x1D4A0, 0x1D4A1); (0x1D4A3, 0x1D4A4);
    (0x1D4A7, 0x1D4A8); (0x1D4AD, 0x1D4AD); (0x1D4BA, 0x1D4BA); (0x1D4BC, 0x1D4BC);
    (0x1D4C4, 0x1D4C4); (0x1D506, 0x1D506); (0x1D50B, 0x1D50C); (0x1D515, 0x1D515);
    (0x1D51D, 0x1D51D); (0x1D53A, 0x1D53A); (0x1D53F, 0x1D53F); (0x1D545, 0x1D545);
    (0x1D547, 0x1D549); (0x1D551, 0x1D551); (0x1D6A6, 0x1D6A7); (0x1D7CC, 0x1D7CD);
    (0x1DA8C, 0x1DA9A); (0x1DAA0, 0x1DAA0); (0x1DAB0, 0x1DEFF); (0x1DF1F, 0x1DFFF);
    (0x1E007, 0x1E007); (0x1E019, 0x1E01A); (0x1E022, 0x1E022); (0x1E025, 0x1E025);
    (0x1E02B, 0x1E0FF); (0x1E12D, 0x1E12F); (0x1E13E, 0x1E13F); (0x1E14A, 0x1E14D);
    (0x1E150, 0x1E28F); (0x1E2AF, 0x1E2BF); (0x1E2FA, 0x1E2FE); (0x1E300, 0x1E7DF);
    (0x1E7E7, 0x1E7E7); (0x1E7EC, 0x1E7EC); (0x1E7EF, 0x1E7EF); (0x1E7FF, 0x1E7FF);
    (0x1E8C5, 0x1E8C6); (0x1E8D7, 0x1E8FF); (0x1E94C, 0x1E94F); (0x1E95A, 0x1E95D);
    (0x1E960, 0x1EC70); (0x1ECB5, 0x1ED00); (0x1ED3E, 0x1EDFF); (0x1EE04, 0x1EE04);
    (0x1EE20, 0x1EE20); (0x1EE23, 0x1EE23); (0x1EE25, 0x1EE26); (0x1EE28, 0x1EE28);
    (0x1EE33, 0x1EE33); (0x1EE38, 0x1EE38); (0x1EE3A, 0x1EE3A); (0x1EE3C, 0x1EE41);
    (0x1EE43, 0x1EE46); (0x1EE48, 0x1EE48); (0x1EE4A, 0x1EE4A); (0x1EE4C, 0x1EE4C);
    (0x1EE50, 0x1EE50); (0x1EE53, 0x1EE53); (0x1EE55, 0x1EE56); (0x1EE58, 0x1EE58);
    (0x1EE5A, 0x1EE5A); (0x1EE5C, 0x1EE5C); (0x1EE5E, 0x1EE5E); (0x1EE60, 0x1EE60);
    (0x1EE63, 0x1EE63); (0x1EE65, 0x1EE66); (0x1EE6B, 0x1EE6B); (0x1EE73, 0x1EE73);
    (0x1EE78, 0x1EE78); (0x1EE7D, 0x1EE7D); (0x1EE7F, 0x1EE7F); (0x1EE8A, 0x1EE8A);
    (0x1EE9C, 0x1EEA0); (0x1EEA4, 0x1EEA4); (0x1EEAA, 0x1EEAA); (0x1EEBC, 0x1EEEF);
    (0x1EEF2, 0x1EFFF); (0x1F02C, 0x1F02F); (0x1F094, 0x1F09F); (0x1F0AF, 0x1F0B0);
    (0x1F0C0, 0x1F0C0); (0x1F0D0, 0x1F0D0); (0x1F0F6, 0x1F0FF); (0x1F1AE, 0x1F1E5);
    (0x1F203, 0x1F20F); (0x1F23C, 0x1F23F); (0x1F249, 0x1F24F); (0x1F252, 0x1F25F);
    (0x1F266, 0x1F2FF); (0x1F6D8, 0x1F6DC); (0x1F6ED, 0x1F6EF); (0x1F6FD, 0x1F6FF);
    (0x1F774, 0x1F77F); (0x1F7D9, 0x1F7DF); (0x1F7EC, 0x1F7EF); (0x1F7F1, 0x1F7FF);
    (0x1F80C, 0x1F80F); (0x1F848, 0x1F84F); (0x1F85A, 0x1F85F); (0x1F888, 0x1F88F);
    (0x1F8AE, 0x1F8AF); (0x1F8B2, 0x1F8FF); (0x1FA54, 0x1FA5F); (0x1FA6E, 0x1FA6F);
    (0x1FA75, 0x1FA77); (0x1FA7D, 0x1FA7F); (0x1FA87, 0x1FA8F); (0x1FAAD, 0x1FAAF);
    (0x1FABB, 0x1FABF); (0x1FAC6, 0x1FACF); (0x1FADA, 0x1FADF); (0x1FAE8, 0x1FAEF);
    (0x1FAF7, 0x1FAFF); (0x1FB93, 0x1FB93); (0x1FBCB, 0x1FBEF); (0x1FBFA, 0x1FFFF);
    (0x2A6E0, 0x2A6FF); (0x2B739, 0x2B73F); (0x2B81E, 0x2B81F); (0x2CEA2, 0x2CEAF);
    (0x2EBE1, 0x2F7FF); (0x2FA1E, 0x2FFFF); (0x3134B, 0xE00FF); (0xE01F0, 0x10FFFF)
  ]%N.

(** What [int()] skips around a literal: [Py_ISSPACE] below U+007F,
    where a [str] is left as it is, and [Py_UNICODE_ISSPACE] from there
    on, where white space is turned into a blank first. *)
Definition is_space (c : N) : bool :=
  (if c <? 0x7F then between 9 13 c || (c =? 32)
   else in_ranges c unicode_spaces)%N.

(** The value of a decimal digit: an ASCII digit, or [Py_UNICODE_TODECIMAL]
    from U+007F on. *)
Definition to_decimal (c : N) : option Z :=
  if (c <? 0x7F)%N
  then (if between 48 57 c then Some (Z.of_N (c - 48)) else None)
  else (fun r : N * N => Z.of_N ((c - r.1) mod 10))
         <$> List.find (fun r => between r.1 r.2 c) unicode_decimals.

Definition is_printable (c : N) : bool :=
  negb (in_ranges c unicode_nonprintable).

(** [width] lower-case hexadecimal digits. *)
Fixpoint hex (width : nat) (n : N) : list N :=
  match width with
  | O => []
  | S width' =>
      (hex width' (n / 16)
         ++ [let d := n mod 16 in if d <? 10 then 48 + d else 87 + d])%N%list
  end.

(** One character of [repr(s)] between the quotes [quote]. *)
Definition repr_char (quote c : N) : list N :=
  (if (c =? quote) || (c =? 92) then [92; c]
   else if c =? 9 then [92; 116]
   else if c =? 10 then [92; 110]
   else if c =? 13 then [92; 114]
   else if (c <? 32) || (c =? 0x7F) then [92; 120] ++ hex 2 c
   else if c <? 0x7F then [c]
   else if is_printable c then [c]
   else if c <=? 0xFF then [92; 120] ++ hex 2 c
   else if c <=? 0xFFFF then [92; 117] ++ hex 4 c
   else [92; 85] ++ hex 8 c)%N%list.

(** [repr(s)] for a [str]: double quotes when it holds a single quote
    and no double one. *)
Definition repr (cs : list N) : list N :=
  let quote := if existsb (N.eqb 39) cs && negb (existsb (N.eqb 34) cs)
               then 34%N else 39%N in
  ([quote] ++ (cs ≫= repr_char quote) ++ [quote])%list.

(** The digits of a literal with single underscores between them, as
    [PyLong_FromString] scans them: the number of digits, their value and
    what follows them; nothing when two underscores meet or one comes
    last. [prev] tells whether the character before was an underscore. *)
Fixpoint int_digits (prev : bool) (digits : N) (acc : Z) (cs : list N)
  : option (N * Z * list N) :=
  match cs with
  | [] => if prev then None else Some (digits, acc, [])
  | c :: cs' =>
      match to_decimal c with
      | Some d => int_digits false (digits + 1) (10 * acc + d) cs'
      | None =>
          if (c =? 95)%N
          then (if prev then None else int_digits true digits acc cs')
          else if prev then None else Some (digits, acc, cs)
      end
  end.

Fixpoint skip_spaces (cs : list N) : list N :=
  match cs with
  | c :: cs' => if is_space c then skip_spaces cs' else cs
  | [] => []
  end.

(** [sys.get_int_max_str_digits()], which the forwarder leaves at its
    default. *)
Definition int_max_str_digits : N := 4300.

(** [int(s)] for a [str]: white space, a sign, digits with single
    underscores between them, white space. Too many digits are refused
    before what follows them is looked at. *)
Definition int_of_str (s : string) : result Z :=
  let cs := code_points s in
  let invalid :=
    Raise (ValueError ("invalid literal for int() with base 10: "
                         ++ text (take 200 (repr cs)))) in
  let signed := skip_spaces cs in
  let '(sign, literal) :=
    match signed with
    | c :: rest =>
        if (c =? 43)%N then (1, rest)
        else if (c =? 45)%N then (-1, rest)
        else (1, signed)
    | [] => (1, [])
    end in
  if bool_decide (head literal = Some 95%N) then invalid
  else
    match int_digits false 0 0 literal with
    | None => invalid
    | Some (digits, z, rest) =>
        if (int_max_str_digits <? digits)%N
        then Raise (ValueError
                      ("Exceeds the limit (" ++ pretty int_max_str_digits
                         ++ " digits) for integer string conversion: value has "
                         ++ pretty digits
                         ++ " digits; use sys.set_int_max_str_digits() to increase the limit"))
        else if (digits =? 0)%N then invalid
        else match skip_spaces rest with
             | [] => Ok (sign * z)
             | _ :: _ => invalid
             end
    end.

(** [int(val)] *)
Definition int (v : value) : result Z :=
  match v with
  | VNone => Raise (TypeError "int() argument must be a string, a bytes-like object or a real number, not 'NoneType'")
  | VInt z => Ok z
  | VStr s => int_of_str s
  | VDatetime _ => Raise (TypeError "int() argument must be a string, a bytes-like object or a real number, not 'datetime.datetime'")
  end.

End Py.

Import Py.

(** ** Rows of the two stores *)

(** The nullable columns of [radacct] that [FETCH_QUERY] selects, in the
    order of the query. The two [inet] columns hold the text that
    [host(...)] renders. *)
Record columns := Columns {
  acctsessionid : value;
  acctuniqueid : value;
  username : value;
  realm : value;
  nasipaddress : value;
  nasportid : value;
  nasporttype : value;
  acctstarttime : value;
  acctupdatetime : value;
  acctstoptime : value;
  acctinterval : value;
  acctsessiontime : value;
  acctauthentic : value;
  connectinfo_start : value;
  connectinfo_stop : value;
  acctinputoctets : value;
  acctoutputoctets : value;
  calledstationid : value;
  callingstationid : value;
  acctterminatecause : value;
  servicetype : value;
  framedprotocol : value;
  framedipaddress : value
}.

(** A stored row of [radacct]: its columns and the forward flag. The
    primary key [radacctid] is the key of the table map. *)
Record stored := Stored {
  cols : columns;
  forwarded_to_ch : bool
}.

(** The dict [row = dict(zip(columns, row_tuple))] of one fetched row. *)
Record row := Row {
  radacctid : Z;
  fields : columns
}.

(** [row["c"]] for a nullable column [c]. *)
Definition get (c : columns -> value) (r : row) : value := c (fields r).

Module Ch.

(** One dict of [ch_rows], the row inserted into [radius_accounting]. *)
Record row := Row {
  radacctid : Z;
  acctsessionid : string;
  acctuniqueid : string;
  username : string;
  realm : string;
  nasipaddress : string;
  nasportid : string;
  nasporttype : string;
  acctstarttime : value;
  acctupdatetime : option datetime;
  acctstoptime : option datetime;
  acctinterval : Z;
  acctsessiontime : Z;
  acctauthentic : string;
  connectinfo_start : string;
  connectinfo_stop : string;
  acctinputoctets : Z;
  acctoutputoctets : Z;
  calledstationid : string;
  callingstationid : string;
  acctterminatecause : string;
  servicetype : string;
  framedprotocol : string;
  framedipaddress : string;
  event_type : string;
  edge_site_id : string
}.

End Ch.

(** ** Configuration read from the environment at import time *)

Record config := Config {
  BATCH_SIZE : Z;
  POLL_INTERVAL_SECONDS : Z;
  EDGE_SITE_ID : string
}.

(** ** Pure helpers of the forwarding logic *)

Definition determine_event_type (r : row) : string :=
  if negb (is_none (get acctstoptime r)) then "stop"
  else if negb (is_none (get acctupdatetime r)) then "interim"
  else "start".

Definition safe_str (val : value) : string :=
  if is_none val then "" else Py.str val.

Definition safe_int (val : value) : result Z :=
  if is_none val then Ok 0 else Py.int val.

Definition safe_datetime (val : value) : option datetime :=
  if is_none val then None
  else match val with
       | VDatetime d => Some d
       | _ => None
       end.

(** ** The world the forwarder runs in *)

(** The global [metrics] dict. *)
Record counters := Counters {
  total_forwarded : Z;
  total_batches : Z;
  total_errors : Z;
  last_forward_time : option string;
  started_at : string
}.

(** A connection object, known by its identity. *)
Definition handle := nat.

(** The statements the forwarder sends to the source store. *)
Inductive pg_stmt :=
| Fetch (limit : Z)
| MarkForwarded (ids : list Z)
| Listen.

(** Process globals, the two stores, and the behaviour of the
    environment, scripted so that every run is a function of its initial
    world:
    - [running]: the global [running], cleared by [shutdown_handler];
    - [metrics]: the global [metrics];
    - [radacct]: the source table, keyed by [radacctid];
    - [pg_log]: the statements the source has been sent, each with the
      connection it came through;
    - [radius_accounting]: the sink table, in insertion order;
    - [pg_script], [ch_script]: the outcome of the next statements on the
      source and on the sink, [Some e] for one that raises [e];
    - [pg_connects], [ch_connects]: the outcome of the next connection
      attempts to the source and to the sink;
    - [signal_in]: the number of blocking calls that still complete
      before SIGTERM or SIGINT arrives, [None] when none is coming;
    - [clock], [clock_reads]: the reading [datetime.now(timezone.utc)]
      gives at its n-th call, and the calls so far;
    - [slept]: the seconds spent in [time.sleep];
    - [next_handle]: the identity of the next connection object.
    An exhausted script means success. *)
Record world := World {
  running : bool;
  metrics : counters;
  radacct : gmap Z stored;
  pg_log : list (handle * pg_stmt);
  radius_accounting : list Ch.row;
  pg_script : list (option exn);
  ch_script : list (option exn);
  pg_connects : list (option exn);
  ch_connects : list (option exn);
  signal_in : option nat;
  clock : nat -> datetime;
  clock_reads : nat;
  slept : Z;
  next_handle : handle
}.

Definition set_running (x : bool) (w : world) : world :=
  {| running := x;
     metrics := metrics w;
     radacct := radacct w;
     pg_log := pg_log w;
     radius_accounting := radius_accounting w;
     pg_script := pg_script w;
     ch_script := ch_script w;
     pg_connects := pg_connects w;
     ch_connects := ch_connects w;
     signal_in := signal_in w;
     clock := clock w;
     clock_reads := clock_reads w;
     slept := slept w;
     next_handle := next_handle w |}.

Definition set_metrics (x : counters) (w : world) : world :=
  {| running := running w;
     metrics := x;
     radacct := radacct w;
     pg_log := pg_log w;
     radius_accounting := radius_accounting w;
     pg_script := pg_script w;
     ch_script := ch_script w;
     pg_connects := pg_connects w;
     ch_connects := ch_connects w;
     signal_in := signal_in w;
     clock := clock w;
     clock_reads := clock_reads w;
     slept := slept w;
     next_handle := next_handle w |}.

Definition set_radacct (x : gmap Z stored) (w : world) : world :=
  {| running := running w;
     metrics := metrics w;
     radacct := x;
     pg_log := pg_log w;
     radius_accounting := radius_accounting w;
     pg_script := pg_script w;
     ch_script := ch_script w;
     pg_connects := pg_connects w;
     ch_connects := ch_connects w;
     signal_in := signal_in w;
     clock := clock w;
     clock_reads := clock_reads w;
     slept := slept w;
     next_handle := next_handle w |}.

Definition set_pg_log (x : list (handle * pg_stmt)) (w : world) : world :=
  {| running := running w;
     metrics := metrics w;
     radacct := radacct w;
     pg_log := x;
     radius_accounting := radius_accounting w;
     pg_script := pg_script w;
     ch_script := ch_script w;
     pg_connects := pg_connects w;
     ch_connects := ch_connects w;
     signal_in := signal_in w;
     clock := clock w;
     clock_reads := clock_reads w;
     slept := slept w;
     next_handle := next_handle w |}.

Definition set_radius_accounting (x : list Ch.row) (w : world) : world :=
  {| running := running w;
     metrics := metrics w;
     radacct := radacct w;
     pg_log := pg_log w;
     radius_accounting := x;
     pg_script := pg_script w;
     ch_script := ch_script w;
     pg_connects := pg_connects w;
     ch_connects := ch_connects w;
     signal_in := signal_in w;
     clock := clock w;
     clock_reads := clock_reads w;
     slept := slept w;
     next_handle := next_handle w |}.

Definition set_pg_script (x : list (option exn)) (w : world) : world :=
  {| running := running w;
     metrics := metrics w;
     radacct := radacct w;
     pg_log := pg_log w;
     radius_accounting := radius_accounting w;
     pg_script := x;
     ch_script := ch_script w;
     pg_connects := pg_connects w;
     ch_connects := ch_connects w;
     signal_in := signal_in w;
     clock := clock w;
     clock_reads := clock_reads w;
     slept := slept w;
     next_handle := next_handle w |}.

Definition set_ch_script (x : list (option exn)) (w : world) : world :=
  {| running := running w;
     metrics := metrics w;
     radacct := radacct w;
     pg_log := pg_log w;
     radius_accounting := radius_accounting w;
     pg_script := pg_script w;
     ch_script := x;
     pg_connects := pg_connects w;
     ch_connects := ch_connects w;
     signal_in := signal_in w;
     clock := clock w;
     clock_reads := clock_reads w;
     slept := slept w;
     next_handle := next_handle w |}.

Definition set_pg_connects (x : list (option exn)) (w : world) : world :=
  {| running := running w;
     metrics := metrics w;
     radacct := radacct w;
     pg_log := pg_log w;
     radius_accounting := radius_accounting w;
     pg_script := pg_script w;
     ch_script := ch_script w;
     pg_connects := x;
     ch_connects := ch_connects w;
     signal_in := signal_in w;
     clock := clock w;
     clock_reads := clock_reads w;
     slept := slept w;
     next_handle := next_handle w |}.

Definition set_ch_connects (x : list (option exn)) (w : world) : world :=
  {| running := running w;
     metrics := metrics w;
     radacct := radacct w;
     pg_log := pg_log w;
     radius_accounting := radius_accounting w;
     pg_script := pg_script w;
     ch_script := ch_script w;
     pg_connects := pg_connects w;
     ch_connects := x;
     signal_in := signal_in w;
     clock := clock w;
     clock_reads := clock_reads w;
     slept := slept w;
     next_handle := next_handle w |}.

Definition set_signal_in (x : option nat) (w : world) : world :=
  {| running := running w;
     metrics := metrics w;
     radacct := radacct w;
     pg_log := pg_log w;
     radius_accounting := radius_accounting w;
     pg_script := pg_script w;
     ch_script := ch_script w;
     pg_connects := pg_connects w;
     ch_connects := ch_connects w;
     signal_in := x;
     clock := clock w;
     clock_reads := clock_reads w;
     slept := slept w;
     next_handle := next_handle w |}.

Definition set_clock_reads (x : nat) (w : world) : world :=
  {| running := running w;
     metrics := metrics w;
     radacct := radacct w;
     pg_log := pg_log w;
     radius_accounting := radius_accounting w;
     pg_script := pg_script w;
     ch_script := ch_script w;
     pg_connects := pg_connects w;
     ch_connects := ch_connects w;
     signal_in := signal_in w;
     clock := clock w;
     clock_reads := x;
     slept := slept w;
     next_handle := next_handle w |}.

Definition set_slept (x : Z) (w : world) : world :=
  {| running := running w;
     metrics := metrics w;
     radacct := radacct w;
     pg_log := pg_log w;
     radius_accounting := radius_accounting w;
     pg_script := pg_script w;
     ch_script := ch_script w;
     pg_connects := pg_connects w;
     ch_connects := ch_connects w;
     signal_in := signal_in w;
     clock := clock w;
     clock_reads := clock_reads w;
     slept := x;
     next_handle := next_handle w |}.

Definition set_next_handle (x : handle) (w : world) : world :=
  {| running := running w;
     metrics := metrics w;
     radacct := radacct w;
     pg_log := pg_log w;
     radius_accounting := radius_accounting w;
     pg_script := pg_script w;
     ch_script := ch_script w;
     pg_connects := pg_connects w;
     ch_connects := ch_connects w;
     signal_in := signal_in w;
     clock := clock w;
     clock_reads := clock_reads w;
     slept := slept w;
     next_handle := x |}.


(** ** State and exception monad *)

Definition M (A : Type) : Type := world -> result A * world.

#[global] Instance M_ret : MRet M := fun A a w => (Ok a, w).

#[global] Instance M_bind : MBind M := fun A B f m w =>
  match m w with
  | (Ok a, w') => f a w'
  | (Raise e, w') => (Raise e, w')
  end.

#[global] Instance M_fmap : FMap M := fun A B f m w =>
  match m w with
  | (Ok a, w') => (Ok (f a), w')
  | (Raise e, w') => (Raise e, w')
  end.

Definition raise {A} (e : exn) : M A := fun w => (Raise e, w).

Definition lift_result {A} (r : result A) : M A := fun w => (r, w).

Definition gets {A} (f : world -> A) : M A := fun w => (Ok (f w), w).

Definition modify (f : world -> world) : M unit := fun w => (Ok tt, f w).

(** ** Signals and time *)

(** [shutdown_handler(signum, frame)] *)
Definition shutdown_handler (w : world) : world := set_running false w.

(** One blocking call goes by. A pending termination signal that falls
    into it runs [shutdown_handler]. *)
Definition deliver (w : world) : world :=
  match signal_in w with
  | None => w
  | Some O => shutdown_handler (set_signal_in None w)
  | Some (S n) => set_signal_in (Some n) w
  end.

(** [time.sleep(secs)] *)
Definition sleep (secs : Z) (w : world) : world :=
  deliver (set_slept (slept w + secs) w).

(** [datetime.now(timezone.utc)] *)
Definition datetime_now : M datetime := fun w =>
  (Ok (clock w (clock_reads w)), set_clock_reads (S (clock_reads w)) w).

(** ** The statements of the two stores *)

Definition id_le (a b : row) : Prop := radacctid a <= radacctid b.

#[global] Instance id_le_dec : RelDecision id_le.
Proof. intros a b. unfold id_le. apply _. Defined.

(** [COALESCE(host(framedipaddress), '')] *)
Definition coalesce_framedipaddress (c : columns) : columns :=
  {| acctsessionid := acctsessionid c; acctuniqueid := acctuniqueid c;
     username := username c; realm := realm c;
     nasipaddress := nasipaddress c; nasportid := nasportid c;
     nasporttype := nasporttype c; acctstarttime := acctstarttime c;
     acctupdatetime := acctupdatetime c; acctstoptime := acctstoptime c;
     acctinterval := acctinterval c; acctsessiontime := acctsessiontime c;
     acctauthentic := acctauthentic c;
     connectinfo_start := connectinfo_start c;
     connectinfo_stop := connectinfo_stop c;
     acctinputoctets := acctinputoctets c;
     acctoutputoctets := acctoutputoctets c;
     calledstationid := calledstationid c;
     callingstationid := callingstationid c;
     acctterminatecause := acctterminatecause c;
     servicetype := servicetype c; framedprotocol := framedprotocol c;
     framedipaddress :=
       if is_none (framedipaddress c) then VStr "" else framedipaddress c |}.

(** The rows [WHERE forwarded_to_ch = false] keeps, as fetched dicts. *)
Definition unforwarded (t : gmap Z stored) : list row :=
  (fun kv : Z * stored => Row kv.1 (coalesce_framedipaddress (cols kv.2)))
    <$> filter (fun kv : Z * stored => forwarded_to_ch kv.2 = false)
               (map_to_list t).

(** [FETCH_QUERY] with a non-negative [LIMIT]:
    [SELECT ... FROM radacct WHERE forwarded_to_ch = false
     ORDER BY radacctid ASC LIMIT %s]. *)
Definition FETCH_QUERY (t : gmap Z stored) (limit : Z) : list row :=
  take (Z.to_nat limit) (merge_sort id_le (unforwarded t)).

(** [MARK_FORWARDED_QUERY]:
    [UPDATE radacct SET forwarded_to_ch = true WHERE radacctid = ANY(%s)]. *)
Definition MARK_FORWARDED_QUERY (t : gmap Z stored) (ids : list Z)
  : gmap Z stored :=
  map_imap (fun k s =>
              Some (if bool_decide (k ∈ ids) then Stored (cols s) true else s))
           t.

(** [cur.execute(...)] on the source connection [h]: the statement is
    sent, the call blocks, and the environment decides whether it raises. *)
Definition pg_execute (h : handle) (q : pg_stmt) : M unit := fun w =>
  let w := deliver (set_pg_log (pg_log w ++ [(h, q)]) w) in
  match pg_script w with
  | Some e :: s => (Raise e, set_pg_script s w)
  | None :: s => (Ok tt, set_pg_script s w)
  | [] => (Ok tt, w)
  end.

(** [cur.execute(FETCH_QUERY, (limit,)); rows = cur.fetchall()]. The
    server rejects a negative [LIMIT]. *)
Definition fetch (h : handle) (limit : Z) : M (list row) :=
  pg_execute h (Fetch limit);;
  if limit <? 0 then raise (DriverError "LIMIT must not be negative")
  else gets (fun w => FETCH_QUERY (radacct w) limit).

(** [cur.execute(MARK_FORWARDED_QUERY, (pg_ids,))], autocommitted. *)
Definition mark_forwarded (h : handle) (ids : list Z) : M unit :=
  pg_execute h (MarkForwarded ids);;
  modify (fun w => set_radacct (MARK_FORWARDED_QUERY (radacct w) ids) w).

(** [ch_client.execute(INSERT_CH_QUERY, ch_rows, types_check=True)]: one
    bulk insert that the sink takes whole or refuses whole. *)
Definition ch_insert (h : handle) (rows : list Ch.row) : M unit := fun w =>
  let w := deliver w in
  match ch_script w with
  | Some e :: s => (Raise e, set_ch_script s w)
  | None :: s =>
      (Ok tt, set_radius_accounting (radius_accounting w ++ rows)
                (set_ch_script s w))
  | [] => (Ok tt, set_radius_accounting (radius_accounting w ++ rows) w)
  end.

(** ** Forwarding logic *)

Section Forwarder.

Variable cfg : config.

(** The dict appended to [ch_rows] for one fetched row (the body of the
    [for] loop of [forward_batch]), its entries evaluated in order. *)
Definition transform (r : row) (event_type : string) : M Ch.row :=
  start ← (if truthy (get acctstarttime r)
            then mret (get acctstarttime r)
            else VDatetime <$> datetime_now);
  interval ← lift_result (safe_int (get acctinterval r));
  sessiontime ← lift_result (safe_int (get acctsessiontime r));
  inputoctets ← lift_result (safe_int (get acctinputoctets r));
  outputoctets ← lift_result (safe_int (get acctoutputoctets r));
  mret {| Ch.radacctid := radacctid r;
          Ch.acctsessionid := safe_str (get acctsessionid r);
          Ch.acctuniqueid := safe_str (get acctuniqueid r);
          Ch.username := safe_str (get username r);
          Ch.realm := safe_str (get realm r);
          Ch.nasipaddress := safe_str (get nasipaddress r);
          Ch.nasportid := safe_str (get nasportid r);
          Ch.nasporttype := safe_str (get nasporttype r);
          Ch.acctstarttime := start;
          Ch.acctupdatetime := safe_datetime (get acctupdatetime r);
          Ch.acctstoptime := safe_datetime (get acctstoptime r);
          Ch.acctinterval := interval;
          Ch.acctsessiontime := sessiontime;
          Ch.acctauthentic := safe_str (get acctauthentic r);
          Ch.connectinfo_start := safe_str (get connectinfo_start r);
          Ch.connectinfo_stop := safe_str (get connectinfo_stop r);
          Ch.acctinputoctets := inputoctets;
          Ch.acctoutputoctets := outputoctets;
          Ch.calledstationid := safe_str (get calledstationid r);
          Ch.callingstationid := safe_str (get callingstationid r);
          Ch.acctterminatecause := safe_str (get acctterminatecause r);
          Ch.servicetype := safe_str (get servicetype r);
          Ch.framedprotocol := safe_str (get framedprotocol r);
          Ch.framedipaddress := safe_str (get framedipaddress r);
          Ch.event_type := event_type;
          Ch.edge_site_id := EDGE_SITE_ID cfg |}.

(** The [for row_tuple in rows] loop, with its two accumulators. *)
Fixpoint prepare (rows : list row) (ch_rows : list Ch.row) (pg_ids : list Z)
  : M (list Ch.row * list Z) :=
  match rows with
  | [] => mret (ch_rows, pg_ids)
  | r :: rows' =>
      let pg_ids := (pg_ids ++ [radacctid r])%list in
      let event_type := determine_event_type r in
      c ← transform r event_type;
      prepare rows' (ch_rows ++ [c]) pg_ids
  end.

(** [forward_batch(pg_conn, ch_client)] *)
Definition forward_batch (pg_conn ch_client : handle) : M Z :=
  rows ← fetch pg_conn (BATCH_SIZE cfg);
  match rows with
  | [] => mret 0
  | _ :: _ =>
      prepared ← prepare rows [] [];
      let '(ch_rows, pg_ids) := prepared in
      ch_insert ch_client ch_rows;;
      mark_forwarded pg_conn pg_ids;;
      mret (Z.of_nat (length ch_rows))
  end.

End Forwarder.

(** ** Database connections *)

(** The retry loop shared by [connect_postgres] and [connect_clickhouse]:
    [while running: try: <connect>; return conn
     except Exception: time.sleep(5)], then [raise RuntimeError(msg)].
    [script] holds the outcomes of the coming attempts. *)
Fixpoint connect_loop (msg : string) (script : list (option exn)) (w : world)
  : result handle * list (option exn) * world :=
  if running w then
    match script with
    | [] =>
        let w := deliver w in
        (Ok (next_handle w), [], set_next_handle (S (next_handle w)) w)
    | None :: script' =>
        let w := deliver w in
        (Ok (next_handle w), script', set_next_handle (S (next_handle w)) w)
    | Some _ :: script' =>
        connect_loop msg script' (sleep 5 (deliver w))
    end
  else (Raise (RuntimeError msg), script, w).

Definition connect_postgres : M handle := fun w =>
  let '(r, script, w') :=
    connect_loop "Shutting down, could not connect to PostgreSQL"
                 (pg_connects w) w in
  (r, set_pg_connects script w').

Definition connect_clickhouse : M handle := fun w =>
  let '(r, script, w') :=
    connect_loop "Shutting down, could not connect to ClickHouse"
                 (ch_connects w) w in
  (r, set_ch_connects script w').

(** ** Main loop *)

(** The connection variables of [main]. *)
Record locals := Locals {
  pg_conn : handle;
  ch_client : handle
}.

(** [metrics["total_errors"] += 1] *)
Definition count_error (w : world) : world :=
  let m := metrics w in
  set_metrics {| total_forwarded := total_forwarded m;
                 total_batches := total_batches m;
                 total_errors := total_errors m + 1;
                 last_forward_time := last_forward_time m;
                 started_at := started_at m |} w.

(** The three metric updates after a cycle that forwarded [count] rows. *)
Definition count_forwarded (count : Z) : M unit :=
  modify (fun w =>
    let m := metrics w in
    set_metrics {| total_forwarded := total_forwarded m + count;
                   total_batches := total_batches m + 1;
                   total_errors := total_errors m;
                   last_forward_time := last_forward_time m;
                   started_at := started_at m |} w);;
  now ← datetime_now;
  modify (fun w =>
    let m := metrics w in
    set_metrics {| total_forwarded := total_forwarded m;
                   total_batches := total_batches m;
                   total_errors := total_errors m;
                   last_forward_time := Some (isoformat now);
                   started_at := started_at m |} w).

Section MainLoop.

Variable cfg : config.

(** The body of [while pg_conn.notifies] for one popped notification:
    forward at once; on any exception count it and reconnect. *)
Definition on_notify (l : locals) (w : world) : locals * world :=
  match (count ← forward_batch cfg (pg_conn l) (ch_client l);
         if 0 <? count then count_forwarded count else mret tt) w with
  | (Ok _, w1) => (l, w1)
  | (Raise _, w1) =>
      match connect_clickhouse (count_error w1) with
      | (Ok c, w2) => ({| pg_conn := pg_conn l; ch_client := c |}, w2)
      | (Raise _, w2) => (l, w2)
      end
  end.

(** [while pg_conn.notifies: notify = pg_conn.notifies.pop(0); ...] over
    the notifications that [pg_conn.poll()] queued. *)
Fixpoint notify_loop (notifies : list string) (l : locals) (w : world)
  : locals * world :=
  match notifies with
  | [] => (l, w)
  | _ :: notifies' =>
      let '(l', w') := on_notify l w in notify_loop notifies' l' w'
  end.

(** The drain loop of the poll path,
    [while running: count = forward_batch(...); if count == 0: break; ...],
    returning [total_this_poll]. [None] when [fuel] iterations were not
    enough. *)
Fixpoint drain (fuel : nat) (l : locals) (total_this_poll : Z) (w : world)
  : option (result Z * world) :=
  match fuel with
  | O => None
  | S fuel' =>
      if running w then
        match forward_batch cfg (pg_conn l) (ch_client l) w with
        | (Raise e, w1) => Some (Raise e, w1)
        | (Ok count, w1) =>
            if count =? 0 then Some (Ok total_this_poll, w1)
            else drain fuel' l (total_this_poll + count)
                       (count_forwarded count w1).2
        end
      else Some (Ok total_this_poll, w)
  end.

(** Every iteration that does not leave the loop forwards at least one
    pending row, so one more iteration than rows pending always suffices. *)
Definition drain_fuel (w : world) : nat := S (length (unforwarded (radacct w))).

(** The [except] handler of the poll path after the error was counted:
    close the source connection (no effect on the world), then reconnect
    the source, re-subscribe and reconnect the sink; when any of these
    raises, wait ten seconds. *)
Definition poll_reconnect (l : locals) (w : world) : locals * world :=
  match connect_postgres w with
  | (Raise _, w1) => (l, sleep 10 w1)
  | (Ok c, w1) =>
      let l1 := {| pg_conn := c; ch_client := ch_client l |} in
      match pg_execute c Listen w1 with
      | (Raise _, w2) => (l1, sleep 10 w2)
      | (Ok _, w2) =>
          match connect_clickhouse w2 with
          | (Raise _, w3) => (l1, sleep 10 w3)
          | (Ok c', w3) => ({| pg_conn := c; ch_client := c' |}, w3)
          end
      end
  end.

(** The poll path once the interval has elapsed: [try] the drain loop,
    [except] count the error and reconnect. *)
Definition poll_cycle (l : locals) (w : world) : option (locals * world) :=
  match drain (drain_fuel w) l 0 w with
  | None => None
  | Some (Ok _, w1) => Some (l, w1)
  | Some (Raise _, w1) => Some (poll_reconnect l (count_error w1))
  end.

End MainLoop.

(** ** The columns by kind *)

(** The textual columns, each with the sink key it feeds through
    [safe_str]. *)
Definition text_fields : list ((columns -> value) * (Ch.row -> string)) :=
  [ (acctsessionid, Ch.acctsessionid); (acctuniqueid, Ch.acctuniqueid);
    (username, Ch.username); (realm, Ch.realm);
    (nasipaddress, Ch.nasipaddress); (nasportid, Ch.nasportid);
    (nasporttype, Ch.nasporttype); (acctauthentic, Ch.acctauthentic);
    (connectinfo_start, Ch.connectinfo_start);
    (connectinfo_stop, Ch.connectinfo_stop);
    (calledstationid, Ch.calledstationid);
    (callingstationid, Ch.callingstationid);
    (acctterminatecause, Ch.acctterminatecause);
    (servicetype, Ch.servicetype); (framedprotocol, Ch.framedprotocol);
    (framedipaddress, Ch.framedipaddress) ].

(** The numeric columns, fed through [safe_int]. *)
Definition numeric_fields : list ((columns -> value) * (Ch.row -> Z)) :=
  [ (acctinterval, Ch.acctinterval); (acctsessiontime, Ch.acctsessiontime);
    (acctinputoctets, Ch.acctinputoctets);
    (acctoutputoctets, Ch.acctoutputoctets) ].

(** The timestamps other than the start time, fed through
    [safe_datetime]. *)
Definition later_timestamps
  : list ((columns -> value) * (Ch.row -> option datetime)) :=
  [ (acctupdatetime, Ch.acctupdatetime); (acctstoptime, Ch.acctstoptime) ].

(** Whether the four counters of a row convert, so that its transform
    does not raise. *)
Definition counters_convert (c : columns) : bool :=
  forallb (fun p : (columns -> value) * (Ch.row -> Z) =>
             match safe_int (p.1 c) with Ok _ => true | Raise _ => false end)
          numeric_fields.

(** ** Sample data *)

Module Sample.

(** A row with every nullable column absent. *)
Definition blank : columns :=
  Columns VNone VNone VNone VNone VNone VNone VNone VNone VNone VNone VNone
          VNone VNone VNone VNone VNone VNone VNone VNone VNone VNone VNone
          VNone.

Definition t0 : datetime := Datetime 2024 5 1 8 0 0 0 (Some 0).
Definition t1 : datetime := Datetime 2024 5 1 8 5 0 0 (Some 0).
Definition t2 : datetime := Datetime 2024 5 1 9 30 0 250000 (Some 0).

(** A session of user [u] with the given three timestamps. *)
Definition session (u : string) (start update stop : value) : columns :=
  {| acctsessionid := VStr ("sess-" ++ u); acctuniqueid := VStr ("uniq-" ++ u);
     username := VStr u; realm := VNone;
     nasipaddress := VStr "10.0.0.1"; nasportid := VStr "eth0";
     nasporttype := VStr "Ethernet"; acctstarttime := start;
     acctupdatetime := update; acctstoptime := stop;
     acctinterval := VNone; acctsessiontime := VInt 300;
     acctauthentic := VStr "RADIUS";
     connectinfo_start := VNone; connectinfo_stop := VNone;
     acctinputoctets := VInt 1024; acctoutputoctets := VInt 4096;
     calledstationid := VStr "AA-BB"; callingstationid := VStr "CC-DD";
     acctterminatecause := VNone; servicetype := VStr "Framed-User";
     framedprotocol := VStr "PPP"; framedipaddress := VNone |}.

Definition started : columns := session "ann" (VDatetime t0) VNone VNone.
Definition updated : columns :=
  session "bob" (VDatetime t0) (VDatetime t1) VNone.
Definition stopped : columns :=
  session "cyd" (VDatetime t0) (VDatetime t1) (VDatetime t2).

(** A stop time that reached the driver as text. *)
Definition textual_stop : columns :=
  session "dan" (VDatetime t0) VNone (VStr "2024-05-01 09:30:00").

(** An octet counter that is not a number. *)
Definition bad_counter : columns :=
  {| acctsessionid := VStr "sess-eve"; acctuniqueid := VStr "uniq-eve";
     username := VStr "eve"; realm := VNone;
     nasipaddress := VNone; nasportid := VNone; nasporttype := VNone;
     acctstarttime := VDatetime t0; acctupdatetime := VNone;
     acctstoptime := VNone; acctinterval := VNone; acctsessiontime := VNone;
     acctauthentic := VNone; connectinfo_start := VNone;
     connectinfo_stop := VNone; acctinputoctets := VStr "n/a";
     acctoutputoctets := VNone; calledstationid := VNone;
     callingstationid := VNone; acctterminatecause := VNone;
     servicetype := VNone; framedprotocol := VNone; framedipaddress := VNone |}.

(** Three pending sessions and one that was forwarded earlier. *)
Definition table : gmap Z stored :=
  <[ 12 := Stored stopped false ]>
  (<[ 10 := Stored started false ]>
  (<[ 7 := Stored started true ]>
  (<[ 11 := Stored updated false ]> ∅))).

Definition cfg (n : Z) : config :=
  {| BATCH_SIZE := n; POLL_INTERVAL_SECONDS := 5; EDGE_SITE_ID := "edge-1" |}.

Definition metrics0 : counters :=
  {| total_forwarded := 0; total_batches := 0; total_errors := 0;
     last_forward_time := None; started_at := "2024-05-01T07:00:00+00:00" |}.

(** The wall clock: one second per reading from 10:00:00 UTC. *)
Definition clock0 (n : nat) : datetime :=
  Datetime 2024 5 1 10 0 (Z.of_nat n) 0 (Some 0).

(** A calm world over a given table: nothing fails, no signal comes. *)
Definition calm (t : gmap Z stored) : world :=
  {| running := true; metrics := metrics0; radacct := t; pg_log := [];
     radius_accounting := []; pg_script := []; ch_script := [];
     pg_connects := []; ch_connects := []; signal_in := None;
     clock := clock0; clock_reads := 0%nat; slept := 0;
     next_handle := 2%nat |}.

Definition main_locals : locals := {| pg_conn := 0%nat; ch_client := 1%nat |}.

(** The sink refuses the next insert. *)
Definition sink_down (t : gmap Z stored) : world :=
  set_ch_script [Some (DriverError "sink unreachable")] (calm t).

(** The source answers the next statement and fails the one after it. *)
Definition mark_fails (t : gmap Z stored) : world :=
  set_pg_script [None; Some (DriverError "connection lost")] (calm t).

(** The source refuses three connection attempts; [sig] says when the
    termination signal comes. *)
Definition source_refusing (sig : option nat) : world :=
  set_signal_in sig
    (set_pg_connects (replicate 3 (Some (DriverError "connection refused")))
       (calm table)).

(** The same for the sink. *)
Definition sink_refusing (sig : option nat) : world :=
  set_signal_in sig
    (set_ch_connects (replicate 3 (Some (DriverError "connection refused")))
       (calm table)).

(** The source fails the next statement. *)
Definition source_down (t : gmap Z stored) : world :=
  set_pg_script [Some (DriverError "connection lost")] (calm t).

End Sample.

(** ** Vocabulary of the properties *)

(** Strictly ascending primary keys. *)
Definition id_lt (a b : row) : Prop := radacctid a < radacctid b.

(** The pending rows in the order of the query, before the limit. *)
Definition pending (t : gmap Z stored) : list row :=
  merge_sort id_le (unforwarded t).

(** The part of the world that no statement on either store touches. *)
Record same_process (w w' : world) : Prop := SameProcess {
  sp_metrics : metrics w' = metrics w;
  sp_pg_connects : pg_connects w' = pg_connects w;
  sp_ch_connects : ch_connects w' = ch_connects w;
  sp_slept : slept w' = slept w;
  sp_next_handle : next_handle w' = next_handle w;
  sp_clock : clock w' = clock w
}.

(** The shutdown flag is unset, no signal is on its way, and no
    statement on either store is going to fail. *)
Record quiet (w : world) : Prop := Quiet {
  q_running : running w = true;
  q_signal : signal_in w = None;
  q_pg : Forall (fun o => o = None) (pg_script w);
  q_ch : Forall (fun o => o = None) (ch_script w)
}.

(** Every pending row has counters that convert. *)
Definition pending_convert (t : gmap Z stored) : Prop :=
  forall k s, t !! k = Some s -> forwarded_to_ch s = false ->
              counters_convert (cols s) = true.

(** The statements of a cycle that forwards the identifiers [ids]. *)
Definition cycle_stmts (h : handle) (limit : Z) (ids : list Z)
  : list (handle * pg_stmt) :=
  [(h, Fetch limit); (h, MarkForwarded ids)].

(** [⌈a / b⌉] *)
Definition ceil_div (a b : Z) : Z := (a + b - 1) / b.

(** [c] is the sink row the loop of [forward_batch] builds for [r]. *)
Definition transformed (cfg : config) (r : row) (c : Ch.row) : Prop :=
  exists w w', transform cfg r (determine_event_type r) w = (Ok c, w').

(** The failed attempts a connection script starts with. *)
Fixpoint leading_failures (script : list (option exn)) : nat :=
  match script with
  | Some _ :: script' => S (leading_failures script')
  | _ => O
  end.

(** The shutdown flag is set once [n] more blocking calls have gone by:
    it is set already, or the signal falls into one of these calls. *)
Definition shutdown_by (n : nat) (w : world) : Prop :=
  running w = false \/ exists m, signal_in w = Some m /\ (m < n)%nat.

(** What it means for a supervisor [connect], fed by the attempts of
    [script], to retry every five seconds until shutdown. With [k] failed
    attempts ahead of the first successful one:
    - it raises exactly when the shutdown flag is set by the time of one
      of its [k + 1] loop tests, that is within the [2 * k] blocking calls
      (attempts and sleeps) that precede the last of them;
    - what it raises is [RuntimeError msg], the flag is then set, and it
      has slept five seconds after each attempt it made;
    - when it returns, it has made the [k] failed attempts and the
      successful one, and slept [5 * k] seconds in all;
    - with the flag unset and no signal coming it returns a connection,
      however many attempts fail first. *)
Definition retries_until_shutdown
  (connect : M handle) (script : world -> list (option exn)) (msg : string)
  : Prop :=
  forall w,
    let k := leading_failures (script w) in
    ((exists e w', connect w = (Raise e, w')) <-> shutdown_by (2 * k) w)
    /\ (forall e w',
           connect w = (Raise e, w') ->
           e = RuntimeError msg
           /\ running w' = false
           /\ exists j, (j <= k)%nat
                        /\ script w' = drop j (script w)
                        /\ slept w' = slept w + 5 * Z.of_nat j)
    /\ (forall h w',
           connect w = (Ok h, w') ->
           script w' = drop (S k) (script w)
           /\ slept w' = slept w + 5 * Z.of_nat k)
    /\ (running w = true -> signal_in w = None ->
        exists h w', connect w = (Ok h, w') /\ running w' = true).

(** The [i]-th of the coming statements on a store does not fail: the
    script ends before it or lets it through. *)
Definition answers (script : list (option exn)) (i : nat) : Prop :=
  forall e, script !! i <> Some (Some e).

(** [a] holds rows that arrived after those of [t]: identifiers are
    handed out in increasing order, so each of them is greater than every
    identifier of [t]. *)
Definition arrivals (t a : gmap Z stored) : Prop :=
  forall k k', is_Some (t !! k) -> is_Some (a !! k') -> k < k'.

(** ** The outer loop of [main] *)

(** What the wait of one iteration brings:
    [select.select([pg_conn], [], [], 1.0)] raises, or times out with
    nothing to read, or reports the connection readable, and then
    [pg_conn.poll()] raises or leaves notifications in [pg_conn.notifies]. *)
Inductive waited :=
| SelectRaises (e : exn)
| TimedOut
| PollRaises (e : exn)
| Notified (notifies : list string).

(** One iteration as the environment shapes it: the outcome of the wait
    and the reading of [time.time()], in seconds. *)
Record iteration := Iteration {
  wait : waited;
  time_time : Q
}.

(** [current_time - last_poll_time >= POLL_INTERVAL_SECONDS] *)
Definition poll_due (cfg : config) (current_time last_poll_time : Q) : bool :=
  Qle_bool (inject_Z (POLL_INTERVAL_SECONDS cfg))
           (Qminus current_time last_poll_time).

(** How the loop of [main] stands when the model leaves it: the flag was
    found cleared at the loop test, or the iterations given are used up
    with the loop still going. *)
Inductive loop_end :=
| Stopped (l : locals)
| Going (l : locals) (last_poll_time : Q).

(** How [main] ends: with an exception nobody caught, by returning after
    the cleanup, or still in its loop. *)
Inductive main_end :=
| Crashed (e : exn)
| Returned
| Looping (l : locals) (last_poll_time : Q).

Section Main.

Variable cfg : config.

(** Part 2 of the loop body: the periodic poll. *)
Definition poll_section (ev : iteration) (l : locals) (last_poll_time : Q)
           (w : world) : option (locals * Q * world) :=
  if poll_due cfg (time_time ev) last_poll_time then
    match poll_cycle cfg l w with
    | Some (l', w') => Some (l', time_time ev, w')
    | None => None
    end
  else Some (l, last_poll_time, w).

(** The handler of the outer [try]: count the error, sleep five seconds,
    close the source connection and reconnect as the poll path does (on
    failure, sleep ten seconds). *)
Definition loop_handler (l : locals) (w : world) : locals * world :=
  poll_reconnect l (sleep 5 (count_error w)).

(** The body of [while running] in [main] for one iteration. Only the
    wait can raise into the outer handler: the notification loop and the
    poll section catch everything themselves. *)
Definition main_iteration (ev : iteration) (l : locals) (last_poll_time : Q)
           (w : world) : option (locals * Q * world) :=
  let w := deliver w in
  match wait ev with
  | SelectRaises _ | PollRaises _ =>
      let '(l', w') := loop_handler l w in Some (l', last_poll_time, w')
  | TimedOut => poll_section ev l last_poll_time w
  | Notified notifies =>
      let '(l', w') := notify_loop cfg notifies l w in
      poll_section ev l' last_poll_time w'
  end.

(** [while running: ...] over the iterations the environment provides. *)
Fixpoint main_loop (evs : list iteration) (l : locals) (last_poll_time : Q)
         (w : world) : option (loop_end * world) :=
  if running w then
    match evs with
    | [] => Some (Going l last_poll_time, w)
    | ev :: evs' =>
        match main_iteration ev l last_poll_time w with
        | Some (l', last', w') => main_loop evs' l' last' w'
        | None => None
        end
    end
  else Some (Stopped l, w).

(** [main()]: connect to both stores, subscribe, loop, clean up. The
    three start-up steps stand outside every [try]. *)
Definition main (evs : list iteration) (w : world)
  : option (main_end * world) :=
  match connect_postgres w with
  | (Raise e, w1) => Some (Crashed e, w1)
  | (Ok pg, w1) =>
      match connect_clickhouse w1 with
      | (Raise e, w2) => Some (Crashed e, w2)
      | (Ok ch, w2) =>
          match pg_execute pg Listen w2 with
          | (Raise e, w3) => Some (Crashed e, w3)
          | (Ok _, w3) =>
              match main_loop evs {| pg_conn := pg; ch_client := ch |} 0%Q w3
              with
              | None => None
              | Some (Stopped _, w4) => Some (Returned, w4)
              | Some (Going l last, w4) => Some (Looping l last, w4)
              end
          end
      end
  end.

End Main.

(** ** Vocabulary of the further properties *)

(** No statement on either store is going to fail; the flag and the
    signal are left free. *)
Record unfailing (w : world) : Prop := Unfailing {
  u_pg : Forall (fun o => o = None) (pg_script w);
  u_ch : Forall (fun o => o = None) (ch_script w)
}.

(** [w'] is a later state of the two stores with nothing lost: the sink
    has only grown, by the rows [new]; no row of the source has appeared,
    vanished or changed its columns; a forward flag has only ever changed
    from false to true, and then the row's identifier is among the new
    sink rows. *)
Definition delivered (w w' : world) : Prop :=
  exists new,
    radius_accounting w' = (radius_accounting w ++ new)%list
    /\ forall k,
        match radacct w !! k with
        | None => radacct w' !! k = None
        | Some s =>
            exists s', radacct w' !! k = Some s'
                       /\ cols s' = cols s
                       /\ (forwarded_to_ch s' = forwarded_to_ch s
                           \/ (forwarded_to_ch s = false
                               /\ forwarded_to_ch s' = true
                               /\ k ∈ Ch.radacctid <$> new))
        end.

(** The forwarded counter accounts for every row that stopped being
    pending. *)
Definition accounted (w w' : world) : Prop :=
  total_forwarded (metrics w') + Z.of_nat (length (pending (radacct w')))
  = total_forwarded (metrics w) + Z.of_nat (length (pending (radacct w))).

(** The fetch statements among statements sent to the source. *)
Definition is_fetch (hq : handle * pg_stmt) : bool :=
  match hq.2 with Fetch _ => true | _ => false end.

Definition fetches (stmts : list (handle * pg_stmt)) : nat :=
  length (List.filter is_fetch stmts).

(** What every stretch of the main loop keeps: nothing is lost between
    the stores, the forwarded counter accounts for what stopped being
    pending, and the error counter does not go down. *)
Definition kept (w w' : world) : Prop :=
  delivered w w' /\ accounted w w'
  /\ total_errors (metrics w) <= total_errors (metrics w').

(** ** Sample runs of [main] *)

Module Scenario.

(** Four iterations: a notification, a quiet second, a wait that
    raises, and a quiet second ten seconds later. *)
Definition events : list iteration :=
  [ Iteration (Notified ["radacct_change"]) 1000;
    Iteration TimedOut 1001;
    Iteration (SelectRaises (DriverError "connection lost")) 1002;
    Iteration TimedOut 1012 ].

(** The source answers the subscription and the first fetch and fails
    the first mark; the termination signal falls into the [n]-th blocking
    call from now. *)
Definition world_with_signal (n : nat) : world :=
  set_signal_in (Some n)
    (set_pg_script [None; None; Some (DriverError "connection lost")]
       (Sample.calm Sample.table)).

(** The source fails the subscription of the start-up. *)
Definition listen_fails : world :=
  set_pg_script [Some (DriverError "connection lost")]
    (Sample.calm Sample.table).

(** A table of five pending sessions, one of them with a counter that
    does not convert. *)
Definition poisoned : gmap Z stored :=
  <[ 9 := Stored Sample.bad_counter false ]>
  (<[ 13 := Stored Sample.started false ]> Sample.table).

End Scenario.

(** * Properties *)

(** ** The model of the Python built-ins on sample values *)

Example str_int_neg : Py.str (VInt (-42)) = "-42".
Proof. reflexivity. Qed.

Example str_datetime_utc :
  Py.str (VDatetime (Datetime 2024 1 2 3 4 5 0 (Some 0)))
  = "2024-01-02 03:04:05+00:00".
Proof. reflexivity. Qed.

Example isoformat_micro :
  isoformat (Datetime 2024 11 30 23 59 8 1500 (Some (-330)))
  = "2024-11-30T23:59:08.001500-05:30".
Proof. reflexivity. Qed.

Example int_of_str_plain : Py.int (VStr " 1_000 ") = Ok 1000.
Proof. reflexivity. Qed.

Example int_of_str_signed : Py.int (VStr "-17") = Ok (-17).
Proof. reflexivity. Qed.

Example int_of_str_bad :
  Py.int (VStr "12a")
  = Raise (ValueError "invalid literal for int() with base 10: '12a'").
Proof. reflexivity. Qed.

Example int_of_str_empty :
  Py.int (VStr "")
  = Raise (ValueError "invalid literal for int() with base 10: ''").
Proof. reflexivity. Qed.

(** Digits and white space of other scripts count: full-width digits,
    and the no-break space U+00A0, in UTF-8 the bytes C2 A0. *)
Example int_of_str_fullwidth : Py.int (VStr "１２") = Ok 12.
Proof. vm_compute. reflexivity. Qed.

Example int_of_str_no_break_space :
  Py.int (VStr (String (ascii_of_N 0xC2) (String (ascii_of_N 0xA0) "7")))
  = Ok 7.
Proof. vm_compute. reflexivity. Qed.

(** The separators U+001C to U+001F are no white space for [int()]. *)
Example int_of_str_separator :
  Py.int (VStr (String (ascii_of_N 28) "7"))
  = Raise (ValueError "invalid literal for int() with base 10: '\x1c7'").
Proof. vm_compute. reflexivity. Qed.

(** A quote in the literal changes the quotes of [repr]. *)
Example int_of_str_quote :
  Py.int (VStr "it's")
  = Raise (ValueError
             (String.concat ""
                ["invalid literal for int() with base 10: ";
                 String (ascii_of_N 34) "it's"; String (ascii_of_N 34) ""])).
Proof. vm_compute. reflexivity. Qed.

Example int_of_str_too_long :
  Py.int (VStr (String.concat "" (replicate 4301 "1")))
  = Raise (ValueError "Exceeds the limit (4300 digits) for integer string conversion: value has 4301 digits; use sys.set_int_max_str_digits() to increase the limit")
  /\ exists z, Py.int (VStr (String.concat "" (replicate 4300 "1"))) = Ok z.
Proof. split; [|eexists]; vm_compute; reflexivity. Qed.

Example quiet_cycle_of_two :
  let w := (forward_batch (Sample.cfg 2) 0%nat 1%nat
              (Sample.calm Sample.table)).2 in
  (forward_batch (Sample.cfg 2) 0%nat 1%nat (Sample.calm Sample.table)).1
    = Ok 2
  /\ pg_log w = [(0%nat, Fetch 2); (0%nat, MarkForwarded [10; 11])]
  /\ Ch.event_type <$> radius_accounting w = ["start"; "interim"].
Proof. vm_compute. auto. Qed.

(** A counter that does not convert aborts the cycle in the transform:
    the [ValueError] comes out and neither store has changed. *)
Example bad_counter_aborts_cycle :
  let t := <[ 20 := Stored Sample.bad_counter false ]> Sample.table in
  let run := forward_batch (Sample.cfg 5) 0%nat 1%nat (Sample.calm t) in
  run.1 = Raise (ValueError "invalid literal for int() with base 10: 'n/a'")
  /\ radacct run.2 = t
  /\ radius_accounting run.2 = [].
Proof. vm_compute. auto. Qed.

(** ** Running the monad *)

Lemma bind_run {A B} (m : M A) (f : A -> M B) (w : world) :
  (m ≫= f) w
  = match m w with
    | (Ok a, w1) => f a w1
    | (Raise e, w1) => (Raise e, w1)
    end.
Proof. reflexivity. Qed.

Lemma bind_inv {A B} (m : M A) (f : A -> M B) w r w' :
  (m ≫= f) w = (r, w') ->
  (exists a w1, m w = (Ok a, w1) /\ f a w1 = (r, w'))
  \/ (exists e, m w = (Raise e, w') /\ r = Raise e).
Proof.
  rewrite bind_run. destruct (m w) as [[a|e] w1]; intros H.
  - left. eauto.
  - right. injection H as <- <-. eauto.
Qed.

(** ** Lifecycle classification and the null-safe coercions *)

Lemma safe_str_None : safe_str VNone = "".
Proof. reflexivity. Qed.

Lemma safe_str_text s : safe_str (VStr s) = s.
Proof. reflexivity. Qed.

Lemma safe_int_None : safe_int VNone = Ok 0.
Proof. reflexivity. Qed.

Lemma safe_int_number z : safe_int (VInt z) = Ok z.
Proof. reflexivity. Qed.

Lemma safe_datetime_None : safe_datetime VNone = None.
Proof. reflexivity. Qed.

Lemma safe_datetime_datetime d : safe_datetime (VDatetime d) = Some d.
Proof. reflexivity. Qed.

Lemma is_none_spec v : is_none v = true <-> v = VNone.
Proof. destruct v; simpl; split; congruence. Qed.

Lemma is_none_false v : is_none v = false <-> v <> VNone.
Proof. destruct v; simpl; split; congruence. Qed.

Lemma event_type_stop r :
  get acctstoptime r <> VNone -> determine_event_type r = "stop".
Proof.
  unfold determine_event_type. intros H%is_none_false. by rewrite H.
Qed.

Lemma event_type_interim r :
  get acctstoptime r = VNone -> get acctupdatetime r <> VNone ->
  determine_event_type r = "interim".
Proof.
  unfold determine_event_type. intros -> H%is_none_false. simpl.
  by rewrite H.
Qed.

Lemma event_type_start r :
  get acctstoptime r = VNone -> get acctupdatetime r = VNone ->
  determine_event_type r = "start".
Proof. unfold determine_event_type. by intros -> ->. Qed.

(** C2. A row is classified [stop] when its stop time is present, whatever
    its update time, present or not; otherwise [interim] when its update
    time is present; otherwise [start]. *)
Theorem determine_event_type_precedence (r : row) :
  (get acctstoptime r <> VNone -> determine_event_type r = "stop")
  /\ (get acctstoptime r <> VNone -> get acctupdatetime r <> VNone ->
      determine_event_type r = "stop")
  /\ (get acctstoptime r = VNone -> get acctupdatetime r <> VNone ->
      determine_event_type r = "interim")
  /\ (get acctstoptime r = VNone -> get acctupdatetime r = VNone ->
      determine_event_type r = "start").
Proof.
  split_and!.
  - apply event_type_stop.
  - intros H _. by apply event_type_stop.
  - apply event_type_interim.
  - apply event_type_start.
Qed.

(** The classification of the three sample sessions: the stopped one has
    both an update and a stop time. *)
Lemma determine_event_type_precedence_witness :
  determine_event_type (Row 12 Sample.stopped) = "stop"
  /\ determine_event_type (Row 11 Sample.updated) = "interim"
  /\ determine_event_type (Row 10 Sample.started) = "start".
Proof.
  split; [|split].
  - apply (proj1 (proj2 (determine_event_type_precedence
                           (Row 12 Sample.stopped)))); discriminate.
  - apply (proj1 (proj2 (proj2 (determine_event_type_precedence
                                  (Row 11 Sample.updated))))).
    + reflexivity.
    + discriminate.
  - apply (proj2 (proj2 (proj2 (determine_event_type_precedence
                                  (Row 10 Sample.started))))); reflexivity.
Defined.

(** What a transform that returns has computed, and what it did to the
    world: at most one reading of the clock. *)
Lemma transform_Ok cfg r ev w c w' :
  transform cfg r ev w = (Ok c, w') ->
  exists i1 i2 i3 i4,
    safe_int (get acctinterval r) = Ok i1
    /\ safe_int (get acctsessiontime r) = Ok i2
    /\ safe_int (get acctinputoctets r) = Ok i3
    /\ safe_int (get acctoutputoctets r) = Ok i4
    /\ Ch.radacctid c = radacctid r
    /\ Ch.event_type c = ev
    /\ Ch.edge_site_id c = EDGE_SITE_ID cfg
    /\ Ch.acctinterval c = i1 /\ Ch.acctsessiontime c = i2
    /\ Ch.acctinputoctets c = i3 /\ Ch.acctoutputoctets c = i4
    /\ Forall (fun p => p.2 c = safe_str (get p.1 r)) text_fields
    /\ Forall (fun p => p.2 c = safe_datetime (get p.1 r)) later_timestamps
    /\ Ch.acctstarttime c
       = (if truthy (get acctstarttime r) then get acctstarttime r
          else VDatetime (clock w (clock_reads w)))
    /\ w' = (if truthy (get acctstarttime r) then w
             else set_clock_reads (S (clock_reads w)) w).
Proof.
  unfold transform. rewrite bind_run.
  set (start := if truthy (get acctstarttime r) then _ else _).
  assert (Hs : start w
               = (Ok (if truthy (get acctstarttime r)
                      then get acctstarttime r
                      else VDatetime (clock w (clock_reads w))),
                  if truthy (get acctstarttime r) then w
                  else set_clock_reads (S (clock_reads w)) w)).
  { subst start. by destruct (truthy (get acctstarttime r)). }
  rewrite Hs. clear Hs start.
  rewrite !bind_run. unfold lift_result.
  destruct (safe_int (get acctinterval r)) as [i1|]; [|discriminate].
  destruct (safe_int (get acctsessiontime r)) as [i2|]; [|discriminate].
  destruct (safe_int (get acctinputoctets r)) as [i3|]; [|discriminate].
  destruct (safe_int (get acctoutputoctets r)) as [i4|]; [|discriminate].
  intros [= <- <-]. exists i1, i2, i3, i4.
  repeat split; repeat constructor.
Qed.

(** A transform raises only through a counter that does not convert. *)
Lemma transform_total cfg r ev w :
  counters_convert (fields r) = true ->
  exists c, transform cfg r ev w
            = (Ok c, if truthy (get acctstarttime r) then w
                     else set_clock_reads (S (clock_reads w)) w).
Proof.
  unfold counters_convert, numeric_fields, get. simpl.
  unfold transform, get. rewrite bind_run.
  destruct (truthy (acctstarttime (fields r))); simpl;
    rewrite !bind_run; unfold lift_result;
    destruct (safe_int (acctinterval (fields r))); try discriminate;
    destruct (safe_int (acctsessiontime (fields r))); try discriminate;
    destruct (safe_int (acctinputoctets (fields r))); try discriminate;
    destruct (safe_int (acctoutputoctets (fields r))); try discriminate;
    eauto.
Qed.

(** C3. Whenever the transform of a row returns, every absent textual
    column has become the empty string, every absent counter zero, an
    absent update or stop time the unset value [None], and an absent start
    time the reading of the clock taken by this very transform. A row with
    every nullable column absent does transform, to exactly these
    defaults. *)
Theorem transform_defaults cfg ev w :
  (forall r c w',
      transform cfg r ev w = (Ok c, w') ->
      Forall (fun p => get p.1 r = VNone -> p.2 c = "") text_fields
      /\ Forall (fun p => get p.1 r = VNone -> p.2 c = 0) numeric_fields
      /\ Forall (fun p => get p.1 r = VNone -> p.2 c = None) later_timestamps
      /\ (get acctstarttime r = VNone ->
          Ch.acctstarttime c = VDatetime (clock w (clock_reads w))
          /\ clock_reads w' = S (clock_reads w)))
  /\ (forall k,
         transform cfg (Row k Sample.blank) ev w
         = (Ok {| Ch.radacctid := k;
                  Ch.acctsessionid := ""; Ch.acctuniqueid := "";
                  Ch.username := ""; Ch.realm := ""; Ch.nasipaddress := "";
                  Ch.nasportid := ""; Ch.nasporttype := "";
                  Ch.acctstarttime := VDatetime (clock w (clock_reads w));
                  Ch.acctupdatetime := None; Ch.acctstoptime := None;
                  Ch.acctinterval := 0; Ch.acctsessiontime := 0;
                  Ch.acctauthentic := ""; Ch.connectinfo_start := "";
                  Ch.connectinfo_stop := ""; Ch.acctinputoctets := 0;
                  Ch.acctoutputoctets := 0; Ch.calledstationid := "";
                  Ch.callingstationid := ""; Ch.acctterminatecause := "";
                  Ch.servicetype := ""; Ch.framedprotocol := "";
                  Ch.framedipaddress := ""; Ch.event_type := ev;
                  Ch.edge_site_id := EDGE_SITE_ID cfg |},
            set_clock_reads (S (clock_reads w)) w)).
Proof.
  split; [|reflexivity].
  intros r c w' H.
  destruct (transform_Ok _ _ _ _ _ _ H)
    as (i1 & i2 & i3 & i4 & H1 & H2 & H3 & H4 & _ & _ & _
        & E1 & E2 & E3 & E4 & Ht & Hd & Hs & Hw).
  repeat split.
  - eapply Forall_impl; [exact Ht|]. intros p -> ->. reflexivity.
  - unfold numeric_fields.
    repeat constructor; simpl; intros Hn;
      [ rewrite Hn in H1 | rewrite Hn in H2
      | rewrite Hn in H3 | rewrite Hn in H4 ];
      rewrite safe_int_None in *; congruence.
  - eapply Forall_impl; [exact Hd|]. intros p -> ->. reflexivity.
  - rewrite Hs. unfold get in *. by rewrite H0.
  - rewrite Hw. unfold get in *. by rewrite H0.
Qed.

(** The session that has only a start time: its absent realm, interval,
    update and stop time get their defaults; and the blank row, whose
    start time becomes the first clock reading. *)
Lemma transform_defaults_witness :
  (exists c w',
      transform (Sample.cfg 2) (Row 10 Sample.started) "start"
                (Sample.calm Sample.table) = (Ok c, w')
      /\ Ch.realm c = "" /\ Ch.acctinterval c = 0
      /\ Ch.acctupdatetime c = None /\ Ch.acctstoptime c = None)
  /\ (exists c w',
         transform (Sample.cfg 2) (Row 13 Sample.blank) "start"
                   (Sample.calm Sample.table) = (Ok c, w')
         /\ Ch.acctstarttime c = VDatetime (Sample.clock0 0)).
Proof.
  split.
  - eexists. eexists. split; [vm_compute; reflexivity|].
    destruct (proj1 (transform_defaults (Sample.cfg 2) "start"
                       (Sample.calm Sample.table))
                    (Row 10 Sample.started) _ _ eq_refl)
      as (Ht & Hn & Hd & _).
    split; [|split; [|split]].
    + exact (proj1 (Forall_lookup _ _) Ht 3%nat (realm, Ch.realm)
               eq_refl eq_refl).
    + exact (proj1 (Forall_lookup _ _) Hn 0%nat
               (acctinterval, Ch.acctinterval) eq_refl eq_refl).
    + exact (proj1 (Forall_lookup _ _) Hd 0%nat
               (acctupdatetime, Ch.acctupdatetime) eq_refl eq_refl).
    + exact (proj1 (Forall_lookup _ _) Hd 1%nat
               (acctstoptime, Ch.acctstoptime) eq_refl eq_refl).
  - eexists. eexists. split; [vm_compute; reflexivity|].
    destruct (proj1 (transform_defaults (Sample.cfg 2) "start"
                       (Sample.calm Sample.table))
                    (Row 13 Sample.blank) _ _ eq_refl)
      as (_ & _ & _ & Hs).
    exact (proj1 (Hs eq_refl)).
Defined.

(** C10. [safe_datetime] gives the unset value for every value that is
    not a [datetime], absent or not. Hence a row whose stop (or update)
    time is present but is not a [datetime] is still classified [stop]
    (or [interim]) while the forwarded stop (or update) time is unset; and
    no value of these two columns can make the transform raise. *)
Theorem safe_datetime_non_datetime_unset :
  (forall v, isinstance_datetime v = false -> safe_datetime v = None)
  /\ (forall cfg r w c w',
         transform cfg r (determine_event_type r) w = (Ok c, w') ->
         (get acctstoptime r <> VNone ->
          isinstance_datetime (get acctstoptime r) = false ->
          Ch.event_type c = "stop" /\ Ch.acctstoptime c = None)
         /\ (get acctstoptime r = VNone ->
             get acctupdatetime r <> VNone ->
             isinstance_datetime (get acctupdatetime r) = false ->
             Ch.event_type c = "interim" /\ Ch.acctupdatetime c = None))
  /\ (forall cfg r ev w,
         counters_convert (fields r) = true ->
         exists c w', transform cfg r ev w = (Ok c, w')).
Proof.
  assert (Hsd : forall v, isinstance_datetime v = false ->
                          safe_datetime v = None).
  { by intros []. }
  split; [exact Hsd|]. split.
  - intros cfg r w c w' H.
    destruct (transform_Ok _ _ _ _ _ _ H)
      as (_ & _ & _ & _ & _ & _ & _ & _ & _ & Hev & _ & _ & _ & _ & _
          & _ & Hd & _).
    pose proof (proj1 (Forall_lookup _ _) Hd 0%nat
                  (acctupdatetime, Ch.acctupdatetime) eq_refl) as Hu.
    pose proof (proj1 (Forall_lookup _ _) Hd 1%nat
                  (acctstoptime, Ch.acctstoptime) eq_refl) as Hstop.
    simpl in Hu, Hstop.
    split.
    + intros Hp Hnd. rewrite Hev, Hstop. auto using event_type_stop.
    + intros Ha Hp Hnd. rewrite Hev, Hu. auto using event_type_interim.
  - intros cfg r ev w Hc.
    destruct (transform_total cfg r ev w Hc) as [c Hc']. eauto.
Qed.

(** A stop time that arrived as text: the row goes out tagged [stop]
    with no stop time. *)
Lemma safe_datetime_non_datetime_unset_witness :
  safe_datetime (VStr "2024-05-01 09:30:00") = None
  /\ exists c w',
      transform (Sample.cfg 2) (Row 14 Sample.textual_stop)
                (determine_event_type (Row 14 Sample.textual_stop))
                (Sample.calm Sample.table) = (Ok c, w')
      /\ Ch.event_type c = "stop" /\ Ch.acctstoptime c = None.
Proof.
  split.
  - apply (proj1 safe_datetime_non_datetime_unset). reflexivity.
  - eexists. eexists. split; [vm_compute; reflexivity|].
    apply (proj1 (proj1 (proj2 safe_datetime_non_datetime_unset)
                    (Sample.cfg 2) (Row 14 Sample.textual_stop)
                    (Sample.calm Sample.table) _ _ eq_refl)).
    + discriminate.
    + reflexivity.
Defined.

(** ** The fetch query *)

#[global] Instance id_le_trans : Transitive id_le.
Proof. intros a b c. unfold id_le. lia. Qed.

#[global] Instance id_le_total : Total id_le.
Proof. intros a b. unfold id_le. lia. Qed.

Lemma elem_of_unforwarded (t : gmap Z stored) (r : row) :
  r ∈ unforwarded t
  <-> exists s, t !! radacctid r = Some s
                /\ forwarded_to_ch s = false
                /\ fields r = coalesce_framedipaddress (cols s).
Proof.
  unfold unforwarded. rewrite list_elem_of_fmap. split.
  - intros ([k s] & -> & [Hf Hin]%list_elem_of_filter).
    apply elem_of_map_to_list in Hin. simpl in *. eauto.
  - intros (s & Hl & Hf & Hc). exists (radacctid r, s). split.
    + destruct r as [k c]. simpl in *. by rewrite Hc.
    + apply list_elem_of_filter. split; [done|].
      by apply elem_of_map_to_list.
Qed.

Lemma unforwarded_ids (t : gmap Z stored) :
  radacctid <$> unforwarded t
  = (filter (fun kv : Z * stored => forwarded_to_ch kv.2 = false)
            (map_to_list t)).*1.
Proof.
  unfold unforwarded. rewrite <- list_fmap_compose.
  by apply list_fmap_ext.
Qed.

Lemma NoDup_unforwarded_ids (t : gmap Z stored) :
  NoDup (radacctid <$> unforwarded t).
Proof.
  rewrite unforwarded_ids.
  eapply sublist_NoDup; [apply (NoDup_fst_map_to_list t)|].
  apply fmap_sublist, sublist_filter.
Qed.

Lemma NoDup_unforwarded (t : gmap Z stored) : NoDup (unforwarded t).
Proof. eapply NoDup_fmap_1, NoDup_unforwarded_ids. Qed.

Lemma pending_Permutation t : pending t ≡ₚ unforwarded t.
Proof. apply merge_sort_Permutation. Qed.

Lemma pending_length t : length (pending t) = length (unforwarded t).
Proof. by rewrite pending_Permutation. Qed.

Lemma NoDup_pending_ids t : NoDup (radacctid <$> pending t).
Proof.
  rewrite pending_Permutation. apply NoDup_unforwarded_ids.
Qed.

Lemma strictly_sorted (l : list row) :
  StronglySorted id_le l -> NoDup (radacctid <$> l) -> StronglySorted id_lt l.
Proof.
  induction 1 as [|a l Hs IH Hall]; intros Hnd; constructor.
  - apply IH. by inversion Hnd.
  - apply NoDup_cons in Hnd as [Hni _].
    apply Forall_forall. intros b Hb.
    pose proof (proj1 (Forall_forall _ _) Hall b Hb) as Hle.
    unfold id_le in Hle. unfold id_lt.
    assert (radacctid a <> radacctid b); [|lia].
    intros Heq. apply Hni. rewrite Heq. by apply list_elem_of_fmap_2.
Qed.

Lemma pending_sorted t : StronglySorted id_lt (pending t).
Proof.
  apply strictly_sorted.
  - apply StronglySorted_merge_sort; apply _.
  - apply NoDup_pending_ids.
Qed.

Lemma StronglySorted_take {A} (R : relation A) (l : list A) n :
  StronglySorted R l -> StronglySorted R (take n l).
Proof.
  intros Hs. revert n.
  induction Hs as [|a l Hs IH Hall]; intros [|n]; simpl; try constructor.
  - apply IH.
  - by apply Forall_take.
Qed.

Lemma StronglySorted_drop {A} (R : relation A) (l : list A) n :
  StronglySorted R l -> StronglySorted R (drop n l).
Proof.
  intros Hs. revert n.
  induction Hs as [|a l Hs IH Hall]; intros [|n]; simpl;
    try by constructor.
  apply IH.
Qed.

Lemma elem_of_FETCH_QUERY t limit r :
  r ∈ FETCH_QUERY t limit -> r ∈ unforwarded t.
Proof.
  unfold FETCH_QUERY. intros H.
  eapply elem_of_sublist in H; [|apply sublist_take].
  fold (pending t) in H. by rewrite pending_Permutation in H.
Qed.

Lemma FETCH_QUERY_sorted t limit : StronglySorted id_lt (FETCH_QUERY t limit).
Proof. apply StronglySorted_take, pending_sorted. Qed.

Lemma FETCH_QUERY_length t limit :
  0 <= limit -> Z.of_nat (length (FETCH_QUERY t limit)) <= limit.
Proof. unfold FETCH_QUERY. rewrite length_take. lia. Qed.

Lemma lookup_MARK_FORWARDED_QUERY t ids k :
  MARK_FORWARDED_QUERY t ids !! k
  = (fun s => if bool_decide (k ∈ ids) then Stored (cols s) true else s)
      <$> t !! k.
Proof.
  unfold MARK_FORWARDED_QUERY. rewrite map_lookup_imap.
  by destruct (t !! k).
Qed.

(** A marked identifier is no longer pending. *)
Lemma marked_not_unforwarded t ids r :
  r ∈ unforwarded (MARK_FORWARDED_QUERY t ids) -> radacctid r ∉ ids.
Proof.
  intros (s & Hl & Hf & _)%elem_of_unforwarded Hin.
  rewrite lookup_MARK_FORWARDED_QUERY in Hl.
  destruct (t !! radacctid r) as [s0|]; [|done].
  simpl in Hl. rewrite bool_decide_eq_true_2 in Hl by done.
  injection Hl as <-. discriminate.
Qed.

(** ** Marking a fetched batch *)

Lemma unforwarded_inj t r1 r2 :
  r1 ∈ unforwarded t -> r2 ∈ unforwarded t ->
  radacctid r1 = radacctid r2 -> r1 = r2.
Proof.
  intros (s1 & H1 & _ & F1)%elem_of_unforwarded
         (s2 & H2 & _ & F2)%elem_of_unforwarded E.
  rewrite E in H1. rewrite H1 in H2. injection H2 as ->.
  destruct r1, r2. simpl in *. congruence.
Qed.

Lemma elem_of_unforwarded_marked t ids r :
  r ∈ unforwarded (MARK_FORWARDED_QUERY t ids)
  <-> r ∈ unforwarded t /\ radacctid r ∉ ids.
Proof.
  rewrite !elem_of_unforwarded. setoid_rewrite lookup_MARK_FORWARDED_QUERY.
  split.
  - intros (s & Hl & Hf & Hc).
    destruct (t !! radacctid r) as [s0|] eqn:Ht; [|done].
    simpl in Hl. injection Hl as <-.
    destruct (bool_decide (radacctid r ∈ ids)) eqn:Hd; [done|].
    apply bool_decide_eq_false in Hd. eauto.
  - intros [(s & Hl & Hf & Hc) Hni]. exists s. rewrite Hl. simpl.
    by rewrite bool_decide_eq_false_2.
Qed.

(** After the first [n] pending rows are marked, the pending rows are
    the remaining ones, in the same order. *)
Lemma pending_after_mark t n :
  pending (MARK_FORWARDED_QUERY t (radacctid <$> take n (pending t)))
  = drop n (pending t).
Proof.
  set (ids := radacctid <$> take n (pending t)).
  pose proof (NoDup_pending_ids t) as Hnd.
  rewrite <- (take_drop n (pending t)) in Hnd.
  rewrite fmap_app in Hnd. fold ids in Hnd.
  apply NoDup_app in Hnd as (_ & Hdisj & _).
  assert (Hperm : unforwarded (MARK_FORWARDED_QUERY t ids)
                  ≡ₚ drop n (pending t)).
  { apply NoDup_Permutation.
    - apply NoDup_unforwarded.
    - eapply sublist_NoDup; [|apply sublist_drop].
      rewrite pending_Permutation. apply NoDup_unforwarded.
    - intros r. rewrite elem_of_unforwarded_marked.
      rewrite <- (pending_Permutation t).
      rewrite <- (take_drop n (pending t)) at 1.
      rewrite elem_of_app. split.
      + intros [[Hin|Hin] Hni]; [|done].
        exfalso. apply Hni. by apply list_elem_of_fmap_2.
      + intros Hin. split; [by right|].
        intros Hid. apply (Hdisj _ Hid). by apply list_elem_of_fmap_2. }
  apply StronglySorted_unique_strong with (R := id_le).
  - intros r1 r2 H1 H2 L1 L2.
    apply (unforwarded_inj t).
    + unfold pending in H1. rewrite merge_sort_Permutation in H1.
      by apply elem_of_unforwarded_marked in H1 as [? _].
    + eapply elem_of_sublist in H2; [|apply sublist_drop].
      by rewrite pending_Permutation in H2.
    + unfold id_le in *. lia.
  - apply StronglySorted_merge_sort; apply _.
  - apply StronglySorted_drop, StronglySorted_merge_sort; apply _.
  - unfold pending at 1. by rewrite merge_sort_Permutation.
Qed.

Lemma FETCH_QUERY_pending t limit :
  FETCH_QUERY t limit = take (Z.to_nat limit) (pending t).
Proof. reflexivity. Qed.

Lemma pending_convert_marked t ids :
  pending_convert t -> pending_convert (MARK_FORWARDED_QUERY t ids).
Proof.
  intros H k s. rewrite lookup_MARK_FORWARDED_QUERY.
  destruct (t !! k) as [s0|] eqn:Ht; [|done]. simpl. intros [= <-].
  destruct (bool_decide (k ∈ ids)); [done|]. by apply (H k).
Qed.

Lemma pending_convert_rows t :
  pending_convert t ->
  Forall (fun r => counters_convert (fields r) = true) (pending t).
Proof.
  intros H. apply Forall_forall. intros r Hin.
  rewrite pending_Permutation in Hin.
  apply elem_of_unforwarded in Hin as (s & Hl & Hf & ->).
  exact (H _ _ Hl Hf).
Qed.

(** Marks only ever take rows out of the pending ones, so a row that is
    pending after any number of marks was in none of them. *)
Lemma unforwarded_after_marks t idss r :
  r ∈ unforwarded (foldl MARK_FORWARDED_QUERY t idss) ->
  r ∈ unforwarded t /\ forall ids, ids ∈ idss -> radacctid r ∉ ids.
Proof.
  revert t. induction idss as [|ids0 idss IH]; intros t; simpl.
  - intros H. split; [done|]. by intros ids ?%elem_of_nil.
  - intros [[Hin Hni]%elem_of_unforwarded_marked Hrest]%IH.
    split; [done|]. intros ids [->|Hids]%elem_of_cons; auto.
Qed.

(** ** New arrivals *)

Lemma arrivals_disjoint t a : arrivals t a -> t ##ₘ a.
Proof.
  intros H. apply map_disjoint_spec. intros k x y Hx Hy.
  assert (k < k); [|lia]. apply H; eauto.
Qed.

Lemma elem_of_unforwarded_union t a r :
  t ##ₘ a ->
  r ∈ unforwarded (t ∪ a) <-> r ∈ unforwarded t \/ r ∈ unforwarded a.
Proof.
  intros Hd. rewrite !elem_of_unforwarded. split.
  - intros (s & Hl & Hf & Hc). apply lookup_union_Some in Hl; [|done].
    destruct Hl; [left|right]; eauto.
  - intros [(s & Hl & Hf & Hc)|(s & Hl & Hf & Hc)]; exists s;
      (split; [apply lookup_union_Some; auto|done]).
Qed.

(** Rows that arrive later queue up behind the pending ones. *)
Lemma pending_arrivals t a :
  arrivals t a -> pending (t ∪ a) = (pending t ++ pending a)%list.
Proof.
  intros Ha. pose proof (arrivals_disjoint _ _ Ha) as Hd.
  assert (Hlt : forall r1 r2, r1 ∈ unforwarded t -> r2 ∈ unforwarded a ->
                              radacctid r1 < radacctid r2).
  { intros r1 r2 (s1 & H1 & _)%elem_of_unforwarded
           (s2 & H2 & _)%elem_of_unforwarded.
    apply Ha; eauto. }
  apply StronglySorted_unique_strong with (R := id_le).
  - intros r1 r2 H1 H2 L1 L2.
    apply (unforwarded_inj (t ∪ a)).
    + by rewrite pending_Permutation in H1.
    + apply elem_of_unforwarded_union; [done|].
      apply elem_of_app in H2. by rewrite !pending_Permutation in H2.
    + unfold id_le in *. lia.
  - apply StronglySorted_merge_sort; apply _.
  - apply StronglySorted_app_2.
    + intros r1 r2 H1 H2. rewrite pending_Permutation in H1, H2.
      unfold id_le. specialize (Hlt r1 r2 H1 H2). lia.
    + apply StronglySorted_merge_sort; apply _.
    + apply StronglySorted_merge_sort; apply _.
  - rewrite !pending_Permutation. apply NoDup_Permutation.
    + apply NoDup_unforwarded.
    + apply NoDup_app. split_and!; try apply NoDup_unforwarded.
      intros r H1 H2. specialize (Hlt r r H1 H2). lia.
    + intros r. rewrite elem_of_app. by apply elem_of_unforwarded_union.
Qed.

(** A fetch after new arrivals starts with what it gave before them. *)
Lemma FETCH_QUERY_arrivals t a limit :
  arrivals t a -> FETCH_QUERY t limit `prefix_of` FETCH_QUERY (t ∪ a) limit.
Proof.
  intros Ha. rewrite !FETCH_QUERY_pending, pending_arrivals by done.
  rewrite take_app. by eexists.
Qed.

(** ** What each statement does to the world *)

#[global] Instance same_process_refl : Reflexive same_process.
Proof. by constructor. Qed.

#[global] Instance same_process_trans : Transitive same_process.
Proof.
  intros w1 w2 w3 [] []. constructor; congruence.
Qed.

Ltac field_cases :=
  repeat match goal with
         | |- context [match ?x with _ => _ end] => destruct x eqn:?
         end;
  simpl; try done.

Lemma deliver_quiet w : signal_in w = None -> deliver w = w.
Proof. unfold deliver. by intros ->. Qed.

Lemma deliver_same_process w : same_process w (deliver w).
Proof. unfold deliver. constructor; field_cases. Qed.

Lemma deliver_stores w :
  radacct (deliver w) = radacct w
  /\ radius_accounting (deliver w) = radius_accounting w
  /\ pg_log (deliver w) = pg_log w
  /\ pg_script (deliver w) = pg_script w
  /\ ch_script (deliver w) = ch_script w
  /\ clock_reads (deliver w) = clock_reads w.
Proof. unfold deliver. repeat split; field_cases. Qed.

(** Once cleared, [running] stays cleared. *)
Lemma deliver_running w : running w = false -> running (deliver w) = false.
Proof. unfold deliver. intros H. field_cases. Qed.

Lemma pg_execute_spec h q w r w' :
  pg_execute h q w = (r, w') ->
  same_process w w'
  /\ radacct w' = radacct w
  /\ radius_accounting w' = radius_accounting w
  /\ pg_log w' = (pg_log w ++ [(h, q)])%list
  /\ ch_script w' = ch_script w
  /\ clock_reads w' = clock_reads w.
Proof.
  unfold pg_execute.
  set (w0 := set_pg_log _ w).
  destruct (deliver_stores w0) as (D1 & D2 & D3 & D4 & D5 & D6).
  pose proof (deliver_same_process w0) as [].
  intros H.
  assert (Hw : exists s, w' = set_pg_script s (deliver w0)).
  { destruct (pg_script (deliver w0)) as [|[e|] s] eqn:Hs;
      injection H as <- <-; eauto.
    exists []. rewrite <- Hs. by destruct (deliver w0). }
  destruct Hw as [s ->]. subst w0. simpl in *.
  repeat split; simpl; congruence.
Qed.

Lemma fetch_spec h limit w r w' :
  fetch h limit w = (r, w') ->
  same_process w w'
  /\ radacct w' = radacct w
  /\ radius_accounting w' = radius_accounting w
  /\ pg_log w' = (pg_log w ++ [(h, Fetch limit)])%list
  /\ ch_script w' = ch_script w
  /\ clock_reads w' = clock_reads w
  /\ (forall rows, r = Ok rows ->
                   0 <= limit /\ rows = FETCH_QUERY (radacct w) limit).
Proof.
  unfold fetch. intros [(a & w1 & He & Hk)|(e & He & ->)]%bind_inv.
  - destruct (pg_execute_spec _ _ _ _ _ He) as (P & R & S & L & C & K).
    unfold raise, gets in Hk. destruct (limit <? 0) eqn:Hl.
    + injection Hk as <- <-. by split_and!.
    + injection Hk as <- <-. split_and!; try done.
      intros rows [= <-]. split; [lia|by rewrite R].
  - destruct (pg_execute_spec _ _ _ _ _ He) as (P & R & S & L & C & K).
    by split_and!.
Qed.

(** The fetch returns whenever the source does not fail and the batch
    size is not negative. *)
Lemma fetch_returns h limit w :
  0 <= limit -> (forall e, head (pg_script w) <> Some (Some e)) ->
  exists w', fetch h limit w = (Ok (FETCH_QUERY (radacct w) limit), w').
Proof.
  intros Hl Hs. unfold fetch. rewrite bind_run. unfold pg_execute.
  set (w0 := set_pg_log _ w).
  destruct (deliver_stores w0) as (D1 & _ & _ & D4 & _).
  assert (E : pg_script (deliver w0) = pg_script w) by (by rewrite D4).
  destruct (pg_script (deliver w0)) as [|[e|] s] eqn:Hd.
  - destruct (limit <? 0) eqn:?; [lia|]. unfold gets. rewrite D1. eauto.
  - exfalso. apply (Hs e). by rewrite <- E.
  - destruct (limit <? 0) eqn:?; [lia|]. unfold gets. simpl.
    rewrite D1. eauto.
Qed.

(** C4. A fetch that returns gives only rows whose forward flag is false
    in the table, none of them among the identifiers of any mark statement
    the table has been through, in strictly ascending order of
    [radacctid], and at most [limit] of them. It leaves the table as it
    was, so that a second fetch returns the same rows. *)
Theorem fetch_unforwarded_ascending_capped h limit w rows w' :
  fetch h limit w = (Ok rows, w') ->
  (forall r, r ∈ rows ->
             exists s, radacct w !! radacctid r = Some s
                       /\ forwarded_to_ch s = false)
  /\ (forall t idss, radacct w = foldl MARK_FORWARDED_QUERY t idss ->
                     forall r ids, r ∈ rows -> ids ∈ idss ->
                                   radacctid r ∉ ids)
  /\ StronglySorted id_lt rows
  /\ Z.of_nat (length rows) <= limit
  /\ radacct w' = radacct w
  /\ (forall h2 rows2 w2, fetch h2 limit w' = (Ok rows2, w2) -> rows2 = rows).
Proof.
  intros H.
  destruct (fetch_spec _ _ _ _ _ H) as (_ & R & _ & _ & _ & _ & Hr).
  destruct (Hr _ eq_refl) as [Hl ->]. split_and!.
  - intros r (s & Hs & Hf & _)%elem_of_FETCH_QUERY%elem_of_unforwarded. eauto.
  - intros t idss Ht r ids Hin%elem_of_FETCH_QUERY Hids. rewrite Ht in Hin.
    apply unforwarded_after_marks in Hin as [_ Hni]. by apply Hni.
  - apply FETCH_QUERY_sorted.
  - by apply FETCH_QUERY_length.
  - done.
  - intros h2 rows2 w2 H2.
    destruct (fetch_spec _ _ _ _ _ H2) as (_ & _ & _ & _ & _ & _ & Hr2).
    destruct (Hr2 _ eq_refl) as [_ ->]. by rewrite R.
Qed.

(** With a batch size of two the fetch over the sample table gives the
    identifiers 10 and 11, leaving out 7 (already forwarded) and 12
    (beyond the limit). *)
Lemma fetch_unforwarded_ascending_capped_witness :
  exists rows w',
    fetch 0%nat 2 (Sample.calm Sample.table) = (Ok rows, w')
    /\ radacctid <$> rows = [10; 11]
    /\ StronglySorted id_lt rows
    /\ Z.of_nat (length rows) <= 2.
Proof.
  eexists. eexists. split; [vm_compute; reflexivity|].
  split; [reflexivity|].
  destruct (fetch_unforwarded_ascending_capped 0%nat 2
              (Sample.calm Sample.table) _ _ eq_refl)
    as (_ & _ & Hs & Hl & _).
  split; [exact Hs|exact Hl].
Defined.

(** ** The transform loop *)

Lemma set_clock_reads_id w : set_clock_reads (clock_reads w) w = w.
Proof. by destruct w. Qed.

(** Transforming reads the clock and does nothing else to the world. *)
Lemma transform_world cfg r ev w res w' :
  transform cfg r ev w = (res, w') -> exists n, w' = set_clock_reads n w.
Proof.
  unfold transform. rewrite bind_run.
  destruct (truthy (get acctstarttime r)); simpl;
    rewrite !bind_run; unfold lift_result;
    destruct (safe_int (get acctinterval r));
    destruct (safe_int (get acctsessiontime r));
    destruct (safe_int (get acctinputoctets r));
    destruct (safe_int (get acctoutputoctets r));
    intros [= <- <-];
    first [ by eexists
          | exists (clock_reads w); by rewrite set_clock_reads_id ].
Qed.

Lemma prepare_spec cfg rows acc ids w res w' :
  prepare cfg rows acc ids w = (res, w') ->
  (exists n, w' = set_clock_reads n w)
  /\ (forall crs ids', res = Ok (crs, ids') ->
        exists new, crs = (acc ++ new)%list
                    /\ ids' = (ids ++ (radacctid <$> rows))%list
                    /\ Forall2 (transformed cfg) rows new).
Proof.
  revert acc ids w. induction rows as [|r rows IH]; intros acc ids w; simpl.
  - intros [= <- <-]. split.
    + exists (clock_reads w). by rewrite set_clock_reads_id.
    + intros crs ids' [= <- <-]. exists []. by rewrite !app_nil_r.
  - rewrite bind_run.
    destruct (transform cfg r (determine_event_type r) w) as [[c|e] w1] eqn:Ht.
    + destruct (transform_world _ _ _ _ _ _ Ht) as [n ->].
      intros (( m & -> ) & Hres)%IH. split; [by exists m|].
      intros crs ids' ->.
      destruct (Hres _ _ eq_refl) as (new & -> & -> & HF).
      exists (c :: new). rewrite <- !app_assoc. split_and!; try done.
      constructor; [|done]. by exists w, (set_clock_reads n w).
    + destruct (transform_world _ _ _ _ _ _ Ht) as [n ->].
      intros [= <- <-]. split; [by exists n|]. by intros crs ids'.
Qed.

(** The loop succeeds on rows whose counters convert. *)
Lemma prepare_total cfg rows acc ids w :
  Forall (fun r => counters_convert (fields r) = true) rows ->
  exists new n,
    prepare cfg rows acc ids w
    = (Ok ((acc ++ new)%list, (ids ++ (radacctid <$> rows))%list),
       set_clock_reads n w)
    /\ Forall2 (transformed cfg) rows new.
Proof.
  intros HF. revert acc ids w.
  induction HF as [|r rows Hr HF IH]; intros acc ids w; simpl.
  - exists [], (clock_reads w).
    by rewrite !app_nil_r, set_clock_reads_id.
  - rewrite bind_run.
    destruct (transform_total cfg r (determine_event_type r) w Hr) as [c Hc].
    rewrite Hc.
    destruct (IH (acc ++ [c])%list (ids ++ [radacctid r])%list
                 (if truthy (get acctstarttime r) then w
                  else set_clock_reads (S (clock_reads w)) w))
      as (new & n & -> & HF2).
    exists (c :: new), n. rewrite <- !app_assoc. split.
    + f_equal. by destruct (truthy (get acctstarttime r)).
    + constructor; [|done]. eexists _, _. exact Hc.
Qed.

Lemma transformed_radacctid cfg r c :
  transformed cfg r c ->
  Ch.radacctid c = radacctid r /\ Ch.event_type c = determine_event_type r.
Proof.
  intros (w & w' & H).
  destruct (transform_Ok _ _ _ _ _ _ H)
    as (_ & _ & _ & _ & _ & _ & _ & _ & E & Hev & _). done.
Qed.

Lemma transformed_ids cfg rows new :
  Forall2 (transformed cfg) rows new ->
  Ch.radacctid <$> new = radacctid <$> rows /\ length new = length rows.
Proof.
  induction 1 as [|r c rows new Hrc HF [IH1 IH2]]; [done|].
  rewrite !fmap_cons, !length_cons, IH1, IH2.
  by destruct (transformed_radacctid _ _ _ Hrc) as [-> _].
Qed.

(** ** The two writes *)

Lemma ch_insert_spec h rows w res w' :
  ch_insert h rows w = (res, w') ->
  same_process w w'
  /\ radacct w' = radacct w
  /\ pg_log w' = pg_log w
  /\ pg_script w' = pg_script w
  /\ clock_reads w' = clock_reads w
  /\ ((exists e, res = Raise e
                 /\ head (ch_script w) = Some (Some e)
                 /\ radius_accounting w' = radius_accounting w)
      \/ (res = Ok tt
          /\ (forall e, head (ch_script w) <> Some (Some e))
          /\ radius_accounting w' = (radius_accounting w ++ rows)%list)).
Proof.
  unfold ch_insert.
  destruct (deliver_stores w) as (D1 & D2 & D3 & D4 & D5 & D6).
  pose proof (deliver_same_process w) as [].
  rewrite <- D5.
  destruct (ch_script (deliver w)) as [|[e|] s] eqn:Hs;
    intros [= <- <-]; simpl; (split; [constructor; simpl; congruence|]);
    split_and!; try congruence.
  - right. split_and!; try done. congruence.
  - left. exists e. split_and!; try done.
  - right. split_and!; try done. congruence.
Qed.

Lemma mark_forwarded_spec h ids w res w' :
  mark_forwarded h ids w = (res, w') ->
  same_process w w'
  /\ radius_accounting w' = radius_accounting w
  /\ pg_log w' = (pg_log w ++ [(h, MarkForwarded ids)])%list
  /\ ch_script w' = ch_script w
  /\ clock_reads w' = clock_reads w
  /\ ((exists e, res = Raise e /\ radacct w' = radacct w)
      \/ (res = Ok tt
          /\ radacct w' = MARK_FORWARDED_QUERY (radacct w) ids)).
Proof.
  unfold mark_forwarded.
  intros [(a & w1 & He & Hk)|(e & He & ->)]%bind_inv.
  - destruct (pg_execute_spec _ _ _ _ _ He) as ([] & R & S & L & C & K).
    unfold modify in Hk. injection Hk as <- <-. simpl.
    split; [constructor; simpl; congruence|].
    split_and!; try done. right. by rewrite R.
  - destruct (pg_execute_spec _ _ _ _ _ He) as (P & R & S & L & C & K).
    split_and!; try done. left. eauto.
Qed.

(** ** The forwarding cycle *)

Lemma forward_batch_unfold cfg pg ch w :
  forward_batch cfg pg ch w
  = match fetch pg (BATCH_SIZE cfg) w with
    | (Raise e, w1) => (Raise e, w1)
    | (Ok [], w1) => (Ok 0, w1)
    | (Ok (r :: rows), w1) =>
        match prepare cfg (r :: rows) [] [] w1 with
        | (Raise e, w2) => (Raise e, w2)
        | (Ok (ch_rows, pg_ids), w2) =>
            match ch_insert ch ch_rows w2 with
            | (Raise e, w3) => (Raise e, w3)
            | (Ok _, w3) =>
                match mark_forwarded pg pg_ids w3 with
                | (Raise e, w4) => (Raise e, w4)
                | (Ok _, w4) => (Ok (Z.of_nat (length ch_rows)), w4)
                end
            end
        end
    end.
Proof.
  unfold forward_batch. rewrite bind_run.
  destruct (fetch pg (BATCH_SIZE cfg) w) as [[[|r rows]|e] w1]; try done.
  rewrite bind_run.
  by destruct (prepare cfg (r :: rows) [] [] w1)
    as [[[ch_rows pg_ids]|e] w2].
Qed.

(** Every way a cycle can end, with what it did to both stores and which
    statements it sent to the source. *)
Lemma forward_batch_outcome cfg pg ch w res w' :
  forward_batch cfg pg ch w = (res, w') ->
  let rows := FETCH_QUERY (radacct w) (BATCH_SIZE cfg) in
  same_process w w'
  /\ ((exists e, res = Raise e
                 /\ radacct w' = radacct w
                 /\ radius_accounting w' = radius_accounting w
                 /\ pg_log w' = (pg_log w ++ [(pg, Fetch (BATCH_SIZE cfg))])%list)
      \/ (res = Ok 0
          /\ rows = []
          /\ radacct w' = radacct w
          /\ radius_accounting w' = radius_accounting w
          /\ pg_log w' = (pg_log w ++ [(pg, Fetch (BATCH_SIZE cfg))])%list)
      \/ (exists ch_rows,
             rows <> []
             /\ Forall2 (transformed cfg) rows ch_rows
             /\ radius_accounting w' = (radius_accounting w ++ ch_rows)%list
             /\ pg_log w'
                = (pg_log w
                     ++ cycle_stmts pg (BATCH_SIZE cfg) (radacctid <$> rows))%list
             /\ ((exists e, res = Raise e /\ radacct w' = radacct w)
                 \/ (res = Ok (Z.of_nat (length rows))
                     /\ radacct w'
                        = MARK_FORWARDED_QUERY (radacct w)
                                               (radacctid <$> rows))))).
Proof.
  rewrite forward_batch_unfold. intros H rows.
  destruct (fetch pg (BATCH_SIZE cfg) w) as [[fetched|e] w1] eqn:Hf.
  2:{ injection H as <- <-.
      destruct (fetch_spec _ _ _ _ _ Hf) as (P & R & S & L & _).
      split; [done|]. left. by exists e. }
  destruct (fetch_spec _ _ _ _ _ Hf) as (P1 & R1 & S1 & L1 & G1 & K1 & Hr).
  destruct (Hr _ eq_refl) as [HN Hrows]. fold rows in Hrows.
  destruct fetched as [|r0 fetched0].
  { injection H as <- <-. split; [done|]. right. left. by split_and!. }
  set (fetched := r0 :: fetched0) in *.
  assert (Hne : rows <> []) by (by rewrite <- Hrows).
  destruct (prepare cfg fetched [] [] w1) as [[[ch_rows pg_ids]|e] w2] eqn:Hp.
  2:{ injection H as <- <-.
      destruct (prepare_spec _ _ _ _ _ _ _ Hp) as [[n ->] _].
      split; [by destruct P1|]. left. by exists e. }
  destruct (prepare_spec _ _ _ _ _ _ _ Hp) as [[n ->] Hres].
  destruct (Hres _ _ eq_refl) as (new & -> & -> & HF).
  rewrite !app_nil_l in H.
  destruct (ch_insert ch new (set_clock_reads n w1)) as [[[]|e] w3] eqn:Hi.
  2:{ injection H as <- <-.
      destruct (ch_insert_spec _ _ _ _ _ Hi)
        as ([] & R3 & L3 & _ & _ & [(e' & _ & _ & S3)|(? & _)]); [|done].
      simpl in *. split; [destruct P1; constructor; congruence|].
      left. exists e. split_and!; congruence. }
  destruct (ch_insert_spec _ _ _ _ _ Hi)
    as ([] & R3 & L3 & _ & _ & [(e' & ? & _)|(_ & _ & S3)]); [done|].
  revert H. simpl in * |-.
  destruct (mark_forwarded pg (radacctid <$> fetched) w3)
    as [[[]|e] w4] eqn:Hm; intros H; injection H as <- <-;
    destruct (mark_forwarded_spec _ _ _ _ _ Hm)
      as ([] & S4 & L4 & _ & _ & [(e' & He' & R4)|(He' & R4)]);
    try done;
    (split; [destruct P1; constructor; congruence|]);
    right; right; exists new; rewrite <- Hrows;
    (split_and!;
     [ done | done | congruence
     | unfold cycle_stmts; rewrite L4, L3, L1, <- app_assoc; done | ]).
  - right. destruct (transformed_ids _ _ _ HF) as [_ ->].
    split; [done|]. congruence.
  - left. exists e. split; [done|]. congruence.
Qed.

Lemma new_statements (w w' : world) (xs ys : list (handle * pg_stmt)) :
  pg_log w' = (pg_log w ++ xs)%list -> pg_log w' = (pg_log w ++ ys)%list ->
  ys = xs.
Proof. intros -> H. by apply app_inv_head in H. Qed.

(** C1. When the bulk insert of a cycle raises, the cycle ends with that
    exception, has sent the source nothing but its fetch, and leaves the
    table and so every forward flag as they were: fetching again gives the
    same rows, and after new arrivals it gives them first. And in any
    cycle at all, a mark statement is only ever sent once the sink holds
    the batch with those very identifiers. *)
Theorem write_failure_marks_nothing cfg pg ch w :
  (forall rows w1 ch_rows ids w2 e w3,
      fetch pg (BATCH_SIZE cfg) w = (Ok rows, w1) ->
      rows <> [] ->
      prepare cfg rows [] [] w1 = (Ok (ch_rows, ids), w2) ->
      ch_insert ch ch_rows w2 = (Raise e, w3) ->
      forward_batch cfg pg ch w = (Raise e, w3)
      /\ radacct w3 = radacct w
      /\ radius_accounting w3 = radius_accounting w
      /\ pg_log w3 = (pg_log w ++ [(pg, Fetch (BATCH_SIZE cfg))])%list
      /\ (forall r, r ∈ rows ->
                    exists s, radacct w3 !! radacctid r = Some s
                              /\ forwarded_to_ch s = false)
      /\ (forall h rows' w4,
             fetch h (BATCH_SIZE cfg) w3 = (Ok rows', w4) -> rows' = rows)
      /\ (forall a,
             arrivals (radacct w3) a ->
             rows `prefix_of` FETCH_QUERY (radacct w3 ∪ a) (BATCH_SIZE cfg)))
  /\ (forall res w' stmts h ids,
         forward_batch cfg pg ch w = (res, w') ->
         pg_log w' = (pg_log w ++ stmts)%list ->
         (h, MarkForwarded ids) ∈ stmts ->
         exists ch_rows,
           ch_rows <> []
           /\ radius_accounting w' = (radius_accounting w ++ ch_rows)%list
           /\ Ch.radacctid <$> ch_rows = ids).
Proof.
  split.
  - intros rows w1 ch_rows ids w2 e w3 Hf Hne Hp Hi.
    destruct (fetch_spec _ _ _ _ _ Hf) as (_ & R1 & S1 & L1 & _ & _ & Hr).
    destruct (Hr _ eq_refl) as [HN Hrows].
    destruct (prepare_spec _ _ _ _ _ _ _ Hp) as [[n ->] _].
    destruct (ch_insert_spec _ _ _ _ _ Hi)
      as (_ & R3 & L3 & _ & _ & [(e' & _ & _ & S3)|(? & _)]); [|done].
    simpl in *.
    assert (Hfb : forward_batch cfg pg ch w = (Raise e, w3)).
    { rewrite forward_batch_unfold, Hf.
      destruct rows as [|r rows]; [done|]. by rewrite Hp, Hi. }
    assert (Ht : radacct w3 = radacct w) by congruence.
    split_and!; try congruence.
    + intros r Hin. rewrite Ht. rewrite Hrows in Hin.
      apply elem_of_FETCH_QUERY, elem_of_unforwarded in Hin
        as (s & Hs & Hfl & _). eauto.
    + intros h rows' w4 Hf'.
      destruct (fetch_spec _ _ _ _ _ Hf') as (_ & _ & _ & _ & _ & _ & Hr').
      destruct (Hr' _ eq_refl) as [_ ->]. by rewrite Ht.
    + intros a Ha. rewrite Hrows, <- Ht. by apply FETCH_QUERY_arrivals.
  - intros res w' stmts h ids Hfb Hlog Hin.
    destruct (forward_batch_outcome _ _ _ _ _ _ Hfb)
      as (_ & [(e & _ & _ & _ & L)|[(_ & _ & _ & _ & L)
                 |(ch_rows & Hne & HF & S & L & _)]]).
    + rewrite (new_statements _ _ _ _ L Hlog) in Hin.
      apply list_elem_of_singleton in Hin. discriminate.
    + rewrite (new_statements _ _ _ _ L Hlog) in Hin.
      apply list_elem_of_singleton in Hin. discriminate.
    + rewrite (new_statements _ _ _ _ L Hlog) in Hin.
      unfold cycle_stmts in Hin.
      apply elem_of_cons in Hin as [Hin|Hin%list_elem_of_singleton];
        [discriminate|].
      injection Hin as -> ->.
      destruct (transformed_ids _ _ _ HF) as [Hids Hlen].
      exists ch_rows. split_and!; try done.
      intros ->. apply Hne.
      by destruct (FETCH_QUERY (radacct w) (BATCH_SIZE cfg)).
Qed.

(** The sink refuses the batch of the sessions 10 and 11: the cycle
    raises the sink's error and the next fetch returns 10 and 11 again. *)
Lemma write_failure_marks_nothing_witness :
  exists w3,
    forward_batch (Sample.cfg 2) 0%nat 1%nat (Sample.sink_down Sample.table)
    = (Raise (DriverError "sink unreachable"), w3)
    /\ radacct w3 = Sample.table
    /\ pg_log w3 = [(0%nat, Fetch 2)].
Proof.
  edestruct (proj1 (write_failure_marks_nothing (Sample.cfg 2) 0%nat 1%nat
                      (Sample.sink_down Sample.table)))
    as (Hfb & Ht & _ & Hl & _).
  - vm_compute. reflexivity.
  - discriminate.
  - vm_compute. reflexivity.
  - vm_compute. reflexivity.
  - eexists. split; [exact Hfb|]. split; [exact Ht|exact Hl].
Defined.

(** One statement on the source, by the head of its script. *)
Lemma pg_execute_head h q w :
  exists w',
    pg_execute h q w
    = (match head (pg_script w) with
       | Some (Some e) => Raise e
       | _ => Ok tt
       end, w')
    /\ pg_script w' = tail (pg_script w).
Proof.
  unfold pg_execute. set (w0 := set_pg_log _ w).
  destruct (deliver_stores w0) as (_ & _ & _ & D4 & _).
  change (pg_script w0) with (pg_script w) in D4. rewrite <- D4.
  destruct (pg_script (deliver w0)) as [|[e|] s] eqn:Hs; simpl;
    eexists; split; try done.
Qed.

(** One insert into the sink, by the head of its script. *)
Lemma ch_insert_head h rows w :
  exists w',
    ch_insert h rows w
    = (match head (ch_script w) with
       | Some (Some e) => Raise e
       | _ => Ok tt
       end, w').
Proof.
  unfold ch_insert.
  destruct (deliver_stores w) as (_ & _ & _ & _ & D5 & _). rewrite <- D5.
  destruct (ch_script (deliver w)) as [|[e|] s] eqn:Hs; simpl;
    eexists; done.
Qed.

(** C5 as stated fails. A cycle whose mark statement raises ends with an
    exception although the sink already holds the batch: not every
    exception leaves both stores as they were before the write. *)
Lemma exception_after_write_counterexample :
  ~ (forall cfg pg ch w e w',
        forward_batch cfg pg ch w = (Raise e, w') ->
        radacct w' = radacct w
        /\ radius_accounting w' = radius_accounting w).
Proof.
  intros H.
  destruct (H (Sample.cfg 2) 0%nat 1%nat (Sample.mark_fails Sample.table)
              (DriverError "connection lost")
              (forward_batch (Sample.cfg 2) 0%nat 1%nat
                 (Sample.mark_fails Sample.table)).2)
    as [_ Hs].
  - vm_compute. reflexivity.
  - vm_compute in Hs. discriminate.
Qed.

(** C5, amended. A cycle fetches first, and what each step does decides
    how it ends. An exception of the fetch, of the transform of a row, of
    the insert or of the mark comes out of the cycle as it is. An empty
    fetch makes the cycle return 0; when all four steps return, the cycle
    returns the number of fetched rows. And the cycle does return when
    the environment lets it: with the fetch answered it returns 0 on an
    empty fetch, and with rows that convert and the insert and the mark
    answered as well it returns their number. Whatever the outcome: on
    an empty fetch nothing is written or marked; a cycle that returns
    has transformed every fetched row, appended all of them to the sink
    and marked exactly their identifiers; a cycle that raises leaves the
    table and so every forward flag as before, and the sink as before
    as well, unless the exception came from the mark statement, in which
    case the sink holds the whole batch. *)
Theorem forward_batch_run cfg pg ch w :
  let limit := BATCH_SIZE cfg in
  let rows := FETCH_QUERY (radacct w) limit in
  let run := forward_batch cfg pg ch w in
  (* the steps *)
  (forall e w1, fetch pg limit w = (Raise e, w1) -> run = (Raise e, w1))
  /\ (forall w1, fetch pg limit w = (Ok [], w1) -> run = (Ok 0, w1))
  /\ (forall fetched w1,
         fetch pg limit w = (Ok fetched, w1) -> fetched <> [] ->
         fetched = rows
         /\ (forall e w2,
                prepare cfg fetched [] [] w1 = (Raise e, w2) ->
                run = (Raise e, w2))
         /\ (forall ch_rows ids w2,
                prepare cfg fetched [] [] w1 = (Ok (ch_rows, ids), w2) ->
                Forall2 (transformed cfg) rows ch_rows
                /\ ids = radacctid <$> rows
                /\ (forall e w3,
                       ch_insert ch ch_rows w2 = (Raise e, w3) ->
                       run = (Raise e, w3))
                /\ (forall w3,
                       ch_insert ch ch_rows w2 = (Ok tt, w3) ->
                       (forall e w4,
                           mark_forwarded pg ids w3 = (Raise e, w4) ->
                           run = (Raise e, w4))
                       /\ (forall w4,
                              mark_forwarded pg ids w3 = (Ok tt, w4) ->
                              run = (Ok (Z.of_nat (length rows)), w4)))))
  (* the cycle returns *)
  /\ (0 <= limit -> answers (pg_script w) 0 ->
      (rows = [] -> exists w', run = (Ok 0, w'))
      /\ (rows <> [] ->
          Forall (fun r => counters_convert (fields r) = true) rows ->
          answers (ch_script w) 0 -> answers (pg_script w) 1 ->
          exists w', run = (Ok (Z.of_nat (length rows)), w')))
  (* both stores after the cycle *)
  /\ (forall res w',
         run = (res, w') ->
         let fetched := [(pg, Fetch limit)] in
         let written ch_rows :=
           Forall2 (transformed cfg) rows ch_rows
           /\ radius_accounting w' = (radius_accounting w ++ ch_rows)%list
           /\ pg_log w'
              = (pg_log w ++ cycle_stmts pg limit (radacctid <$> rows))%list
         in
         match res with
         | Ok count =>
             count = Z.of_nat (length rows)
             /\ (rows = [] ->
                 radacct w' = radacct w
                 /\ radius_accounting w' = radius_accounting w
                 /\ pg_log w' = (pg_log w ++ fetched)%list)
             /\ (rows <> [] ->
                 radacct w'
                 = MARK_FORWARDED_QUERY (radacct w) (radacctid <$> rows)
                 /\ exists ch_rows, written ch_rows)
         | Raise e =>
             radacct w' = radacct w
             /\ ((radius_accounting w' = radius_accounting w
                  /\ pg_log w' = (pg_log w ++ fetched)%list)
                 \/ (rows <> [] /\ exists ch_rows, written ch_rows))
         end).
Proof.
  intros limit rows run. subst run limit.
  assert (Hfetched : forall fetched w1,
             fetch pg (BATCH_SIZE cfg) w = (Ok fetched, w1) ->
             0 <= BATCH_SIZE cfg /\ fetched = rows /\ radacct w1 = radacct w
             /\ pg_script w1 = tail (pg_script w)
             /\ ch_script w1 = ch_script w).
  { intros fetched w1 Hf.
    destruct (fetch_spec _ _ _ _ _ Hf) as (_ & R1 & _ & _ & C1 & _ & Hr).
    destruct (Hr _ eq_refl) as [HN ->]. split_and!; try done.
    unfold fetch in Hf. rewrite bind_run in Hf.
    destruct (pg_execute_head pg (Fetch (BATCH_SIZE cfg)) w) as (w0 & He & Hs).
    rewrite He in Hf.
    destruct (match head (pg_script w) with
              | Some (Some e) => Raise e | _ => Ok tt end) as [[]|e];
      [|discriminate Hf].
    destruct (BATCH_SIZE cfg <? 0); [discriminate Hf|].
    unfold gets in Hf. by injection Hf as _ <-. }
  split_and!.
  - intros e w1 Hf. by rewrite forward_batch_unfold, Hf.
  - intros w1 Hf. by rewrite forward_batch_unfold, Hf.
  - intros fetched w1 Hf Hne.
    destruct (Hfetched _ _ Hf) as (_ & Hrows & _).
    destruct fetched as [|r fetched0]; [done|]. split_and!; [done| |].
    + intros e w2 Hp. by rewrite forward_batch_unfold, Hf, Hp.
    + intros ch_rows ids w2 Hp.
      destruct (prepare_spec _ _ _ _ _ _ _ Hp) as [_ Hres].
      destruct (Hres _ _ eq_refl) as (new & Hch & Hids & HF).
      rewrite app_nil_l in Hch, Hids. subst ch_rows.
      destruct (transformed_ids _ _ _ HF) as [_ Hlen].
      rewrite <- Hrows. split_and!; [done|done| |].
      * intros e w3 Hi. by rewrite forward_batch_unfold, Hf, Hp, Hi.
      * intros w3 Hi. split.
        -- intros e w4 Hm. by rewrite forward_batch_unfold, Hf, Hp, Hi, Hm.
        -- intros w4 Hm.
           by rewrite forward_batch_unfold, Hf, Hp, Hi, Hm, Hlen.
  - intros HN Hpg0.
    destruct (pg_execute_head pg (Fetch (BATCH_SIZE cfg)) w) as (w1 & He & Hs1).
    assert (Hok : pg_execute pg (Fetch (BATCH_SIZE cfg)) w = (Ok tt, w1)).
    { rewrite He. specialize (Hpg0) as Hpg0'. unfold answers in Hpg0'.
      rewrite <- head_lookup in Hpg0'.
      destruct (head (pg_script w)) as [[e|]|]; [by destruct (Hpg0' e)|done..]. }
    destruct (pg_execute_spec _ _ _ _ _ Hok) as (_ & R1 & _ & _ & C1 & _).
    assert (Hf : fetch pg (BATCH_SIZE cfg) w = (Ok rows, w1)).
    { unfold fetch. rewrite bind_run, Hok.
      destruct (BATCH_SIZE cfg <? 0) eqn:Hlt; [lia|]. unfold gets. by rewrite R1. }
    split.
    + intros Hemp. exists w1. by rewrite forward_batch_unfold, Hf, Hemp.
    + intros Hne Hconv Hch0 Hpg1.
      destruct rows as [|r rows0] eqn:Hrows; [done|].
      destruct (prepare_total cfg (r :: rows0) [] [] w1 Hconv)
        as (new & n & Hp & HF).
      rewrite !app_nil_l in Hp.
      destruct (transformed_ids _ _ _ HF) as [_ Hlen].
      destruct (ch_insert_head ch new (set_clock_reads n w1)) as (w3 & Hi).
      assert (Hiok : ch_insert ch new (set_clock_reads n w1) = (Ok tt, w3)).
      { rewrite Hi. simpl. rewrite C1. unfold answers in Hch0.
        rewrite <- head_lookup in Hch0.
        destruct (head (ch_script w)) as [[e|]|]; [by destruct (Hch0 e)|done..]. }
      destruct (ch_insert_spec _ _ _ _ _ Hiok) as (_ & _ & _ & P3 & _).
      simpl in P3.
      destruct (pg_execute_head pg (MarkForwarded (radacctid <$> r :: rows0))
                  w3) as (w4 & He4 & _).
      assert (Hmok : pg_execute pg (MarkForwarded (radacctid <$> r :: rows0))
                                w3 = (Ok tt, w4)).
      { rewrite He4, P3, Hs1. unfold answers in Hpg1.
        rewrite <- lookup_tail, <- head_lookup in Hpg1.
        destruct (head (tail (pg_script w))) as [[e|]|];
          [by destruct (Hpg1 e)|done..]. }
      eexists. rewrite forward_batch_unfold, Hf, Hp, Hiok.
      unfold mark_forwarded. rewrite bind_run, Hmok. unfold modify.
      by rewrite Hlen.
  - intros res w' H fetched written.
    destruct (forward_batch_outcome _ _ _ _ _ _ H)
      as (_ & [(e & -> & R & S & L)|[(-> & Hr & R & S & L)
                 |(ch_rows & Hne & HF & S & L & [(e & -> & R)|(-> & R)])]]).
    + split; [done|]. by left.
    + fold rows in Hr. rewrite Hr. split_and!; done.
    + split; [done|]. right. split; [done|]. by exists ch_rows.
    + split_and!; [done|done|]. intros _. split; [done|]. by exists ch_rows.
Qed.

(** On the sample table with nothing failing the cycle returns 2, the
    sessions 10 and 11 written and marked; on an empty table it returns
    0; and when the mark statement fails after the sessions 10 and 11
    were written, both are in the sink and neither is marked. *)
Lemma forward_batch_run_witness :
  (exists w',
      forward_batch (Sample.cfg 2) 0%nat 1%nat (Sample.calm Sample.table)
      = (Ok 2, w')
      /\ radacct w' = MARK_FORWARDED_QUERY Sample.table [10; 11]
      /\ Ch.radacctid <$> radius_accounting w' = [10; 11])
  /\ (exists w',
         forward_batch (Sample.cfg 2) 0%nat 1%nat (Sample.calm ∅)
         = (Ok 0, w'))
  /\ (exists w',
         forward_batch (Sample.cfg 2) 0%nat 1%nat
                       (Sample.mark_fails Sample.table)
         = (Raise (DriverError "connection lost"), w')
         /\ radacct w' = Sample.table).
Proof.
  split_and!.
  - destruct (forward_batch_run (Sample.cfg 2) 0%nat 1%nat
                (Sample.calm Sample.table)) as (_ & _ & _ & Hret & Hout).
    destruct Hret as [_ Hret]; [done|intros e; discriminate|].
    destruct Hret as [w' Hrun].
    + vm_compute. discriminate.
    + apply (bool_decide_unpack _). vm_compute. exact I.
    + intros e. discriminate.
    + intros e. discriminate.
    + exists w'. split; [exact Hrun|].
      destruct (Hout _ _ Hrun) as (_ & _ & Hw).
      destruct Hw as (R & ch_rows & HF & S & _); [vm_compute; discriminate|].
      split; [exact R|].
      destruct (transformed_ids _ _ _ HF) as [Hids _].
      rewrite S, fmap_app, Hids. reflexivity.
  - destruct (forward_batch_run (Sample.cfg 2) 0%nat 1%nat (Sample.calm ∅))
      as (_ & _ & _ & Hret & _).
    destruct Hret as [Hret _]; [done|intros e; discriminate|].
    apply Hret. reflexivity.
  - eexists. split; [vm_compute; reflexivity|].
    destruct (forward_batch_run (Sample.cfg 2) 0%nat 1%nat
                (Sample.mark_fails Sample.table)) as (_ & _ & _ & _ & Hout).
    exact (proj1 (Hout (Raise (DriverError "connection lost")) _ eq_refl)).
Defined.

(** C9. Whenever a cycle sends a mark statement, its identifier list is,
    element by element, the list of [radacctid] of the rows the same cycle
    appended to the sink, which is the list of identifiers of the fetched
    rows, one sink row per fetched row. Whatever the outcome, a row whose
    identifier is not among the fetched ones is left as it was. *)
Theorem marked_ids_are_written_ids cfg pg ch w res w' :
  forward_batch cfg pg ch w = (res, w') ->
  let rows := FETCH_QUERY (radacct w) (BATCH_SIZE cfg) in
  (forall stmts h ids,
      pg_log w' = (pg_log w ++ stmts)%list ->
      (h, MarkForwarded ids) ∈ stmts ->
      rows <> []
      /\ exists ch_rows,
          radius_accounting w' = (radius_accounting w ++ ch_rows)%list
          /\ ids = Ch.radacctid <$> ch_rows
          /\ ids = radacctid <$> rows
          /\ length ch_rows = length rows)
  /\ (forall k, k ∉ radacctid <$> rows -> radacct w' !! k = radacct w !! k).
Proof.
  intros H rows.
  destruct (forward_batch_outcome _ _ _ _ _ _ H)
    as (_ & [(e & _ & R & _ & L)|[(_ & _ & R & _ & L)
               |(ch_rows & Hne & HF & S & L & Hm)]]).
  - split; [|by rewrite R]. intros stmts h ids Hlog Hin.
    rewrite (new_statements _ _ _ _ L Hlog) in Hin.
    apply list_elem_of_singleton in Hin. discriminate.
  - split; [|by rewrite R]. intros stmts h ids Hlog Hin.
    rewrite (new_statements _ _ _ _ L Hlog) in Hin.
    apply list_elem_of_singleton in Hin. discriminate.
  - destruct (transformed_ids _ _ _ HF) as [Hids Hlen]. split.
    + intros stmts h ids Hlog Hin.
      rewrite (new_statements _ _ _ _ L Hlog) in Hin.
      unfold cycle_stmts in Hin.
      apply elem_of_cons in Hin as [Hin|Hin%list_elem_of_singleton];
        [discriminate|].
      injection Hin as -> ->. split; [done|].
      exists ch_rows. by split_and!.
    + intros k Hk. destruct Hm as [(e & _ & ->)|(_ & ->)]; [done|].
      rewrite lookup_MARK_FORWARDED_QUERY.
      rewrite bool_decide_eq_false_2 by done.
      by destruct (radacct w !! k).
Qed.

(** The calm cycle over the sample table with a batch size of two marks
    [10; 11], the identifiers of the two rows it wrote, and leaves the
    row 12 pending. *)
Lemma marked_ids_are_written_ids_witness :
  exists w',
    forward_batch (Sample.cfg 2) 0%nat 1%nat (Sample.calm Sample.table)
    = (Ok 2, w')
    /\ (exists ch_rows,
           radius_accounting w' = ch_rows
           /\ [10; 11] = Ch.radacctid <$> ch_rows)
    /\ radacct w' !! 12 = Some (Stored Sample.stopped false).
Proof.
  eexists. split; [vm_compute; reflexivity|].
  destruct (marked_ids_are_written_ids (Sample.cfg 2) 0%nat 1%nat
              (Sample.calm Sample.table) (Ok 2) _ eq_refl)
    as [Hm Hk].
  split.
  - destruct (Hm [(0%nat, Fetch 2); (0%nat, MarkForwarded [10; 11])]
                0%nat [10; 11] eq_refl)
      as (_ & ch_rows & Hs & Hids & _).
    + apply list_elem_of_In. simpl. auto.
    + exists ch_rows. split; [exact Hs|exact Hids].
  - transitivity (radacct (Sample.calm Sample.table) !! 12);
      [|vm_compute; reflexivity].
    apply (Hk 12).
    intros Hin%list_elem_of_In. vm_compute in Hin. intuition discriminate.
Defined.

(** ** Connection supervisors *)

(** A failed attempt and the sleep after it are two blocking calls. *)
Lemma shutdown_by_after_retry n w :
  running w = true ->
  shutdown_by n (sleep 5 (deliver w)) <-> shutdown_by (n + 2) w.
Proof.
  intros Hr. unfold shutdown_by, sleep, deliver.
  destruct w as [run m t lg sk ps cs pc cc sig ck cr sl nh]. simpl in *.
  subst run. destruct sig as [[|[|k]]|]; simpl.
  - split; intros _; [right; exists 0%nat; split; [done|lia]|by left].
  - split; intros _; [right; exists 1%nat; split; [done|lia]|by left].
  - split; (intros [?|(j & [= <-] & Hj)]; [done|]);
      right; eexists; (split; [done|lia]).
  - split; by intros [?|(j & ? & _)].
Qed.

Lemma slept_after_retry w : slept (sleep 5 (deliver w)) = slept w + 5.
Proof.
  unfold sleep, deliver.
  destruct w as [run m t lg sk ps cs pc cc sig ck cr sl nh]. simpl.
  by destruct sig as [[|[|k]]|].
Qed.

Lemma shutdown_by_eq n m w : n = m -> shutdown_by n w -> shutdown_by m w.
Proof. by intros ->. Qed.

(** The retry loop, attempt by attempt: with [k] failed attempts ahead of
    the first successful one, it returns a connection after sleeping
    [5 * k] seconds unless the flag is set by one of the [k + 1] loop
    tests, and then it raises its [RuntimeError]. *)
Lemma connect_loop_spec msg script w :
  let k := leading_failures script in
  match connect_loop msg script w with
  | (Ok h, script', w') =>
      ~ shutdown_by (2 * k) w
      /\ script' = drop (S k) script
      /\ slept w' = slept w + 5 * Z.of_nat k
      /\ (signal_in w = None -> running w' = true /\ signal_in w' = None)
  | (Raise e, script', w') =>
      shutdown_by (2 * k) w
      /\ e = RuntimeError msg
      /\ running w' = false
      /\ exists j, (j <= k)%nat /\ script' = drop j script
                   /\ slept w' = slept w + 5 * Z.of_nat j
  end.
Proof.
  assert (Hstop : forall w s, running w = false ->
            shutdown_by (2 * leading_failures s) w
            /\ RuntimeError msg = RuntimeError msg
            /\ running w = false
            /\ exists j, (j <= leading_failures s)%nat /\ s = drop j s
                         /\ slept w = slept w + 5 * Z.of_nat j).
  { intros w0 s Hr. split_and!; try done; [by left|].
    exists 0%nat. split_and!; [lia|done|lia]. }
  assert (Hgo : forall w (s : list (option exn)), running w = true ->
            ~ shutdown_by (2 * 0) w
            /\ slept (set_next_handle (S (next_handle (deliver w))) (deliver w))
               = slept w + 5 * Z.of_nat 0
            /\ (signal_in w = None ->
                running (set_next_handle (S (next_handle (deliver w)))
                                         (deliver w)) = true
                /\ signal_in (set_next_handle (S (next_handle (deliver w)))
                                              (deliver w)) = None)).
  { intros w0 s Hr.
    pose proof (sp_slept _ _ (deliver_same_process w0)) as Hsl.
    split_and!.
    - intros [?|(m & _ & ?)]; [congruence|lia].
    - simpl. lia.
    - intros Hq. rewrite (deliver_quiet _ Hq). done. }
  revert w. induction script as [|[e|] script IH]; intros w; simpl.
  - destruct (running w) eqn:Hr; [|exact (Hstop w [] Hr)].
    destruct (Hgo w [] Hr) as (H1 & H2 & H3). by split_and!.
  - destruct (running w) eqn:Hr; [|exact (Hstop w (Some e :: script) Hr)].
    specialize (IH (sleep 5 (deliver w))).
    destruct (connect_loop msg script (sleep 5 (deliver w)))
      as [[[h|e'] script'] w'].
    + destruct IH as (Hn & -> & Hs & Hq). split_and!; [|done| |].
      * intros Hsd. apply Hn. apply shutdown_by_after_retry; [done|].
        eapply shutdown_by_eq; [|exact Hsd]. lia.
      * rewrite Hs, slept_after_retry. lia.
      * intros Hsig. apply Hq. unfold sleep.
        rewrite (deliver_quiet w Hsig). by rewrite deliver_quiet.
    + destruct IH as (Hsd & -> & Hrun & j & Hj & -> & Hs).
      split_and!; try done.
      * apply shutdown_by_after_retry in Hsd; [|done].
        eapply shutdown_by_eq; [|exact Hsd]. lia.
      * exists (S j). split_and!; [lia|done|].
        rewrite Hs, slept_after_retry. lia.
  - destruct (running w) eqn:Hr; [|exact (Hstop w (None :: script) Hr)].
    destruct (Hgo w script Hr) as (H1 & H2 & H3). by split_and!.
Qed.

Lemma connect_retries (msg : string) (connect : M handle)
      (script : world -> list (option exn))
      (set_script : list (option exn) -> world -> world) :
  (forall w, connect w
             = let '(r, s, w') := connect_loop msg (script w) w in
               (r, set_script s w')) ->
  (forall s w, script (set_script s w) = s
               /\ running (set_script s w) = running w
               /\ slept (set_script s w) = slept w) ->
  retries_until_shutdown connect script msg.
Proof.
  intros Hdef Hset w k. rewrite Hdef.
  pose proof (connect_loop_spec msg (script w) w) as Hspec. fold k in Hspec.
  destruct (connect_loop msg (script w) w) as [[[h|e] s] w1].
  - destruct Hspec as (Hn & -> & Hs & Hq).
    destruct (Hset (drop (S k) (script w)) w1) as (E1 & E2 & E3).
    split_and!.
    + split; [by intros (e & w' & [=])|done].
    + by intros e w' [=].
    + intros h' w' [= <- <-]. split; congruence.
    + intros Hr Hsig. destruct (Hq Hsig) as [Hr' _].
      eexists _, _. split; [done|]. congruence.
  - destruct Hspec as (Hsd & -> & Hr & j & Hj & -> & Hs).
    destruct (Hset (drop j (script w)) w1) as (F1 & F2 & F3).
    split_and!.
    + split; [done|]. intros _. eauto.
    + intros e w' [= <- <-]. split_and!; [done|congruence|].
      exists j. split_and!; [done|done|congruence].
    + by intros h w' [=].
    + intros Hr' Hsig. exfalso.
      destruct Hsd as [?|(m & ? & _)]; congruence.
Qed.

(** C8. [connect_postgres] and [connect_clickhouse] both retry every
    five seconds until shutdown: they sleep five seconds after each failed
    attempt, they raise their [RuntimeError] exactly when the shutdown
    flag is found set at a loop test, and while the flag stays unset no
    number of failed attempts keeps them from returning a connection. *)
Theorem connect_retries_until_shutdown :
  retries_until_shutdown connect_postgres pg_connects
    "Shutting down, could not connect to PostgreSQL"
  /\ retries_until_shutdown connect_clickhouse ch_connects
       "Shutting down, could not connect to ClickHouse".
Proof.
  split.
  - apply (connect_retries _ connect_postgres pg_connects set_pg_connects);
      [reflexivity|by intros s w].
  - apply (connect_retries _ connect_clickhouse ch_connects set_ch_connects);
      [reflexivity|by intros s w].
Qed.

(** Three refused attempts and no signal: the source connection comes
    after fifteen seconds of sleep. With the signal falling into the
    fourth blocking call (the second sleep), the sink supervisor gives up
    at its third loop test, after ten seconds. *)
Lemma connect_retries_until_shutdown_witness :
  (exists h w',
      connect_postgres (Sample.source_refusing None) = (Ok h, w')
      /\ slept w' = 15)
  /\ (exists w',
         connect_clickhouse (Sample.sink_refusing (Some 3%nat))
         = (Raise (RuntimeError
                     "Shutting down, could not connect to ClickHouse"), w')
         /\ running w' = false).
Proof.
  split.
  - destruct (proj1 connect_retries_until_shutdown
                    (Sample.source_refusing None))
      as (_ & _ & Hok & Hgo).
    destruct (Hgo eq_refl eq_refl) as (h & w' & H & _).
    exists h, w'. split; [exact H|].
    exact (proj2 (Hok h w' H)).
  - destruct (proj2 connect_retries_until_shutdown
                    (Sample.sink_refusing (Some 3%nat)))
      as (Hiff & Hraise & _).
    destruct (proj2 Hiff) as (e & w' & H).
    + right. exists 3%nat. split; [reflexivity|]. simpl. lia.
    + destruct (Hraise e w' H) as (-> & Hr & _).
      exists w'. split; [exact H|exact Hr].
Defined.

(** ** Error handlers of the main loop *)

Lemma drain_S cfg fuel l total w :
  drain cfg (S fuel) l total w
  = if running w then
      match forward_batch cfg (pg_conn l) (ch_client l) w with
      | (Raise e, w1) => Some (Raise e, w1)
      | (Ok count, w1) =>
          if count =? 0 then Some (Ok total, w1)
          else drain cfg fuel l (total + count) (count_forwarded count w1).2
      end
    else Some (Ok total, w).
Proof. reflexivity. Qed.


Lemma sleep_frame secs w :
  metrics (sleep secs w) = metrics w
  /\ pg_connects (sleep secs w) = pg_connects w
  /\ ch_connects (sleep secs w) = ch_connects w
  /\ radacct (sleep secs w) = radacct w
  /\ radius_accounting (sleep secs w) = radius_accounting w
  /\ pg_log (sleep secs w) = pg_log w.
Proof.
  unfold sleep. set (w0 := set_slept _ w).
  destruct (deliver_same_process w0) as [].
  destruct (deliver_stores w0) as (? & ? & ? & _).
  by split_and!.
Qed.

(** Acquiring a connection touches neither store nor the metrics, and
    consumes no attempt of the other store. *)
Lemma connect_loop_frame msg script w :
  let w' := (connect_loop msg script w).2 in
  metrics w' = metrics w
  /\ pg_connects w' = pg_connects w
  /\ ch_connects w' = ch_connects w
  /\ radacct w' = radacct w
  /\ radius_accounting w' = radius_accounting w
  /\ pg_log w' = pg_log w.
Proof.
  revert w. induction script as [|[e|] script IH]; intros w; simpl;
    destruct (running w); simpl; try done;
    destruct (deliver_same_process w) as [];
    destruct (deliver_stores w) as (? & ? & ? & _).
  - by split_and!.
  - destruct (IH (sleep 5 (deliver w))) as (I1 & I2 & I3 & I4 & I5 & I6).
    destruct (sleep_frame 5 (deliver w)) as (S1 & S2 & S3 & S4 & S5 & S6).
    split_and!; congruence.
  - by split_and!.
Qed.

Lemma connect_clickhouse_frame w :
  let w' := (connect_clickhouse w).2 in
  metrics w' = metrics w /\ pg_connects w' = pg_connects w
  /\ radacct w' = radacct w /\ radius_accounting w' = radius_accounting w.
Proof.
  unfold connect_clickhouse.
  pose proof (connect_loop_frame
                "Shutting down, could not connect to ClickHouse"
                (ch_connects w) w) as (F1 & F2 & _ & F4 & F5 & _).
  destruct (connect_loop _ (ch_connects w) w) as [[r s] w1]. simpl in *.
  by split_and!.
Qed.

Lemma count_forwarded_frame count w :
  let w' := (count_forwarded count w).2 in
  pg_connects w' = pg_connects w
  /\ radacct w' = radacct w
  /\ radius_accounting w' = radius_accounting w
  /\ running w' = running w
  /\ signal_in w' = signal_in w
  /\ pg_script w' = pg_script w
  /\ ch_script w' = ch_script w
  /\ pg_log w' = pg_log w
  /\ total_batches (metrics w') = total_batches (metrics w) + 1
  /\ total_forwarded (metrics w') = total_forwarded (metrics w) + count
  /\ total_errors (metrics w') = total_errors (metrics w).
Proof. by split_and!. Qed.

Lemma connect_postgres_frame w :
  let w' := (connect_postgres w).2 in
  metrics w' = metrics w /\ ch_connects w' = ch_connects w
  /\ radacct w' = radacct w /\ radius_accounting w' = radius_accounting w.
Proof.
  unfold connect_postgres.
  pose proof (connect_loop_frame
                "Shutting down, could not connect to PostgreSQL"
                (pg_connects w) w) as (F1 & _ & F3 & F4 & F5 & _).
  destruct (connect_loop _ (pg_connects w) w) as [[r s] w1]. simpl in *.
  by split_and!.
Qed.

(** Both handlers count the error exactly once: nothing they do after
    [metrics["total_errors"] += 1] touches the metrics. *)
Lemma notify_counts_error_once cfg l w e w1 :
  forward_batch cfg (pg_conn l) (ch_client l) w = (Raise e, w1) ->
  total_errors (metrics (on_notify cfg l w).2)
  = total_errors (metrics w) + 1.
Proof.
  intros Hfb. unfold on_notify. rewrite bind_run, Hfb.
  destruct (forward_batch_outcome _ _ _ _ _ _ Hfb) as [[M _ _ _ _ _] _].
  destruct (connect_clickhouse_frame (count_error w1)) as (F & _).
  destruct (connect_clickhouse (count_error w1)) as [[c|e'] w2];
    simpl in *; rewrite F; simpl; by rewrite M.
Qed.

Lemma poll_reconnect_metrics l w : metrics (poll_reconnect l w).2 = metrics w.
Proof.
  unfold poll_reconnect.
  destruct (connect_postgres_frame w) as (F1 & _).
  destruct (connect_postgres w) as [[c|e] w1]; simpl in *.
  - destruct (pg_execute c Listen w1) as [[[]|e] w2] eqn:Hl;
      destruct (pg_execute_spec _ _ _ _ _ Hl) as ([M _ _ _ _ _] & _).
    + destruct (connect_clickhouse_frame w2) as (F2 & _).
      destruct (connect_clickhouse w2) as [[c'|e] w3]; simpl in *.
      * congruence.
      * destruct (sleep_frame 10 w3) as (S1 & _). congruence.
    + simpl. destruct (sleep_frame 10 w2) as (S1 & _). congruence.
  - destruct (sleep_frame 10 w1) as (S1 & _). congruence.
Qed.

Lemma drain_errors cfg l fuel total w res w' :
  drain cfg fuel l total w = Some (res, w') ->
  total_errors (metrics w') = total_errors (metrics w).
Proof.
  revert total w. induction fuel as [|fuel IH]; intros total w; [done|].
  rewrite drain_S. destruct (running w); [|by intros [= _ <-]].
  destruct (forward_batch cfg (pg_conn l) (ch_client l) w)
    as [[count|e] w1] eqn:Hfb;
    destruct (forward_batch_outcome _ _ _ _ _ _ Hfb) as [[M _ _ _ _ _] _].
  - destruct (count =? 0); [intros [= _ <-]; by rewrite M|].
    intros ->%IH.
    destruct (count_forwarded_frame count w1)
      as (_ & _ & _ & _ & _ & _ & _ & _ & _ & _ & ->).
    by rewrite M.
  - intros [= _ <-]. by rewrite M.
Qed.

Lemma poll_counts_error_once cfg l w e w1 :
  drain cfg (drain_fuel w) l 0 w = Some (Raise e, w1) ->
  poll_cycle cfg l w = Some (poll_reconnect l (count_error w1))
  /\ total_errors (metrics (poll_reconnect l (count_error w1)).2)
     = total_errors (metrics w) + 1.
Proof.
  intros Hd. unfold poll_cycle. rewrite Hd. split; [done|].
  rewrite poll_reconnect_metrics. simpl.
  by rewrite (drain_errors _ _ _ _ _ _ _ Hd).
Qed.

(** C7, as the code has it. The handler of the notification path never
    reconnects the source: whatever happens, [pg_conn] stays bound to the
    same connection and no connection attempt to the source is made. When
    the fetch of a notification-triggered cycle fails on the source, the
    error is counted once and only the sink client is replaced; the
    handler of the poll path, on the same failure, replaces both. *)
Theorem notify_failure_never_reconnects_source :
  (forall cfg l w,
      pg_conn (on_notify cfg l w).1 = pg_conn l
      /\ pg_connects (on_notify cfg l w).2 = pg_connects w)
  /\ (let lw := on_notify (Sample.cfg 2) Sample.main_locals
                          (Sample.source_down Sample.table) in
      total_errors (metrics lw.2) = 1
      /\ lw.1 = {| pg_conn := 0%nat; ch_client := 2%nat |}
      /\ pg_log lw.2 = [(0%nat, Fetch 2)])
  /\ (exists w',
         poll_cycle (Sample.cfg 2) Sample.main_locals
                    (Sample.source_down Sample.table)
         = Some ({| pg_conn := 2%nat; ch_client := 3%nat |}, w')
         /\ total_errors (metrics w') = 1).
Proof.
  split_and!.
  - intros cfg l w. unfold on_notify. rewrite bind_run.
    destruct (forward_batch cfg (pg_conn l) (ch_client l) w)
      as [[count|e] w1] eqn:Hfb;
      destruct (forward_batch_outcome _ _ _ _ _ _ Hfb) as [[] _].
    + destruct (0 <? count).
      * destruct (count_forwarded_frame count w1) as (F & _).
        destruct (count_forwarded count w1) as [[[]|e] w2] eqn:Hc;
          simpl in F |- *; [split; [done|congruence]|].
        discriminate Hc.
      * simpl. split; [done|congruence].
    + destruct (connect_clickhouse_frame (count_error w1)) as (_ & F & _).
      destruct (connect_clickhouse (count_error w1)) as [[c|e'] w2];
        simpl in *; (split; [done|congruence]).
  - vm_compute. done.
  - eexists. split; [vm_compute; reflexivity|]. reflexivity.
Qed.

(** ** Cycles in a quiet world *)

Lemma pg_execute_quiet h q w :
  quiet w -> exists w', pg_execute h q w = (Ok tt, w') /\ quiet w'
                        /\ radacct w' = radacct w.
Proof.
  intros [Hr Hs Hp Hc]. unfold pg_execute. rewrite deliver_quiet by done.
  simpl. destruct (pg_script w) as [|o s] eqn:Hps.
  - eexists. split; [done|]. split; [|done]. constructor; simpl; try done.
    by rewrite Hps.
  - apply Forall_cons in Hp as [-> Hp]. eexists. split; [done|].
    split; [|done]. by constructor.
Qed.

Lemma fetch_quiet h limit w :
  quiet w -> 0 <= limit ->
  exists w', fetch h limit w = (Ok (FETCH_QUERY (radacct w) limit), w')
             /\ quiet w'.
Proof.
  intros Hq Hl. unfold fetch. rewrite bind_run.
  destruct (pg_execute_quiet h (Fetch limit) w Hq) as (w' & -> & Hq' & R).
  destruct (limit <? 0) eqn:Hlt; [lia|]. unfold gets. rewrite R. eauto.
Qed.

Lemma mark_forwarded_quiet h ids w :
  quiet w -> exists w', mark_forwarded h ids w = (Ok tt, w') /\ quiet w'.
Proof.
  intros Hq. unfold mark_forwarded. rewrite bind_run.
  destruct (pg_execute_quiet h (MarkForwarded ids) w Hq)
    as (w' & -> & [] & _).
  unfold modify. eexists. split; [done|]. by constructor.
Qed.

Lemma ch_insert_quiet h rows w :
  quiet w -> exists w', ch_insert h rows w = (Ok tt, w') /\ quiet w'.
Proof.
  intros [Hr Hs Hp Hc]. unfold ch_insert. rewrite deliver_quiet by done.
  destruct (ch_script w) as [|o s] eqn:Hcs.
  - eexists. split; [done|]. constructor; simpl; try done. by rewrite Hcs.
  - apply Forall_cons in Hc as [-> Hc]. eexists. split; [done|].
    by constructor.
Qed.

(** In a quiet world whose pending rows convert, a cycle returns the
    number of rows it fetched and leaves the world quiet. *)
Lemma forward_batch_quiet cfg pg ch w :
  quiet w -> pending_convert (radacct w) -> 0 <= BATCH_SIZE cfg ->
  exists w',
    forward_batch cfg pg ch w
    = (Ok (Z.of_nat (length (FETCH_QUERY (radacct w) (BATCH_SIZE cfg)))), w')
    /\ quiet w'.
Proof.
  intros Hq Hconv HN. rewrite forward_batch_unfold.
  destruct (fetch_quiet pg (BATCH_SIZE cfg) w Hq HN) as (w1 & -> & Hq1).
  assert (Hrows : Forall (fun r => counters_convert (fields r) = true)
                         (FETCH_QUERY (radacct w) (BATCH_SIZE cfg))).
  { rewrite FETCH_QUERY_pending. by apply Forall_take, pending_convert_rows. }
  destruct (FETCH_QUERY (radacct w) (BATCH_SIZE cfg)) as [|r rows] eqn:Hf.
  { by exists w1. }
  destruct (prepare_total cfg (r :: rows) [] [] w1 Hrows)
    as (new & n & -> & HF).
  rewrite !app_nil_l.
  assert (Hq2 : quiet (set_clock_reads n w1)) by (destruct Hq1; by constructor).
  destruct (ch_insert_quiet ch new _ Hq2) as (w3 & -> & Hq3).
  destruct (mark_forwarded_quiet pg (radacctid <$> r :: rows) _ Hq3)
    as (w4 & -> & Hq4).
  exists w4. split; [|done].
  by destruct (transformed_ids _ _ _ HF) as [_ ->].
Qed.

Lemma count_forwarded_quiet count w :
  quiet w -> quiet (count_forwarded count w).2.
Proof. intros []. by constructor. Qed.

Lemma ceil_div_step (p n : Z) :
  0 < n -> 0 < p -> ceil_div p n = 1 + ceil_div (p - Z.min n p) n.
Proof.
  intros Hn Hp. unfold ceil_div.
  destruct (Z.le_gt_cases n p) as [Hle|Hgt].
  - rewrite Z.min_l by done.
    replace (p + n - 1) with ((p - n + n - 1) + 1 * n) by lia.
    rewrite Z.div_add by lia. lia.
  - rewrite Z.min_r by lia.
    replace (p - p + n - 1) with (n - 1) by lia.
    rewrite (Z.div_small (n - 1)) by lia.
    replace (p + n - 1) with ((p - 1) + 1 * n) by lia.
    rewrite Z.div_add by lia. rewrite Z.div_small by lia. done.
Qed.

Lemma ceil_div_0 n : 0 < n -> ceil_div 0 n = 0.
Proof. intros Hn. unfold ceil_div. apply Z.div_small. lia. Qed.

Lemma ceil_div_quot_rem k n r :
  0 <= r < n -> ceil_div (k * n + r) n = k + (if r =? 0 then 0 else 1).
Proof.
  intros Hr. unfold ceil_div.
  destruct (r =? 0) eqn:E.
  - apply Z.eqb_eq in E as ->.
    replace (k * n + 0 + n - 1) with ((n - 1) + k * n) by lia.
    rewrite Z.div_add by lia. rewrite Z.div_small by lia. lia.
  - apply Z.eqb_neq in E.
    replace (k * n + r + n - 1) with ((r - 1) + (k + 1) * n) by lia.
    rewrite Z.div_add by lia. rewrite Z.div_small by lia. lia.
Qed.

(** ** Poll draining *)

(** The drain loop in a quiet world, by induction on the iterations
    left: one non-empty cycle per batch of pending identifiers, then the
    empty cycle that ends the loop. *)
Lemma drain_quiet cfg l :
  0 < BATCH_SIZE cfg ->
  forall fuel total w,
    quiet w -> pending_convert (radacct w) ->
    (length (pending (radacct w)) < fuel)%nat ->
    exists w' batches,
      drain cfg fuel l total w
      = Some (Ok (total + Z.of_nat (length (pending (radacct w)))), w')
      /\ concat batches = radacctid <$> pending (radacct w)
      /\ Forall (fun b => b <> [] /\ Z.of_nat (length b) <= BATCH_SIZE cfg)
                batches
      /\ Z.of_nat (length batches)
         = ceil_div (Z.of_nat (length (pending (radacct w)))) (BATCH_SIZE cfg)
      /\ pg_log w'
         = (pg_log w
              ++ concat (cycle_stmts (pg_conn l) (BATCH_SIZE cfg) <$> batches)
              ++ [(pg_conn l, Fetch (BATCH_SIZE cfg))])%list
      /\ total_batches (metrics w')
         = total_batches (metrics w) + Z.of_nat (length batches)
      /\ total_forwarded (metrics w')
         = total_forwarded (metrics w)
           + Z.of_nat (length (pending (radacct w)))
      /\ total_errors (metrics w') = total_errors (metrics w)
      /\ pending (radacct w') = []
      /\ Ch.radacctid <$> radius_accounting w'
         = ((Ch.radacctid <$> radius_accounting w)
              ++ (radacctid <$> pending (radacct w)))%list.
Proof.
  intros HN. induction fuel as [|fuel IH]; intros total w Hq Hconv Hfuel;
    [lia|].
  rewrite drain_S, (q_running _ Hq).
  destruct (forward_batch_quiet cfg (pg_conn l) (ch_client l) w Hq Hconv)
    as (w1 & Hfb & Hq1); [lia|].
  rewrite Hfb.
  destruct (forward_batch_outcome _ _ _ _ _ _ Hfb) as [Hsp Hout].
  rewrite FETCH_QUERY_pending in Hout |- *.
  set (n := Z.to_nat (BATCH_SIZE cfg)) in *.
  assert (Hn : (1 <= n)%nat) by lia.
  destruct (pending (radacct w)) as [|r0 rest] eqn:Hpend.
  - (* nothing pending: the first cycle is the empty one *)
    rewrite take_nil in Hout |- *. simpl.
    destruct Hout as [(e & ? & _)|[(_ & _ & R & S & L)
                                   |(? & Hne & _)]]; [done| |done].
    exists w1, []. destruct Hsp as [M _ _ _ _ _].
    split_and!; simpl; try done.
    + by rewrite Z.add_0_r.
    + by rewrite ceil_div_0.
    + rewrite M. lia.
    + rewrite M. lia.
    + by rewrite M.
    + by rewrite R, Hpend.
    + by rewrite S, app_nil_r.
  - (* a batch is forwarded, then the loop goes on with the rest *)
    set (pend := r0 :: rest) in *.
    assert (Hlen : length (take n pend) = Nat.min n (length pend))
      by apply length_take.
    assert (Hpos : (0 < length pend)%nat) by (simpl; lia).
    destruct (Z.of_nat (length (take n pend)) =? 0) eqn:Hz;
      [apply Z.eqb_eq in Hz; lia|].
    destruct Hout as [(e & ? & _)|[(_ & Hemp & _)
                       |(ch_rows & Hne & HF & S & L & [(e & ? & _)|(_ & R)])]];
      [done| |done|].
    { exfalso. apply (f_equal length) in Hemp. simpl in Hemp. lia. }
    destruct (count_forwarded_frame (Z.of_nat (length (take n pend))) w1)
      as (_ & G2 & G3 & _ & _ & _ & _ & G8 & G9 & G10 & G11).
    pose proof (count_forwarded_quiet (Z.of_nat (length (take n pend))) w1 Hq1)
      as Hq2.
    set (w2 := (count_forwarded (Z.of_nat (length (take n pend))) w1).2) in *.
    assert (Hpend2 : pending (radacct w2) = drop n pend).
    { rewrite G2, R, <- Hpend. apply pending_after_mark. }
    destruct (IH (total + Z.of_nat (length (take n pend))) w2 Hq2)
      as (w' & batches & Hd & Hcat & Hall & Hcnt & Hlog & Hb & Hf & He
          & Hdone & Hsink).
    { rewrite G2, R. by apply pending_convert_marked. }
    { rewrite Hpend2, length_drop. lia. }
    rewrite Hpend2 in Hd, Hcat, Hcnt, Hf, Hsink.
    rewrite length_drop in Hd, Hcnt, Hf.
    destruct (transformed_ids _ _ _ HF) as [Hids _].
    destruct Hsp as [M _ _ _ _ _].
    exists w', ((radacctid <$> take n pend) :: batches).
    split_and!.
    + rewrite Hd. do 3 f_equal. lia.
    + simpl. rewrite Hcat, <- fmap_app. by rewrite take_drop.
    + constructor; [|done]. split.
      * intros Hnil%(f_equal length). rewrite length_fmap in Hnil.
        simpl in Hnil. lia.
      * rewrite length_fmap. lia.
    + rewrite length_cons, Nat2Z.inj_succ, Hcnt.
      rewrite (ceil_div_step (Z.of_nat (length pend))) by lia.
      replace (Z.of_nat (length pend - n))
        with (Z.of_nat (length pend)
              - Z.min (BATCH_SIZE cfg) (Z.of_nat (length pend))) by lia.
      lia.
    + rewrite Hlog, G8, L. rewrite fmap_cons. simpl concat.
      by rewrite <- !app_assoc.
    + rewrite Hb, G9, M. rewrite length_cons. lia.
    + rewrite Hf, G10, M. lia.
    + congruence.
    + done.
    + rewrite Hsink, G3, S, fmap_app, Hids, <- app_assoc, <- fmap_app.
      by rewrite take_drop.
Qed.

(** The drain loop always ends within [drain_fuel] iterations, whatever
    fails and whenever the signal comes: an iteration that goes on has
    marked at least one pending row. *)
Lemma drain_terminates cfg l fuel total w :
  (length (pending (radacct w)) < fuel)%nat ->
  is_Some (drain cfg fuel l total w).
Proof.
  revert total w. induction fuel as [|fuel IH]; intros total w Hfuel; [lia|].
  rewrite drain_S. destruct (running w); [|done].
  destruct (forward_batch cfg (pg_conn l) (ch_client l) w)
    as [[count|e] w1] eqn:Hfb; [|done].
  destruct (count =? 0) eqn:Hz; [done|]. apply Z.eqb_neq in Hz.
  apply IH.
  destruct (count_forwarded_frame count w1) as (_ & -> & _).
  destruct (forward_batch_outcome _ _ _ _ _ _ Hfb)
    as (_ & [(e & ? & _)|[([= ?] & _)
             |(ch_rows & Hne & _ & _ & _ & [(e & ? & _)|(_ & ->)])]]);
    try done.
  rewrite FETCH_QUERY_pending in Hne |- *.
  rewrite pending_after_mark, length_drop.
  destruct (Z.to_nat (BATCH_SIZE cfg)) as [|n]; [by rewrite take_0 in Hne|].
  destruct (pending (radacct w)); [done|]. simpl in *. lia.
Qed.

Lemma poll_cycle_terminates cfg l w : is_Some (poll_cycle cfg l w).
Proof.
  unfold poll_cycle.
  destruct (drain_terminates cfg l (drain_fuel w) 0 w) as [[[total|e] w1] ->];
    [|done..].
  unfold drain_fuel. rewrite pending_length. lia.
Qed.

(** C6. In a quiet world (the flag unset, no signal coming, nothing
    failing) with [K * N + R] rows pending, [R < N], the drain loop of the
    poll path ends and has forwarded them all: the source has been sent,
    for each of [⌈(K * N + R) / N⌉] non-empty batches in turn, a fetch and
    the mark of that batch, and after them exactly one more fetch, the one
    of the cycle that returns zero; [total_batches] has grown by that
    number of batches and nothing is pending any more. *)
Theorem poll_drain_cycles cfg l w (K R : Z) :
  quiet w ->
  pending_convert (radacct w) ->
  0 <= K -> 0 <= R < BATCH_SIZE cfg ->
  Z.of_nat (length (unforwarded (radacct w))) = K * BATCH_SIZE cfg + R ->
  exists w' batches,
    drain cfg (drain_fuel w) l 0 w
    = Some (Ok (K * BATCH_SIZE cfg + R), w')
    /\ poll_cycle cfg l w = Some (l, w')
    /\ Z.of_nat (length batches)
       = ceil_div (K * BATCH_SIZE cfg + R) (BATCH_SIZE cfg)
    /\ ceil_div (K * BATCH_SIZE cfg + R) (BATCH_SIZE cfg)
       = K + (if R =? 0 then 0 else 1)
    /\ Forall (fun b => b <> [] /\ Z.of_nat (length b) <= BATCH_SIZE cfg)
              batches
    /\ concat batches = radacctid <$> pending (radacct w)
    /\ pg_log w'
       = (pg_log w
            ++ concat (cycle_stmts (pg_conn l) (BATCH_SIZE cfg) <$> batches)
            ++ [(pg_conn l, Fetch (BATCH_SIZE cfg))])%list
    /\ total_batches (metrics w')
       = total_batches (metrics w)
         + ceil_div (K * BATCH_SIZE cfg + R) (BATCH_SIZE cfg)
    /\ total_forwarded (metrics w')
       = total_forwarded (metrics w) + (K * BATCH_SIZE cfg + R)
    /\ unforwarded (radacct w') = [].
Proof.
  intros Hq Hconv HK HR HP. rewrite <- pending_length in HP.
  destruct (drain_quiet cfg l ltac:(lia) (drain_fuel w) 0 w Hq Hconv)
    as (w' & batches & Hd & Hcat & Hall & Hcnt & Hlog & Hb & Hf & _
        & Hdone & _).
  { unfold drain_fuel. rewrite pending_length. lia. }
  rewrite HP in Hd, Hcnt, Hf. rewrite Z.add_0_l in Hd.
  exists w', batches. split_and!; try done.
  - unfold poll_cycle. by rewrite Hd.
  - by apply ceil_div_quot_rem.
  - by rewrite Hb, Hcnt.
  - apply Permutation_nil. by rewrite <- Hdone, pending_Permutation.
Qed.

(** Three sessions pending and a batch size of two: [K = 1], [R = 1].
    The loop sends a fetch and a mark for [10; 11], a fetch and a mark
    for [12], and one last fetch. *)
Lemma poll_drain_cycles_witness :
  exists w' (batches : list (list Z)),
    drain (Sample.cfg 2) (drain_fuel (Sample.calm Sample.table))
          Sample.main_locals 0 (Sample.calm Sample.table)
    = Some (Ok 3, w')
    /\ Z.of_nat (length batches) = 2
    /\ total_batches (metrics w') = 2.
Proof.
  destruct (poll_drain_cycles (Sample.cfg 2) Sample.main_locals
              (Sample.calm Sample.table) 1 1)
    as (w' & batches & Hd & _ & Hn & _ & _ & _ & _ & Hb & _).
  - by constructor.
  - apply (bool_decide_unpack
             (map_Forall (fun _ s => forwarded_to_ch s = false ->
                                     counters_convert (cols s) = true)
                         Sample.table)).
    vm_compute. exact I.
  - lia.
  - simpl. lia.
  - vm_compute. reflexivity.
  - exists w', batches. split; [exact Hd|]. split; [exact Hn|exact Hb].
Defined.

(** * Further properties *)

(** ** The two statements on the source table *)

Lemma stored_marked_eta s : forwarded_to_ch s = true -> Stored (cols s) true = s.
Proof. destruct s as [c f]. simpl. by intros ->. Qed.

Lemma MARK_FORWARDED_QUERY_app t a b :
  MARK_FORWARDED_QUERY (MARK_FORWARDED_QUERY t a) b
  = MARK_FORWARDED_QUERY t (a ++ b).
Proof.
  apply map_eq. intros k. rewrite !lookup_MARK_FORWARDED_QUERY.
  destruct (t !! k) as [s|]; [|done]. simpl. f_equal.
  rewrite (bool_decide_ext _ _ (elem_of_app a b k)), bool_decide_or.
  by destruct (bool_decide (k ∈ a)), (bool_decide (k ∈ b)).
Qed.

Lemma MARK_FORWARDED_QUERY_noop t ids :
  (forall k s, k ∈ ids -> t !! k = Some s -> forwarded_to_ch s = true) ->
  MARK_FORWARDED_QUERY t ids = t.
Proof.
  intros H. apply map_eq. intros k. rewrite lookup_MARK_FORWARDED_QUERY.
  destruct (t !! k) as [s|] eqn:Hk; [|done]. simpl. f_equal.
  destruct (decide (k ∈ ids)) as [Hin|Hin].
  - rewrite bool_decide_eq_true_2 by done.
    apply stored_marked_eta. by apply (H k).
  - by rewrite bool_decide_eq_false_2.
Qed.

(** X1. The mark statement composes and is idempotent: marking [a] and
    then [b] is marking [a ++ b], and marking a list twice is marking it
    once. It never adds or removes a row, and identifiers that are not in
    the table or are marked already change nothing. *)
Theorem mark_statement_composes (t : gmap Z stored) :
  (forall a b, MARK_FORWARDED_QUERY (MARK_FORWARDED_QUERY t a) b
               = MARK_FORWARDED_QUERY t (a ++ b))
  /\ (forall ids, MARK_FORWARDED_QUERY (MARK_FORWARDED_QUERY t ids) ids
                  = MARK_FORWARDED_QUERY t ids)
  /\ (forall ids k, MARK_FORWARDED_QUERY t ids !! k = None <-> t !! k = None)
  /\ (forall ids,
         (forall k s, k ∈ ids -> t !! k = Some s -> forwarded_to_ch s = true) ->
         MARK_FORWARDED_QUERY t ids = t).
Proof.
  split_and!.
  - apply MARK_FORWARDED_QUERY_app.
  - intros ids. apply MARK_FORWARDED_QUERY_noop. intros k s Hin.
    rewrite lookup_MARK_FORWARDED_QUERY.
    destruct (t !! k) as [s0|]; [|done]. simpl.
    rewrite bool_decide_eq_true_2 by done. by intros [= <-].
  - intros ids k. rewrite lookup_MARK_FORWARDED_QUERY.
    by destruct (t !! k).
  - apply MARK_FORWARDED_QUERY_noop.
Qed.

(** Marking 7, forwarded already, and 99, not in the table, leaves the
    sample table as it is. *)
Lemma mark_statement_composes_witness :
  MARK_FORWARDED_QUERY Sample.table [7; 99] = Sample.table.
Proof.
  apply (proj2 (proj2 (proj2 (mark_statement_composes Sample.table)))).
  intros k s [->|[->|[]%elem_of_nil]%elem_of_cons]%elem_of_cons;
    vm_compute; by intros [= <-].
Defined.

Lemma pending_take_drop_lt t n r r' :
  r ∈ take n (pending t) -> r' ∈ drop n (pending t) ->
  radacctid r < radacctid r'.
Proof.
  intros H1 H2. pose proof (pending_sorted t) as Hs.
  rewrite <- (take_drop n (pending t)) in Hs.
  apply StronglySorted_app in Hs as (Hlt & _ & _). by apply Hlt.
Qed.

(** X2. A fetch takes the pending rows with the lowest identifiers: every
    pending row it leaves out has a greater identifier than every row it
    returns. When the pending rows fit into the limit it returns them
    all. *)
Theorem fetch_takes_lowest (t : gmap Z stored) (limit : Z) :
  (forall r r', r ∈ FETCH_QUERY t limit -> r' ∈ unforwarded t ->
                r' ∉ FETCH_QUERY t limit -> radacctid r < radacctid r')
  /\ (Z.of_nat (length (unforwarded t)) <= limit ->
      FETCH_QUERY t limit ≡ₚ unforwarded t).
Proof.
  split.
  - intros r r' Hr Hr' Hout. rewrite FETCH_QUERY_pending in Hr, Hout.
    apply (pending_take_drop_lt t (Z.to_nat limit)); [done|].
    rewrite <- pending_Permutation in Hr'.
    rewrite <- (take_drop (Z.to_nat limit) (pending t)) in Hr'.
    apply elem_of_app in Hr' as [?|?]; done.
  - intros Hfit. rewrite FETCH_QUERY_pending, take_ge.
    + apply pending_Permutation.
    + rewrite pending_length. lia.
Qed.

(** Of the sessions 10, 11 and 12 a fetch of two leaves out 12, above
    11; a fetch of five returns the three of them. *)
Lemma fetch_takes_lowest_witness :
  11 < 12 /\ FETCH_QUERY Sample.table 5 ≡ₚ unforwarded Sample.table.
Proof.
  split.
  - apply (proj1 (fetch_takes_lowest Sample.table 2)
                 (Row 11 (coalesce_framedipaddress Sample.updated))
                 (Row 12 (coalesce_framedipaddress Sample.stopped))).
    + apply list_elem_of_In. vm_compute. auto.
    + apply list_elem_of_In. vm_compute. auto.
    + intros Hin%list_elem_of_In. vm_compute in Hin.
      destruct Hin as [H|[H|[]]]; discriminate H.
  - apply (proj2 (fetch_takes_lowest Sample.table 5)). vm_compute.
    discriminate.
Defined.

(** ** The transform of one row *)

(** [int()] of a [str] raises nothing but [ValueError]. *)
Lemma int_of_str_Raise s e :
  int_of_str s = Raise e -> exists msg, e = ValueError msg.
Proof.
  unfold int_of_str.
  destruct (match skip_spaces (code_points s) with
            | [] => _ | _ => _ end) as [sign literal].
  destruct (bool_decide _); [intros [= <-]; eauto|].
  destruct (int_digits false 0 0 literal) as [[[digits z] rest]|];
    [|intros [= <-]; eauto].
  destruct (_ <? _)%N; [intros [= <-]; eauto|].
  destruct (_ =? _)%N; [intros [= <-]; eauto|].
  destruct (skip_spaces rest); [done|intros [= <-]; eauto].
Qed.

Lemma safe_int_Raise v e :
  safe_int v = Raise e -> exists msg, e = ValueError msg \/ e = TypeError msg.
Proof.
  destruct v as [|z|s|d]; simpl; try discriminate.
  - unfold safe_int. simpl. intros H.
    destruct (int_of_str_Raise _ _ H) as [msg ->]. eauto.
  - intros [= <-]. eauto.
Qed.

(** A transform that raises stopped at the first counter, in the order
    of the dict, that does not convert. *)
Lemma transform_Raise cfg r ev w e w' :
  transform cfg r ev w = (Raise e, w') ->
  exists before p after,
    numeric_fields = (before ++ p :: after)%list
    /\ Forall (fun q => exists z, safe_int (get q.1 r) = Ok z) before
    /\ safe_int (get p.1 r) = Raise e.
Proof.
  unfold transform. rewrite bind_run.
  destruct (truthy (get acctstarttime r)); simpl;
    rewrite !bind_run; unfold lift_result;
    destruct (safe_int (get acctinterval r)) as [i1|e1] eqn:E1;
    try (intros [= <- <-];
         by exists [], (acctinterval, Ch.acctinterval), (tail numeric_fields));
    destruct (safe_int (get acctsessiontime r)) as [i2|e2] eqn:E2;
    try (intros [= <- <-];
         exists [(acctinterval, Ch.acctinterval)],
                (acctsessiontime, Ch.acctsessiontime),
                (tail (tail numeric_fields));
         split_and!; [done|repeat constructor; eauto|done]);
    destruct (safe_int (get acctinputoctets r)) as [i3|e3] eqn:E3;
    try (intros [= <- <-];
         exists [(acctinterval, Ch.acctinterval);
                 (acctsessiontime, Ch.acctsessiontime)],
                (acctinputoctets, Ch.acctinputoctets),
                [(acctoutputoctets, Ch.acctoutputoctets)];
         split_and!; [done|repeat constructor; eauto|done]);
    destruct (safe_int (get acctoutputoctets r)) as [i4|e4] eqn:E4;
    try discriminate;
    intros [= <- <-];
    exists [(acctinterval, Ch.acctinterval);
            (acctsessiontime, Ch.acctsessiontime);
            (acctinputoctets, Ch.acctinputoctets)],
           (acctoutputoctets, Ch.acctoutputoctets), [];
    (split_and!; [done|repeat constructor; eauto|done]).
Qed.

Lemma transform_Raise_iff cfg r ev w :
  (exists e w', transform cfg r ev w = (Raise e, w'))
  <-> counters_convert (fields r) = false.
Proof.
  split.
  - intros (e & w' & H). destruct (counters_convert (fields r)) eqn:Hc; [|done].
    destruct (transform_total cfg r ev w Hc) as [c Hok]. congruence.
  - intros Hc. destruct (transform cfg r ev w) as [[c|e] w'] eqn:H; [|eauto].
    destruct (transform_Ok _ _ _ _ _ _ H)
      as (i1 & i2 & i3 & i4 & H1 & H2 & H3 & H4 & _).
    unfold counters_convert, numeric_fields, get in *. simpl in Hc.
    by rewrite H1, H2, H3, H4 in Hc.
Qed.

(** X3. The transform of a row raises exactly when one of its four
    counters does not convert to an integer. The exception is then the
    [ValueError] or [TypeError] of the first such counter in the order
    interval, session time, input octets, output octets, and neither
    store has changed. *)
Theorem transform_raises_on_bad_counter cfg r ev w :
  ((exists e w', transform cfg r ev w = (Raise e, w'))
   <-> counters_convert (fields r) = false)
  /\ (forall e w',
         transform cfg r ev w = (Raise e, w') ->
         (exists before p after,
             numeric_fields = (before ++ p :: after)%list
             /\ Forall (fun q => exists z, safe_int (get q.1 r) = Ok z) before
             /\ safe_int (get p.1 r) = Raise e)
         /\ (exists msg, e = ValueError msg \/ e = TypeError msg)
         /\ radacct w' = radacct w
         /\ radius_accounting w' = radius_accounting w).
Proof.
  split; [apply transform_Raise_iff|].
  intros e w' H.
  destruct (transform_Raise _ _ _ _ _ _ H) as (before & p & after & Hn & Hb & Hp).
  destruct (transform_world _ _ _ _ _ _ H) as [n ->].
  split_and!; [by exists before, p, after| |done|done].
  by eapply safe_int_Raise.
Qed.

(** The row whose input octets read "n/a": its interval and session
    time are absent and convert, so the [ValueError] is the one of the
    input octets. *)
Lemma transform_raises_on_bad_counter_witness :
  exists w',
    transform (Sample.cfg 2) (Row 20 Sample.bad_counter) "start"
              (Sample.calm Sample.table)
    = (Raise (ValueError "invalid literal for int() with base 10: 'n/a'"), w')
    /\ radacct w' = Sample.table.
Proof.
  eexists. split; [vm_compute; reflexivity|].
  exact (proj1 (proj2 (proj2
           (proj2 (transform_raises_on_bad_counter (Sample.cfg 2)
                     (Row 20 Sample.bad_counter) "start"
                     (Sample.calm Sample.table)) _ _ eq_refl)))).
Defined.

(** X4. Values that are present with the type of their column go out
    unchanged: a textual column holding a string, a counter holding an
    integer, an update or stop time holding a [datetime]; a start time
    holding a [datetime] goes out as it is without the clock being read.
    The identifier is the row's, the event type the one given, the site
    the configured one. *)
Theorem transform_keeps_present cfg r ev w c w' :
  transform cfg r ev w = (Ok c, w') ->
  Ch.radacctid c = radacctid r
  /\ Ch.event_type c = ev
  /\ Ch.edge_site_id c = EDGE_SITE_ID cfg
  /\ Forall (fun p => forall s, get p.1 r = VStr s -> p.2 c = s) text_fields
  /\ Forall (fun p => forall z, get p.1 r = VInt z -> p.2 c = z) numeric_fields
  /\ Forall (fun p => forall d, get p.1 r = VDatetime d -> p.2 c = Some d)
            later_timestamps
  /\ (forall d, get acctstarttime r = VDatetime d ->
                Ch.acctstarttime c = VDatetime d /\ w' = w).
Proof.
  intros H.
  destruct (transform_Ok _ _ _ _ _ _ H)
    as (i1 & i2 & i3 & i4 & H1 & H2 & H3 & H4 & Hid & Hev & Hsite
        & E1 & E2 & E3 & E4 & Ht & Hd & Hs & Hw).
  split_and!; try done.
  - eapply Forall_impl; [exact Ht|]. intros p -> s ->. reflexivity.
  - unfold numeric_fields.
    repeat constructor; simpl; intros z Hz;
      [ rewrite Hz in H1 | rewrite Hz in H2
      | rewrite Hz in H3 | rewrite Hz in H4 ];
      rewrite safe_int_number in *; congruence.
  - eapply Forall_impl; [exact Hd|]. intros p -> d ->. reflexivity.
  - intros d Hd'. rewrite Hs, Hw, Hd'. done.
Qed.

(** The stopped session keeps its user name, its session time and its
    stop time. *)
Lemma transform_keeps_present_witness :
  exists c w',
    transform (Sample.cfg 2) (Row 12 Sample.stopped) "stop"
              (Sample.calm Sample.table) = (Ok c, w')
    /\ Ch.username c = "cyd"
    /\ Ch.acctsessiontime c = 300
    /\ Ch.acctstoptime c = Some Sample.t2.
Proof.
  eexists. eexists. split; [vm_compute; reflexivity|].
  destruct (transform_keeps_present (Sample.cfg 2) (Row 12 Sample.stopped)
              "stop" (Sample.calm Sample.table) _ _ eq_refl)
    as (_ & _ & _ & Ht & Hn & Hd & _).
  split; [|split].
  - exact (proj1 (Forall_lookup _ _) Ht 2%nat (username, Ch.username)
             eq_refl "cyd" eq_refl).
  - exact (proj1 (Forall_lookup _ _) Hn 1%nat
             (acctsessiontime, Ch.acctsessiontime) eq_refl 300 eq_refl).
  - exact (proj1 (Forall_lookup _ _) Hd 1%nat
             (acctstoptime, Ch.acctstoptime) eq_refl Sample.t2 eq_refl).
Defined.

(** X5. The start time is not type-checked: [or] lets every truthy
    value through, so a non-empty string or a non-zero integer goes out
    as the start time unchanged, where the same value as update or stop
    time would go out unset; and it replaces every falsy value, the empty
    string and zero as well as [None], by the clock reading. *)
Theorem start_time_or_now cfg r ev w c w' :
  transform cfg r ev w = (Ok c, w') ->
  (forall s, s <> "" -> get acctstarttime r = VStr s ->
             Ch.acctstarttime c = VStr s /\ w' = w
             /\ safe_datetime (VStr s) = None)
  /\ (forall z, z <> 0 -> get acctstarttime r = VInt z ->
                Ch.acctstarttime c = VInt z /\ w' = w)
  /\ (get acctstarttime r = VStr "" \/ get acctstarttime r = VInt 0
      \/ get acctstarttime r = VNone ->
      Ch.acctstarttime c = VDatetime (clock w (clock_reads w))
      /\ clock_reads w' = S (clock_reads w)).
Proof.
  intros H.
  destruct (transform_Ok _ _ _ _ _ _ H)
    as (_ & _ & _ & _ & _ & _ & _ & _ & _ & _ & _ & _ & _ & _ & _
        & _ & _ & Hs & Hw).
  split_and!.
  - intros s Hne Hv. rewrite Hs, Hw, Hv. simpl.
    destruct (String.eqb_spec s ""); [done|]. done.
  - intros z Hne Hv. rewrite Hs, Hw, Hv. simpl.
    destruct (Z.eqb_spec z 0); [done|]. done.
  - intros [Hv|[Hv|Hv]]; rewrite Hs, Hw, Hv; done.
Qed.

(** The session whose start time is the empty string gets the first
    clock reading. *)
Lemma start_time_or_now_witness :
  exists c w',
    transform (Sample.cfg 2)
              (Row 30 (Sample.session "fay" (VStr "") VNone VNone)) "start"
              (Sample.calm Sample.table) = (Ok c, w')
    /\ Ch.acctstarttime c = VDatetime (Sample.clock0 0).
Proof.
  eexists. eexists. split; [vm_compute; reflexivity|].
  destruct (start_time_or_now (Sample.cfg 2)
              (Row 30 (Sample.session "fay" (VStr "") VNone VNone)) "start"
              (Sample.calm Sample.table) _ _ eq_refl)
    as (_ & _ & Hf).
  exact (proj1 (Hf (or_introl eq_refl))).
Defined.

(** ** Nothing lost, everything counted *)

Lemma delivered_same w w' :
  radacct w' = radacct w -> radius_accounting w' = radius_accounting w ->
  delivered w w'.
Proof.
  intros R S. exists []. rewrite app_nil_r. split; [done|].
  intros k. rewrite R. destruct (radacct w !! k) as [s|]; [|done].
  exists s. auto.
Qed.

Lemma delivered_trans w1 w2 w3 :
  delivered w1 w2 -> delivered w2 w3 -> delivered w1 w3.
Proof.
  intros (n1 & S1 & H1) (n2 & S2 & H2). exists (n1 ++ n2)%list. split.
  - by rewrite S2, S1, app_assoc.
  - intros k. specialize (H1 k). specialize (H2 k).
    destruct (radacct w1 !! k) as [s|]; [|by rewrite H1 in H2].
    destruct H1 as (s' & Hk & Hc & Hf). rewrite Hk in H2.
    destruct H2 as (s'' & Hk' & Hc' & Hf'). exists s''.
    split_and!; [done|congruence|]. rewrite fmap_app.
    destruct Hf as [Hf|(F1 & F2 & Hin)], Hf' as [Hf'|(F1' & F2' & Hin')].
    + left. congruence.
    + right. split_and!; [congruence|done|]. apply elem_of_app. by right.
    + right. split_and!; [done|congruence|]. apply elem_of_app. by left.
    + congruence.
Qed.

Lemma kept_same w w' :
  radacct w' = radacct w -> radius_accounting w' = radius_accounting w ->
  total_forwarded (metrics w') = total_forwarded (metrics w) ->
  total_errors (metrics w) <= total_errors (metrics w') ->
  kept w w'.
Proof.
  intros R S F E. split_and!; [by apply delivered_same| |done].
  unfold accounted. by rewrite R, F.
Qed.

Lemma kept_refl w : kept w w.
Proof. apply kept_same; done || lia. Qed.

Lemma kept_trans w1 w2 w3 : kept w1 w2 -> kept w2 w3 -> kept w1 w3.
Proof.
  intros (D1 & A1 & E1) (D2 & A2 & E2). split_and!.
  - by eapply delivered_trans.
  - unfold accounted in *. lia.
  - lia.
Qed.

(** A cycle loses nothing, and what it returns is the number of rows
    that stopped being pending. *)
Lemma forward_batch_kept cfg pg ch w res w' :
  forward_batch cfg pg ch w = (res, w') ->
  delivered w w'
  /\ metrics w' = metrics w
  /\ match res with
     | Ok count =>
         0 <= count
         /\ Z.of_nat (length (pending (radacct w'))) + count
            = Z.of_nat (length (pending (radacct w)))
     | Raise _ => radacct w' = radacct w
     end.
Proof.
  intros H.
  destruct (forward_batch_outcome _ _ _ _ _ _ H)
    as ([M _ _ _ _ _] & [(e & -> & R & S & _)|[(-> & _ & R & S & _)
          |(ch_rows & Hne & HF & S & _ & Hm)]]).
  - split_and!; [by apply delivered_same|done|done].
  - split_and!; [by apply delivered_same|done|lia|rewrite R; lia].
  - destruct (transformed_ids _ _ _ HF) as [Hids Hlen].
    destruct Hm as [(e & -> & R)|(-> & R)].
    + split_and!; [|done|done]. exists ch_rows. split; [done|].
      intros k. rewrite R. destruct (radacct w !! k) as [s|]; [|done].
      exists s. auto.
    + split; [|split; [done|]].
      * exists ch_rows. split; [done|]. intros k.
        rewrite R, lookup_MARK_FORWARDED_QUERY.
        destruct (radacct w !! k) as [s|]; [|done]. simpl.
        destruct (decide (k ∈ radacctid <$> FETCH_QUERY (radacct w)
                                             (BATCH_SIZE cfg))) as [Hin|Hin].
        -- rewrite bool_decide_eq_true_2 by done. eexists. split; [done|].
           split; [done|]. simpl. destruct (forwarded_to_ch s); [by left|].
           right. by rewrite Hids.
        -- rewrite bool_decide_eq_false_2 by done. exists s. auto.
      * split; [lia|]. rewrite R, FETCH_QUERY_pending, pending_after_mark.
        rewrite length_take, length_drop. lia.
Qed.

Lemma count_error_kept w : kept w (count_error w).
Proof. apply kept_same; simpl; done || lia. Qed.

Lemma sleep_kept secs w : kept w (sleep secs w).
Proof.
  destruct (sleep_frame secs w) as (M & _ & _ & R & S & _).
  apply kept_same; try done; rewrite M; done || lia.
Qed.

Lemma deliver_kept w : kept w (deliver w).
Proof.
  destruct (deliver_same_process w) as [M _ _ _ _ _].
  destruct (deliver_stores w) as (R & S & _).
  apply kept_same; try done; rewrite M; done || lia.
Qed.

Lemma connect_clickhouse_kept w : kept w (connect_clickhouse w).2.
Proof.
  destruct (connect_clickhouse_frame w) as (M & _ & R & S).
  apply kept_same; try done; rewrite M; done || lia.
Qed.

Lemma connect_postgres_kept w : kept w (connect_postgres w).2.
Proof.
  destruct (connect_postgres_frame w) as (M & _ & R & S).
  apply kept_same; try done; rewrite M; done || lia.
Qed.

Lemma pg_execute_kept h q w : kept w (pg_execute h q w).2.
Proof.
  destruct (pg_execute h q w) as [r w'] eqn:H.
  destruct (pg_execute_spec _ _ _ _ _ H) as ([M _ _ _ _ _] & R & S & _).
  apply kept_same; simpl; try done; rewrite M; done || lia.
Qed.

Lemma on_notify_kept cfg l w : kept w (on_notify cfg l w).2.
Proof.
  unfold on_notify. rewrite bind_run.
  destruct (forward_batch cfg (pg_conn l) (ch_client l) w)
    as [[count|e] w1] eqn:Hfb;
    destruct (forward_batch_kept _ _ _ _ _ _ Hfb) as (D & M & Hres).
  - destruct Hres as [Hpos Hcount].
    destruct (0 <? count) eqn:Hz.
    + destruct (count_forwarded_frame count w1)
        as (_ & R & S & _ & _ & _ & _ & _ & _ & F & E).
      destruct (count_forwarded count w1) as [[[]|e] w2] eqn:Hc;
        [|discriminate Hc].
      simpl in *. split_and!.
      * eapply delivered_trans; [done|]. by apply delivered_same.
      * unfold accounted. rewrite R, F, M. lia.
      * rewrite E, M. lia.
    + simpl. apply Z.ltb_ge in Hz. split_and!; [done| |rewrite M; lia].
      unfold accounted. rewrite M. lia.
  - assert (K1 : kept w w1).
    { split_and!; [done| |rewrite M; lia]. unfold accounted.
      by rewrite M, Hres. }
    pose proof (connect_clickhouse_kept (count_error w1)) as K3.
    destruct (connect_clickhouse (count_error w1)) as [[c|e'] w2];
      simpl in K3 |- *;
      (eapply kept_trans; [exact K1|]);
      (eapply kept_trans; [apply count_error_kept|exact K3]).
Qed.

Lemma notify_loop_kept cfg ns l w : kept w (notify_loop cfg ns l w).2.
Proof.
  revert l w. induction ns as [|n ns IH]; intros l w; simpl.
  - apply kept_refl.
  - pose proof (on_notify_kept cfg l w) as K.
    destruct (on_notify cfg l w) as [l1 w1]. simpl in K.
    eapply kept_trans; [exact K|apply IH].
Qed.

Lemma drain_kept cfg l fuel total w res w' :
  drain cfg fuel l total w = Some (res, w') -> kept w w'.
Proof.
  revert total w. induction fuel as [|fuel IH]; intros total w; [done|].
  rewrite drain_S.
  destruct (running w); [|intros [= _ <-]; apply kept_refl].
  destruct (forward_batch cfg (pg_conn l) (ch_client l) w)
    as [[count|e] w1] eqn:Hfb;
    destruct (forward_batch_kept _ _ _ _ _ _ Hfb) as (D & M & Hres).
  - destruct Hres as [Hpos Hcount].
    destruct (count =? 0) eqn:Hz.
    + apply Z.eqb_eq in Hz. intros [= _ <-].
      split_and!; [done| |rewrite M; lia]. unfold accounted. rewrite M. lia.
    + intros K%IH. eapply kept_trans; [|exact K].
      destruct (count_forwarded_frame count w1)
        as (_ & R & S & _ & _ & _ & _ & _ & _ & F & E).
      split_and!.
      * eapply delivered_trans; [done|]. by apply delivered_same.
      * unfold accounted. rewrite R, F, M. lia.
      * rewrite E, M. lia.
  - intros [= _ <-]. split_and!; [done| |rewrite M; lia].
    unfold accounted. by rewrite M, Hres.
Qed.

Lemma poll_reconnect_kept l w : kept w (poll_reconnect l w).2.
Proof.
  unfold poll_reconnect.
  pose proof (connect_postgres_kept w) as K1.
  destruct (connect_postgres w) as [[c|e] w1]; simpl in K1.
  - pose proof (pg_execute_kept c Listen w1) as K2.
    destruct (pg_execute c Listen w1) as [[[]|e] w2]; simpl in K2.
    + pose proof (connect_clickhouse_kept w2) as K3.
      destruct (connect_clickhouse w2) as [[c'|e] w3]; simpl in K3 |- *.
      * eauto using kept_trans.
      * eauto using kept_trans, sleep_kept.
    + simpl. eauto using kept_trans, sleep_kept.
  - simpl. eauto using kept_trans, sleep_kept.
Qed.

Lemma poll_cycle_kept cfg l w l' w' :
  poll_cycle cfg l w = Some (l', w') -> kept w w'.
Proof.
  unfold poll_cycle.
  destruct (drain cfg (drain_fuel w) l 0 w) as [[[total|e] w1]|] eqn:Hd;
    [| |done]; pose proof (drain_kept _ _ _ _ _ _ _ Hd) as K.
  - by intros [= _ <-].
  - pose proof (poll_reconnect_kept l (count_error w1)) as K2.
    destruct (poll_reconnect l (count_error w1)) as [l2 w2].
    intros [= _ <-]. simpl in K2.
    eauto using kept_trans, count_error_kept.
Qed.

Lemma loop_handler_kept l w : kept w (loop_handler l w).2.
Proof.
  unfold loop_handler.
  eauto using kept_trans, count_error_kept, sleep_kept, poll_reconnect_kept.
Qed.

Lemma poll_section_kept cfg ev l last w l' last' w' :
  poll_section cfg ev l last w = Some (l', last', w') -> kept w w'.
Proof.
  unfold poll_section. destruct (poll_due cfg (time_time ev) last).
  - destruct (poll_cycle cfg l w) as [[l1 w1]|] eqn:Hp; [|done].
    intros [= _ _ <-]. by eapply poll_cycle_kept.
  - intros [= _ _ <-]. apply kept_refl.
Qed.

Lemma main_iteration_kept cfg ev l last w l' last' w' :
  main_iteration cfg ev l last w = Some (l', last', w') -> kept w w'.
Proof.
  unfold main_iteration. pose proof (deliver_kept w) as K0.
  destruct (wait ev) as [e| |e|ns].
  - pose proof (loop_handler_kept l (deliver w)) as K.
    destruct (loop_handler l (deliver w)) as [l1 w1].
    intros [= _ _ <-]. eauto using kept_trans.
  - intros K%poll_section_kept. eauto using kept_trans.
  - pose proof (loop_handler_kept l (deliver w)) as K.
    destruct (loop_handler l (deliver w)) as [l1 w1].
    intros [= _ _ <-]. eauto using kept_trans.
  - pose proof (notify_loop_kept cfg ns l (deliver w)) as K.
    destruct (notify_loop cfg ns l (deliver w)) as [l1 w1].
    intros K2%poll_section_kept. eauto using kept_trans.
Qed.

Lemma main_loop_kept cfg evs l last w le w' :
  main_loop cfg evs l last w = Some (le, w') -> kept w w'.
Proof.
  revert l last w. induction evs as [|ev evs IH]; intros l last w; simpl;
    (destruct (running w); [|intros [= _ <-]; apply kept_refl]).
  - intros [= _ <-]. apply kept_refl.
  - destruct (main_iteration cfg ev l last w) as [[[l1 last1] w1]|] eqn:Hi;
      [|done].
    intros K%IH. eauto using kept_trans, main_iteration_kept.
Qed.

Lemma main_kept cfg evs w me w' :
  main cfg evs w = Some (me, w') -> kept w w'.
Proof.
  unfold main.
  pose proof (connect_postgres_kept w) as K1.
  destruct (connect_postgres w) as [[pg|e] w1]; simpl in K1;
    [|by intros [= _ <-]].
  pose proof (connect_clickhouse_kept w1) as K2.
  destruct (connect_clickhouse w1) as [[ch|e] w2]; simpl in K2;
    [|intros [= _ <-]; eauto using kept_trans].
  pose proof (pg_execute_kept pg Listen w2) as K3.
  destruct (pg_execute pg Listen w2) as [[[]|e] w3]; simpl in K3;
    [|intros [= _ <-]; eauto using kept_trans].
  destruct (main_loop cfg evs {| pg_conn := pg; ch_client := ch |} 0%Q w3)
    as [[[l|l last] w4]|] eqn:Hl; [| |done];
    intros [= _ <-]; eauto using kept_trans, main_loop_kept.
Qed.

(** X6. Nothing is ever marked that is not in the sink. Over any run of
    the notification loop, of the poll path, of the loop of [main] and
    of [main] as a whole, whatever fails and whenever the signal comes:
    the sink only grows, no source row appears, vanishes or changes its
    columns, a forward flag only ever goes from false to true, and every
    row whose flag went to true has its identifier among the rows the
    sink received in that run. *)
Theorem nothing_marked_unwritten cfg :
  (forall ns l w, delivered w (notify_loop cfg ns l w).2)
  /\ (forall l w l' w', poll_cycle cfg l w = Some (l', w') -> delivered w w')
  /\ (forall evs l last w le w',
         main_loop cfg evs l last w = Some (le, w') -> delivered w w')
  /\ (forall evs w me w', main cfg evs w = Some (me, w') -> delivered w w').
Proof.
  split_and!.
  - intros ns l w. apply notify_loop_kept.
  - intros l w l' w' H. by destruct (poll_cycle_kept _ _ _ _ _ H).
  - intros evs l last w le w' H. by destruct (main_loop_kept _ _ _ _ _ _ _ H).
  - intros evs w me w' H. by destruct (main_kept _ _ _ _ _ H).
Qed.

(** A run of [main] in which the first mark fails under the arriving
    signal: the batch is in the sink, unmarked, and nothing is lost. *)
Lemma nothing_marked_unwritten_witness :
  exists me w',
    main (Sample.cfg 2) Scenario.events (Scenario.world_with_signal 6)
    = Some (me, w')
    /\ delivered (Scenario.world_with_signal 6) w'.
Proof.
  destruct (main (Sample.cfg 2) Scenario.events (Scenario.world_with_signal 6))
    as [[me w']|] eqn:H; [|vm_compute in H; discriminate H].
  exists me, w'. split; [reflexivity|].
  exact (proj2 (proj2 (proj2 (nothing_marked_unwritten (Sample.cfg 2))))
           _ _ _ _ H).
Defined.

(** X7. The forwarded counter accounts for every row that stopped being
    pending: over any run of the notification loop, of the poll path, of
    the loop of [main] and of [main] itself, [total_forwarded] grows by
    exactly the number of rows that are no longer pending, whatever fails
    in between; and [total_errors] never goes down. *)
Theorem forwarded_counter_accounts cfg :
  (forall ns l w,
      let w' := (notify_loop cfg ns l w).2 in
      accounted w w' /\ total_errors (metrics w) <= total_errors (metrics w'))
  /\ (forall l w l' w',
         poll_cycle cfg l w = Some (l', w') ->
         accounted w w'
         /\ total_errors (metrics w) <= total_errors (metrics w'))
  /\ (forall evs l last w le w',
         main_loop cfg evs l last w = Some (le, w') ->
         accounted w w'
         /\ total_errors (metrics w) <= total_errors (metrics w'))
  /\ (forall evs w me w',
         main cfg evs w = Some (me, w') ->
         accounted w w'
         /\ total_errors (metrics w) <= total_errors (metrics w')).
Proof.
  split_and!.
  - intros ns l w. by destruct (notify_loop_kept cfg ns l w) as (_ & ? & ?).
  - intros l w l' w' H. by destruct (poll_cycle_kept _ _ _ _ _ H) as (_ & ? & ?).
  - intros evs l last w le w' H.
    by destruct (main_loop_kept _ _ _ _ _ _ _ H) as (_ & ? & ?).
  - intros evs w me w' H. by destruct (main_kept _ _ _ _ _ H) as (_ & ? & ?).
Qed.

(** The run of [main] that writes the first batch twice and counts
    two errors forwards the three pending sessions and counts three. *)
Lemma forwarded_counter_accounts_witness :
  exists me w',
    main (Sample.cfg 2) Scenario.events (Scenario.world_with_signal 40)
    = Some (me, w')
    /\ total_forwarded (metrics w') + Z.of_nat (length (pending (radacct w')))
       = 3%Z.
Proof.
  destruct (main (Sample.cfg 2) Scenario.events (Scenario.world_with_signal 40))
    as [[me w']|] eqn:H; [|vm_compute in H; discriminate H].
  exists me, w'. split; [reflexivity|].
  destruct (forwarded_counter_accounts (Sample.cfg 2)) as (_ & _ & _ & Hm).
  exact (proj1 (Hm _ _ _ _ H)).
Defined.

(** ** Runs in which no statement fails *)

Lemma quiet_unfailing w : quiet w -> unfailing w.
Proof. intros []. by constructor. Qed.

Lemma pg_execute_unfailing h q w :
  unfailing w -> exists w', pg_execute h q w = (Ok tt, w') /\ unfailing w'.
Proof.
  intros [Hp Hc]. unfold pg_execute. set (w0 := set_pg_log _ w).
  destruct (deliver_stores w0) as (_ & _ & _ & D4 & D5 & _).
  assert (Hp0 : Forall (fun o => o = None) (pg_script (deliver w0)))
    by (by rewrite D4).
  assert (Hc0 : Forall (fun o => o = None) (ch_script (deliver w0)))
    by (by rewrite D5).
  destruct (pg_script (deliver w0)) as [|o s] eqn:Hps.
  - eexists. split; [done|]. constructor; [by rewrite Hps|done].
  - apply Forall_cons in Hp0 as [-> Hp0]. eexists. split; [done|].
    by constructor.
Qed.

Lemma ch_insert_unfailing h rows w :
  unfailing w -> exists w', ch_insert h rows w = (Ok tt, w') /\ unfailing w'.
Proof.
  intros [Hp Hc]. unfold ch_insert.
  destruct (deliver_stores w) as (_ & _ & _ & D4 & D5 & _).
  assert (Hp0 : Forall (fun o => o = None) (pg_script (deliver w)))
    by (by rewrite D4).
  assert (Hc0 : Forall (fun o => o = None) (ch_script (deliver w)))
    by (by rewrite D5).
  destruct (ch_script (deliver w)) as [|o s] eqn:Hcs.
  - eexists. split; [done|]. constructor; simpl; [done|by rewrite Hcs].
  - apply Forall_cons in Hc0 as [-> Hc0]. eexists. split; [done|].
    by constructor.
Qed.

(** Where no statement fails and the pending rows convert, a cycle
    returns, whatever the flag and the signal. *)
Lemma forward_batch_unfailing cfg pg ch w :
  unfailing w -> pending_convert (radacct w) -> 0 <= BATCH_SIZE cfg ->
  exists count w',
    forward_batch cfg pg ch w = (Ok count, w') /\ unfailing w'.
Proof.
  intros Hu Hconv HN. rewrite forward_batch_unfold. unfold fetch.
  rewrite bind_run.
  destruct (pg_execute_unfailing pg (Fetch (BATCH_SIZE cfg)) w Hu)
    as (w1 & He & Hu1).
  rewrite He. destruct (pg_execute_spec _ _ _ _ _ He) as (_ & R1 & _).
  destruct (BATCH_SIZE cfg <? 0) eqn:Hlt; [lia|]. unfold gets. rewrite R1.
  assert (Hrows : Forall (fun r => counters_convert (fields r) = true)
                         (FETCH_QUERY (radacct w) (BATCH_SIZE cfg))).
  { rewrite FETCH_QUERY_pending. by apply Forall_take, pending_convert_rows. }
  destruct (FETCH_QUERY (radacct w) (BATCH_SIZE cfg)) as [|r rows] eqn:Hf.
  { by exists 0, w1. }
  destruct (prepare_total cfg (r :: rows) [] [] w1 Hrows)
    as (new & n & -> & HF).
  rewrite !app_nil_l.
  assert (Hu2 : unfailing (set_clock_reads n w1))
    by (destruct Hu1; by constructor).
  destruct (ch_insert_unfailing ch new _ Hu2) as (w3 & -> & Hu3).
  unfold mark_forwarded. rewrite bind_run.
  destruct (pg_execute_unfailing pg (MarkForwarded (radacctid <$> r :: rows))
              w3 Hu3) as (w4 & -> & [Hp4 Hc4]).
  unfold modify. eexists _, _. split; [done|]. by constructor.
Qed.

Lemma fetches_app a b : fetches (a ++ b) = (fetches a + fetches b)%nat.
Proof. unfold fetches. by rewrite List.filter_app, length_app. Qed.

(** All that a cycle does where no statement fails: it takes the first
    [BATCH_SIZE] pending rows, in order, into the sink and out of the
    pending ones, with one fetch. *)
Lemma forward_batch_takes cfg pg ch w :
  unfailing w -> pending_convert (radacct w) -> 0 <= BATCH_SIZE cfg ->
  let n := Z.to_nat (BATCH_SIZE cfg) in
  exists w',
    forward_batch cfg pg ch w
    = (Ok (Z.of_nat (length (take n (pending (radacct w))))), w')
    /\ unfailing w'
    /\ pending_convert (radacct w')
    /\ pending (radacct w') = drop n (pending (radacct w))
    /\ Ch.radacctid <$> radius_accounting w'
       = ((Ch.radacctid <$> radius_accounting w)
            ++ (radacctid <$> take n (pending (radacct w))))%list
    /\ metrics w' = metrics w
    /\ fetches (pg_log w') = S (fetches (pg_log w))
    /\ (quiet w -> quiet w').
Proof.
  intros Hu Hconv HN n.
  destruct (forward_batch_unfailing cfg pg ch w Hu Hconv HN)
    as (count & w' & Hfb & Hu').
  assert (Hq : quiet w -> quiet w').
  { intros Hq. destruct (forward_batch_quiet cfg pg ch w Hq Hconv HN)
      as (w'' & Hfb' & Hq'). congruence. }
  destruct (forward_batch_outcome _ _ _ _ _ _ Hfb)
    as ([M _ _ _ _ _] & [(e & ? & _)|[([= ->] & Hemp & R & S & L)
          |(ch_rows & Hne & HF & S & L & [(e & ? & _)|([= ->] & R)])]]);
    try done; rewrite FETCH_QUERY_pending in *; fold n in Hemp || fold n in Hne.
  - exists w'. rewrite Hemp. split_and!; try done.
    + by rewrite R.
    + rewrite R. rewrite <- (take_drop n (pending (radacct w))) at 1.
      by rewrite Hemp.
    + by rewrite S, app_nil_r.
    + rewrite L, fetches_app. unfold fetches. simpl. lia.
  - exists w'. fold n in HF, S, L, R. split_and!; try done.
    + rewrite R. by apply pending_convert_marked.
    + rewrite R. apply pending_after_mark.
    + destruct (transformed_ids _ _ _ HF) as [Hids _].
      by rewrite S, fmap_app, Hids.
    + rewrite L, fetches_app. unfold fetches. simpl. lia.
Qed.

Lemma on_notify_takes cfg l w :
  unfailing w -> pending_convert (radacct w) -> 0 <= BATCH_SIZE cfg ->
  let n := Z.to_nat (BATCH_SIZE cfg) in
  exists w',
    on_notify cfg l w = (l, w')
    /\ unfailing w'
    /\ pending_convert (radacct w')
    /\ pending (radacct w') = drop n (pending (radacct w))
    /\ Ch.radacctid <$> radius_accounting w'
       = ((Ch.radacctid <$> radius_accounting w)
            ++ (radacctid <$> take n (pending (radacct w))))%list
    /\ total_errors (metrics w') = total_errors (metrics w)
    /\ fetches (pg_log w') = S (fetches (pg_log w))
    /\ (quiet w -> quiet w').
Proof.
  intros Hu Hconv HN n.
  destruct (forward_batch_takes cfg (pg_conn l) (ch_client l) w Hu Hconv HN)
    as (w1 & Hfb & Hu1 & Hc1 & Hp1 & Hs1 & M1 & F1 & Hq1).
  fold n in Hfb, Hp1, Hs1.
  unfold on_notify. rewrite bind_run, Hfb.
  destruct (0 <? Z.of_nat (length (take n (pending (radacct w))))).
  - destruct (count_forwarded_frame
                (Z.of_nat (length (take n (pending (radacct w))))) w1)
      as (_ & R & S & Hr & Hsig & Hps & Hcs & L & _ & _ & E).
    destruct (count_forwarded _ w1) as [[[]|e] w2] eqn:Hcf;
      [|discriminate Hcf].
    simpl in *. exists w2. split_and!.
    + done.
    + destruct Hu1. constructor; congruence.
    + by rewrite R.
    + by rewrite R.
    + by rewrite S.
    + by rewrite E, M1.
    + by rewrite L.
    + intros Hq. destruct (Hq1 Hq). constructor; congruence.
  - simpl. exists w1. split_and!; try done. by rewrite M1.
Qed.

(** The notification loop where no statement fails: each notification
    takes the next [BATCH_SIZE] pending rows. *)
Lemma notify_loop_takes cfg ns l w :
  unfailing w -> pending_convert (radacct w) -> 0 <= BATCH_SIZE cfg ->
  let m := (length ns * Z.to_nat (BATCH_SIZE cfg))%nat in
  exists w',
    notify_loop cfg ns l w = (l, w')
    /\ unfailing w'
    /\ pending_convert (radacct w')
    /\ pending (radacct w') = drop m (pending (radacct w))
    /\ Ch.radacctid <$> radius_accounting w'
       = ((Ch.radacctid <$> radius_accounting w)
            ++ (radacctid <$> take m (pending (radacct w))))%list
    /\ total_errors (metrics w') = total_errors (metrics w)
    /\ fetches (pg_log w') = (fetches (pg_log w) + length ns)%nat
    /\ (quiet w -> quiet w').
Proof.
  intros Hu Hconv HN. revert w Hu Hconv.
  induction ns as [|x ns IH]; intros w Hu Hconv; simpl.
  - exists w. split_and!; try done. by rewrite app_nil_r.
  - destruct (on_notify_takes cfg l w Hu Hconv HN)
      as (w1 & -> & Hu1 & Hc1 & Hp1 & Hs1 & E1 & F1 & Hq1).
    destruct (IH w1 Hu1 Hc1) as (w2 & -> & Hu2 & Hc2 & Hp2 & Hs2 & E2 & F2 & Hq2).
    exists w2. split_and!; try done.
    + by rewrite Hp2, Hp1, drop_drop.
    + rewrite Hs2, Hs1, Hp1, <- app_assoc, <- fmap_app.
      by rewrite take_take_drop.
    + congruence.
    + rewrite F2, F1. lia.
    + auto.
Qed.

(** X8. Where no statement fails, the notification loop runs one cycle
    for each queued notification, no more and no fewer, whether or not
    the shutdown flag is set: [k] notifications send [k] fetches and take
    the first [k * BATCH_SIZE] pending rows, in order, into the sink and
    out of the pending ones. What is pending beyond them is left to the
    poll path. No error is counted and the connections are kept. *)
Theorem one_cycle_per_notification cfg ns l w :
  unfailing w -> pending_convert (radacct w) -> 0 <= BATCH_SIZE cfg ->
  let m := (length ns * Z.to_nat (BATCH_SIZE cfg))%nat in
  exists w',
    notify_loop cfg ns l w = (l, w')
    /\ pending (radacct w') = drop m (pending (radacct w))
    /\ Ch.radacctid <$> radius_accounting w'
       = ((Ch.radacctid <$> radius_accounting w)
            ++ (radacctid <$> take m (pending (radacct w))))%list
    /\ fetches (pg_log w') = (fetches (pg_log w) + length ns)%nat
    /\ total_forwarded (metrics w')
       = total_forwarded (metrics w)
         + Z.of_nat (length (take m (pending (radacct w))))
    /\ total_errors (metrics w') = total_errors (metrics w).
Proof.
  intros Hu Hconv HN m.
  destruct (notify_loop_takes cfg ns l w Hu Hconv HN)
    as (w' & Hn & _ & _ & Hp & Hs & E & F & _).
  exists w'. split_and!; try done.
  pose proof (notify_loop_kept cfg ns l w) as (_ & A & _).
  rewrite Hn in A. unfold accounted in A. simpl in A.
  fold m in Hp. rewrite Hp, length_drop in A. rewrite length_take. lia.
Qed.

Lemma sample_table_converts : pending_convert Sample.table.
Proof.
  apply (bool_decide_unpack
           (map_Forall (fun _ s => forwarded_to_ch s = false ->
                                   counters_convert (cols s) = true)
                       Sample.table)).
  vm_compute. exact I.
Qed.

(** One notification with three sessions pending and a batch size of
    two, the flag already cleared: the cycle still runs and leaves the
    third session pending. *)
Lemma one_cycle_per_notification_witness :
  exists w',
    notify_loop (Sample.cfg 2) ["radacct_change"] Sample.main_locals
                (shutdown_handler (Sample.calm Sample.table))
    = (Sample.main_locals, w')
    /\ radacctid <$> pending (radacct w') = [12].
Proof.
  destruct (one_cycle_per_notification (Sample.cfg 2) ["radacct_change"]
              Sample.main_locals
              (shutdown_handler (Sample.calm Sample.table)))
    as (w' & Hn & Hp & _).
  - by constructor.
  - apply sample_table_converts.
  - simpl. lia.
  - exists w'. split; [exact Hn|]. rewrite Hp. vm_compute. reflexivity.
Defined.

Lemma drop_length_take {A} (l : list A) n :
  drop (length (take n l)) l = drop n l
  /\ take (length (take n l)) l = take n l.
Proof.
  rewrite length_take. destruct (Nat.le_gt_cases n (length l)) as [H|H].
  - by rewrite Nat.min_l.
  - rewrite Nat.min_r by lia. rewrite !drop_ge, !take_ge by lia. done.
Qed.

(** The drain loop where no statement fails, with the signal free to
    come at any moment. *)
Lemma drain_unfailing cfg l :
  0 < BATCH_SIZE cfg ->
  forall fuel total w,
    unfailing w -> pending_convert (radacct w) ->
    (length (pending (radacct w)) < fuel)%nat ->
    exists w' m,
      drain cfg fuel l total w = Some (Ok (total + Z.of_nat m), w')
      /\ pending (radacct w') = drop m (pending (radacct w))
      /\ Ch.radacctid <$> radius_accounting w'
         = ((Ch.radacctid <$> radius_accounting w)
              ++ (radacctid <$> take m (pending (radacct w))))%list
      /\ (running w' = true -> pending (radacct w') = []).
Proof.
  intros HN. induction fuel as [|fuel IH]; intros total w Hu Hconv Hfuel;
    [lia|].
  rewrite drain_S. destruct (running w) eqn:Hrun.
  2:{ exists w, 0%nat. rewrite Z.add_0_r, app_nil_r. split_and!; try done.
      congruence. }
  destruct (forward_batch_takes cfg (pg_conn l) (ch_client l) w Hu Hconv)
    as (w1 & Hfb & Hu1 & Hc1 & Hp1 & Hs1 & M1 & _); [lia|].
  rewrite Hfb.
  set (n := Z.to_nat (BATCH_SIZE cfg)) in *.
  destruct (drop_length_take (pending (radacct w)) n) as [Hd Ht].
  set (c := length (take n (pending (radacct w)))) in *.
  destruct (Z.of_nat c =? 0) eqn:Hz.
  - apply Z.eqb_eq in Hz. assert (c = 0%nat) as Hc0 by lia.
    exists w1, 0%nat. rewrite Z.add_0_r. rewrite Hc0 in Hd, Ht.
    simpl in Hd, Ht. split_and!; try done.
    + by rewrite Hp1, <- Hd.
    + by rewrite Hs1, <- Ht.
    + intros _. rewrite Hp1, <- Hd.
      destruct (pending (radacct w)) as [|r rest] eqn:Hpend; [done|].
      exfalso. subst c. rewrite length_take in Hc0. simpl in Hc0. lia.
  - apply Z.eqb_neq in Hz.
    assert (Hcle : (c <= length (pending (radacct w)))%nat)
      by (subst c; rewrite length_take; lia).
    destruct (count_forwarded_frame (Z.of_nat c) w1)
      as (_ & R & S & _ & _ & Hps & Hcs & _).
    set (w2 := (count_forwarded (Z.of_nat c) w1).2) in *.
    assert (Hu2 : unfailing w2) by (destruct Hu1; constructor; congruence).
    destruct (IH (total + Z.of_nat c) w2 Hu2) as (w' & m & Hdr & Hp & Hs & Hr).
    { by rewrite R. }
    { rewrite R, Hp1, <- Hd, length_drop. lia. }
    exists w', (c + m)%nat. split_and!.
    + rewrite Hdr. do 3 f_equal. lia.
    + by rewrite Hp, R, Hp1, <- Hd, drop_drop.
    + rewrite Hs, S, Hs1, R, Hp1, <- Hd, <- Ht, <- app_assoc, <- fmap_app.
      by rewrite take_take_drop.
    + done.
Qed.

(** X9. A shutdown ends the drain loop between two cycles and never
    inside one. Where no statement fails, whenever the signal comes, the
    loop ends having taken some first [m] pending rows, in order, into
    the sink and out of the pending ones, so that no batch is left
    written but unmarked; it returns [m]; if the flag is still unset at
    the end nothing is pending any more, and if it was set from the start
    nothing has been done at all. *)
Theorem shutdown_ends_drain_between_cycles cfg l w :
  unfailing w -> pending_convert (radacct w) -> 0 < BATCH_SIZE cfg ->
  exists w' m,
    drain cfg (drain_fuel w) l 0 w = Some (Ok (Z.of_nat m), w')
    /\ pending (radacct w') = drop m (pending (radacct w))
    /\ Ch.radacctid <$> radius_accounting w'
       = ((Ch.radacctid <$> radius_accounting w)
            ++ (radacctid <$> take m (pending (radacct w))))%list
    /\ (running w' = true -> pending (radacct w') = [])
    /\ (running w = false -> m = 0%nat /\ w' = w).
Proof.
  intros Hu Hconv HN.
  destruct (drain_unfailing cfg l HN (drain_fuel w) 0 w Hu Hconv)
    as (w' & m & Hd & Hp & Hs & Hr).
  { unfold drain_fuel. rewrite pending_length. lia. }
  rewrite Z.add_0_l in Hd. exists w', m. split_and!; try done.
  intros Hoff. unfold drain_fuel in Hd. rewrite drain_S, Hoff in Hd.
  injection Hd as Hm <-. split; [lia|done].
Qed.

(** The signal falls into the first fetch: the cycle goes through, the
    sessions 10 and 11 are written and marked, and the loop ends with 12
    still pending. *)
Lemma shutdown_ends_drain_between_cycles_witness :
  exists w' m,
    drain (Sample.cfg 2)
          (drain_fuel (set_signal_in (Some 0%nat) (Sample.calm Sample.table)))
          Sample.main_locals 0
          (set_signal_in (Some 0%nat) (Sample.calm Sample.table))
    = Some (Ok (Z.of_nat m), w')
    /\ pending (radacct w') = drop m (pending Sample.table)
    /\ Ch.radacctid <$> radius_accounting w'
       = radacctid <$> take m (pending Sample.table).
Proof.
  destruct (shutdown_ends_drain_between_cycles (Sample.cfg 2)
              Sample.main_locals
              (set_signal_in (Some 0%nat) (Sample.calm Sample.table)))
    as (w' & m & Hd & Hp & Hs & _).
  - by constructor.
  - apply sample_table_converts.
  - simpl. lia.
  - exists w', m. split; [exact Hd|]. split; [exact Hp|exact Hs].
Defined.

(** ** A row that cannot be transformed *)

Lemma transformed_converts cfg r c :
  transformed cfg r c -> counters_convert (fields r) = true.
Proof.
  intros (w & w' & H).
  destruct (counters_convert (fields r)) eqn:Hc; [done|].
  assert (exists e w', transform cfg r (determine_event_type r) w = (Raise e, w'))
    as (e & w1 & Hr) by (by apply transform_Raise_iff).
  congruence.
Qed.

Lemma prepare_poisoned cfg rows acc ids w r :
  r ∈ rows -> counters_convert (fields r) = false ->
  exists e n, prepare cfg rows acc ids w = (Raise e, set_clock_reads n w).
Proof.
  intros Hin Hbad.
  destruct (prepare cfg rows acc ids w) as [[[crs ids']|e] w'] eqn:Hp;
    destruct (prepare_spec _ _ _ _ _ _ _ Hp) as [[n ->] Hres]; [|eauto].
  destruct (Hres _ _ eq_refl) as (new & _ & _ & HF).
  apply list_elem_of_lookup in Hin as [i Hi].
  destruct (Forall2_lookup_l _ _ _ _ _ HF Hi) as (c & _ & Hc).
  apply transformed_converts in Hc. congruence.
Qed.

Lemma forward_batch_poisoned cfg pg ch w r :
  Forall (fun o => o = None) (pg_script w) ->
  r ∈ FETCH_QUERY (radacct w) (BATCH_SIZE cfg) ->
  counters_convert (fields r) = false ->
  exists e w',
    forward_batch cfg pg ch w = (Raise e, w')
    /\ radacct w' = radacct w
    /\ radius_accounting w' = radius_accounting w
    /\ metrics w' = metrics w
    /\ Forall (fun o => o = None) (pg_script w').
Proof.
  intros Hpg Hin Hbad.
  assert (HN : 0 <= BATCH_SIZE cfg).
  { destruct (Z.le_gt_cases 0 (BATCH_SIZE cfg)); [done|].
    rewrite FETCH_QUERY_pending in Hin.
    replace (Z.to_nat (BATCH_SIZE cfg)) with 0%nat in Hin by lia.
    by apply elem_of_nil in Hin. }
  destruct (pg_execute_head pg (Fetch (BATCH_SIZE cfg)) w) as (w1 & He & Hs1).
  assert (Hok : pg_execute pg (Fetch (BATCH_SIZE cfg)) w = (Ok tt, w1)).
  { rewrite He. destruct (pg_script w) as [|o s]; [done|].
    apply Forall_cons in Hpg as [-> _]. done. }
  assert (Hpg1 : Forall (fun o => o = None) (pg_script w1)).
  { rewrite Hs1. destruct (pg_script w) as [|o s]; [done|].
    by apply Forall_cons in Hpg as [_ ?]. }
  destruct (pg_execute_spec _ _ _ _ _ Hok) as ([M _ _ _ _ _] & R1 & S1 & _).
  rewrite forward_batch_unfold. unfold fetch. rewrite bind_run, Hok.
  destruct (BATCH_SIZE cfg <? 0) eqn:Hlt; [lia|]. unfold gets. rewrite R1.
  destruct (FETCH_QUERY (radacct w) (BATCH_SIZE cfg)) as [|r0 rows] eqn:Hf;
    [by apply elem_of_nil in Hin|].
  destruct (prepare_poisoned cfg (r0 :: rows) [] [] w1 r Hin Hbad)
    as (e & n & ->).
  exists e, (set_clock_reads n w1). by split_and!.
Qed.

Lemma sleep_scripts secs w :
  pg_script (sleep secs w) = pg_script w
  /\ ch_script (sleep secs w) = ch_script w.
Proof.
  unfold sleep. set (w0 := set_slept _ w).
  by destruct (deliver_stores w0) as (_ & _ & _ & ? & ? & _).
Qed.

Lemma connect_loop_scripts msg script w :
  let w' := (connect_loop msg script w).2 in
  pg_script w' = pg_script w /\ ch_script w' = ch_script w.
Proof.
  revert w. induction script as [|[e|] script IH]; intros w; simpl;
    destruct (running w); simpl; try done;
    destruct (deliver_stores w) as (_ & _ & _ & D4 & D5 & _); try done.
  destruct (IH (sleep 5 (deliver w))) as [I1 I2].
  destruct (sleep_scripts 5 (deliver w)) as [S1 S2].
  split; congruence.
Qed.

Lemma connect_clickhouse_scripts w :
  pg_script (connect_clickhouse w).2 = pg_script w.
Proof.
  unfold connect_clickhouse.
  pose proof (connect_loop_scripts
                "Shutting down, could not connect to ClickHouse"
                (ch_connects w) w) as [F _].
  by destruct (connect_loop _ (ch_connects w) w) as [[r s] w1].
Qed.

Lemma poll_reconnect_frame l w :
  let w' := (poll_reconnect l w).2 in
  metrics w' = metrics w /\ radacct w' = radacct w
  /\ radius_accounting w' = radius_accounting w.
Proof.
  split; [apply poll_reconnect_metrics|]. unfold poll_reconnect.
  destruct (connect_postgres_frame w) as (_ & _ & R1 & S1).
  destruct (connect_postgres w) as [[c|e] w1]; simpl in *.
  - destruct (pg_execute c Listen w1) as [[[]|e] w2] eqn:Hl;
      destruct (pg_execute_spec _ _ _ _ _ Hl) as (_ & R2 & S2 & _).
    + destruct (connect_clickhouse_frame w2) as (_ & _ & R3 & S3).
      destruct (connect_clickhouse w2) as [[c'|e] w3]; simpl in *.
      * split; congruence.
      * destruct (sleep_frame 10 w3) as (_ & _ & _ & R4 & S4 & _).
        split; congruence.
    + simpl. destruct (sleep_frame 10 w2) as (_ & _ & _ & R4 & S4 & _).
      split; congruence.
  - destruct (sleep_frame 10 w1) as (_ & _ & _ & R4 & S4 & _).
    split; congruence.
Qed.

Lemma notify_loop_poisoned cfg ns l w r :
  Forall (fun o => o = None) (pg_script w) ->
  r ∈ FETCH_QUERY (radacct w) (BATCH_SIZE cfg) ->
  counters_convert (fields r) = false ->
  let w' := (notify_loop cfg ns l w).2 in
  radacct w' = radacct w
  /\ radius_accounting w' = radius_accounting w
  /\ total_forwarded (metrics w') = total_forwarded (metrics w)
  /\ total_errors (metrics w')
     = total_errors (metrics w) + Z.of_nat (length ns).
Proof.
  revert l w. induction ns as [|x ns IH]; intros l w Hpg Hin Hbad; simpl.
  - split_and!; try done. lia.
  - destruct (forward_batch_poisoned cfg (pg_conn l) (ch_client l) w r
                Hpg Hin Hbad) as (e & w1 & Hfb & R1 & S1 & M1 & Hpg1).
    unfold on_notify. rewrite bind_run, Hfb.
    destruct (connect_clickhouse_frame (count_error w1)) as (M2 & _ & R2 & S2).
    pose proof (connect_clickhouse_scripts (count_error w1)) as P2.
    destruct (connect_clickhouse (count_error w1)) as [[c|e'] w2];
      simpl in M2, R2, S2, P2;
      match goal with
      | |- context [notify_loop cfg ns ?l' w2] =>
          destruct (IH l' w2) as (R3 & S3 & F3 & E3);
            [by rewrite P2|by rewrite R2, R1|done|]
      end;
      (split_and!;
       [ congruence | congruence
       | by rewrite F3, M2; simpl; rewrite M1
       | rewrite E3, M2; simpl; rewrite M1; lia ]).
Qed.

(** X10. One row that cannot be transformed blocks forwarding. As long
    as a pending row with a counter that does not convert is among the
    [BATCH_SIZE] lowest pending identifiers, every cycle whose fetch the
    source answers raises in its transform: however many notifications
    arrive, each is counted as an error and nothing is written or
    marked, not even the rows fetched along with the bad one; and the
    poll path, when it runs, counts one error more and gets no
    further. *)
Theorem bad_counter_blocks_forwarding cfg ns l w r :
  Forall (fun o => o = None) (pg_script w) ->
  r ∈ FETCH_QUERY (radacct w) (BATCH_SIZE cfg) ->
  counters_convert (fields r) = false ->
  (let w' := (notify_loop cfg ns l w).2 in
   radacct w' = radacct w
   /\ radius_accounting w' = radius_accounting w
   /\ total_forwarded (metrics w') = total_forwarded (metrics w)
   /\ total_errors (metrics w')
      = total_errors (metrics w) + Z.of_nat (length ns))
  /\ (running w = true ->
      exists l' w',
        poll_cycle cfg l w = Some (l', w')
        /\ radacct w' = radacct w
        /\ radius_accounting w' = radius_accounting w
        /\ total_forwarded (metrics w') = total_forwarded (metrics w)
        /\ total_errors (metrics w') = total_errors (metrics w) + 1).
Proof.
  intros Hpg Hin Hbad. split; [by eapply notify_loop_poisoned|].
  intros Hrun.
  destruct (forward_batch_poisoned cfg (pg_conn l) (ch_client l) w r
              Hpg Hin Hbad) as (e & w1 & Hfb & R1 & S1 & M1 & _).
  unfold poll_cycle, drain_fuel. rewrite drain_S, Hrun, Hfb.
  destruct (poll_reconnect_frame l (count_error w1)) as (M2 & R2 & S2).
  destruct (poll_reconnect l (count_error w1)) as [l' w'].
  exists l', w'. simpl in *. split_and!; try congruence.
  - by rewrite M2, M1.
  - by rewrite M2, M1.
Qed.

(** The session 9 has input octets reading "n/a". With a batch size of
    two it is fetched with session 10; three notifications give three
    errors and an unchanged table. *)
Lemma bad_counter_blocks_forwarding_witness :
  let w := Sample.calm Scenario.poisoned in
  let w' := (notify_loop (Sample.cfg 2) ["a"; "b"; "c"] Sample.main_locals
                         w).2 in
  radacct w' = Scenario.poisoned /\ total_errors (metrics w') = 3%Z.
Proof.
  intros w w'.
  destruct (proj1 (bad_counter_blocks_forwarding (Sample.cfg 2)
                     ["a"; "b"; "c"] Sample.main_locals w
                     (Row 9 (coalesce_framedipaddress Sample.bad_counter))
                     ltac:(constructor)
                     ltac:(apply list_elem_of_In; vm_compute; auto)
                     eq_refl))
    as (R & _ & _ & E).
  split; [exact R|exact E].
Defined.

(** ** A mark that fails after the write *)

Lemma ch_insert_ok h rows w :
  Forall (fun o => o = None) (ch_script w) ->
  exists w', ch_insert h rows w = (Ok tt, w')
             /\ Forall (fun o => o = None) (ch_script w').
Proof.
  intros Hc. unfold ch_insert.
  destruct (deliver_stores w) as (_ & _ & _ & _ & D5 & _).
  assert (Hc0 : Forall (fun o => o = None) (ch_script (deliver w)))
    by (by rewrite D5).
  destruct (ch_script (deliver w)) as [|o s] eqn:Hcs.
  - eexists. split; [done|]. simpl. by rewrite Hcs.
  - apply Forall_cons in Hc0 as [-> Hc0]. eexists. by split.
Qed.

(** X11. Delivery is at least once, not exactly once. When the mark of a
    cycle fails after its insert succeeded, the cycle raises with the
    batch in the sink and its rows still pending; the next cycle that
    succeeds fetches the same rows, writes them a second time and only
    then marks them. Between the two, the forwarded counter has not
    moved. *)
Theorem failed_mark_writes_batch_twice cfg pg ch w e s :
  pg_script w = None :: Some e :: s ->
  Forall (fun o => o = None) s ->
  Forall (fun o => o = None) (ch_script w) ->
  pending_convert (radacct w) ->
  0 < BATCH_SIZE cfg ->
  pending (radacct w) <> [] ->
  let n := Z.to_nat (BATCH_SIZE cfg) in
  let ids := radacctid <$> take n (pending (radacct w)) in
  exists w1 w2,
    forward_batch cfg pg ch w = (Raise e, w1)
    /\ radacct w1 = radacct w
    /\ metrics w1 = metrics w
    /\ Ch.radacctid <$> radius_accounting w1
       = ((Ch.radacctid <$> radius_accounting w) ++ ids)%list
    /\ forward_batch cfg pg ch w1 = (Ok (Z.of_nat (length ids)), w2)
    /\ Ch.radacctid <$> radius_accounting w2
       = ((Ch.radacctid <$> radius_accounting w) ++ ids ++ ids)%list
    /\ pending (radacct w2) = drop n (pending (radacct w)).
Proof.
  intros Hps Hs Hcs Hconv HN Hne n ids.
  (* the fetch *)
  destruct (pg_execute_head pg (Fetch (BATCH_SIZE cfg)) w) as (w1 & He1 & Hs1).
  rewrite Hps in He1, Hs1. simpl in He1, Hs1.
  destruct (pg_execute_spec _ _ _ _ _ He1) as ([M1 _ _ _ _ _] & R1 & S1 & _ & C1 & _).
  (* the rows *)
  assert (Hrows : Forall (fun r => counters_convert (fields r) = true)
                         (FETCH_QUERY (radacct w) (BATCH_SIZE cfg))).
  { rewrite FETCH_QUERY_pending. by apply Forall_take, pending_convert_rows. }
  assert (Hfne : FETCH_QUERY (radacct w) (BATCH_SIZE cfg) <> []).
  { rewrite FETCH_QUERY_pending. fold n.
    destruct (pending (radacct w)) as [|r0 rs]; [done|].
    destruct n as [|n'] eqn:Hn; [lia|]. done. }
  destruct (FETCH_QUERY (radacct w) (BATCH_SIZE cfg)) as [|r rows] eqn:Hf;
    [done|].
  destruct (prepare_total cfg (r :: rows) [] [] w1 Hrows)
    as (new & n0 & Hprep & HF).
  rewrite !app_nil_l in Hprep.
  destruct (transformed_ids _ _ _ HF) as [Hids _].
  (* the insert *)
  destruct (ch_insert_ok ch new (set_clock_reads n0 w1)) as (w3 & Hci & Hc3);
    [simpl; by rewrite C1|].
  destruct (ch_insert_spec _ _ _ _ _ Hci)
    as ([M3 _ _ _ _ _] & R3 & _ & P3 & _ & [(e' & ? & _)|(_ & _ & S3)]);
    [done|]. simpl in M3, R3, P3, S3.
  (* the mark *)
  destruct (pg_execute_head pg (MarkForwarded (radacctid <$> r :: rows)) w3)
    as (w4 & He4 & Hs4).
  rewrite P3, Hs1 in He4, Hs4. cbn [head tail] in He4, Hs4.
  destruct (pg_execute_spec _ _ _ _ _ He4)
    as ([M4 _ _ _ _ _] & R4 & S4 & _ & C4 & _).
  assert (Hfb : forward_batch cfg pg ch w = (Raise e, w4)).
  { rewrite forward_batch_unfold. unfold fetch. rewrite bind_run, He1.
    destruct (BATCH_SIZE cfg <? 0) eqn:Hlt; [lia|]. unfold gets.
    rewrite R1, Hf, Hprep, Hci. unfold mark_forwarded.
    by rewrite bind_run, He4. }
  assert (Hsink : Ch.radacctid <$> radius_accounting w4
                  = ((Ch.radacctid <$> radius_accounting w) ++ ids)%list).
  { rewrite S4, S3, S1, fmap_app, Hids. subst ids n.
    by rewrite <- FETCH_QUERY_pending, Hf. }
  (* the next cycle *)
  destruct (forward_batch_takes cfg pg ch w4) as (w5 & Hfb' & _ & _ & P5 & S5 & _).
  { constructor; [by rewrite Hs4|by rewrite C4]. }
  { by rewrite R4, R3, R1. }
  { lia. }
  simpl in Hfb', P5, S5. rewrite R4, R3, R1 in Hfb', P5, S5.
  exists w4, w5. split_and!.
  - done.
  - by rewrite R4, R3, R1.
  - by rewrite M4, M3, M1.
  - done.
  - subst ids. by rewrite length_fmap.
  - by rewrite S5, Hsink, <- app_assoc.
  - done.
Qed.

(** The sessions 10 and 11 are written, the mark fails, and the next
    cycle writes them again. *)
Lemma failed_mark_writes_batch_twice_witness :
  exists w1 w2,
    forward_batch (Sample.cfg 2) 0%nat 1%nat (Sample.mark_fails Sample.table)
    = (Raise (DriverError "connection lost"), w1)
    /\ forward_batch (Sample.cfg 2) 0%nat 1%nat w1 = (Ok 2, w2)
    /\ Ch.radacctid <$> radius_accounting w2 = [10; 11; 10; 11].
Proof.
  destruct (failed_mark_writes_batch_twice (Sample.cfg 2) 0%nat 1%nat
              (Sample.mark_fails Sample.table)
              (DriverError "connection lost") [] eq_refl
              ltac:(constructor) ltac:(constructor)
              sample_table_converts eq_refl
              ltac:(vm_compute; discriminate))
    as (w1 & w2 & H1 & _ & _ & _ & H2 & S2 & _).
  exists w1, w2. split; [exact H1|]. split; [exact H2|exact S2].
Defined.

(** ** Connecting while nothing disturbs *)

(** With the flag unset and no signal on its way, the supervisor sits
    through the failed attempts and returns the next handle. *)
Lemma connect_loop_calm msg script w :
  running w = true -> signal_in w = None ->
  exists w',
    connect_loop msg script w
    = (Ok (next_handle w), drop (S (leading_failures script)) script, w')
    /\ running w' = true /\ signal_in w' = None
    /\ next_handle w' = S (next_handle w)
    /\ slept w' = slept w + 5 * Z.of_nat (leading_failures script).
Proof.
  revert w. induction script as [|[e|] script IH]; intros w Hr Hs; simpl;
    rewrite Hr, (deliver_quiet w Hs).
  - eexists. split_and!; try done. simpl. lia.
  - unfold sleep. rewrite deliver_quiet by done.
    destruct (IH (set_slept (slept w + 5) w) Hr Hs)
      as (w' & -> & Hr' & Hs' & Hn & Hsl).
    exists w'. split_and!; try done. rewrite Hsl. simpl. lia.
  - eexists. split_and!; try done. simpl. lia.
Qed.

Lemma connect_postgres_calm w :
  running w = true -> signal_in w = None ->
  exists w',
    connect_postgres w = (Ok (next_handle w), w')
    /\ running w' = true /\ signal_in w' = None
    /\ next_handle w' = S (next_handle w)
    /\ slept w' = slept w + 5 * Z.of_nat (leading_failures (pg_connects w))
    /\ pg_script w' = pg_script w /\ ch_script w' = ch_script w
    /\ pg_log w' = pg_log w /\ ch_connects w' = ch_connects w.
Proof.
  intros Hr Hs. unfold connect_postgres.
  pose proof (connect_loop_scripts
                "Shutting down, could not connect to PostgreSQL"
                (pg_connects w) w) as [P1 P2].
  pose proof (connect_loop_frame
                "Shutting down, could not connect to PostgreSQL"
                (pg_connects w) w) as (_ & _ & F3 & _ & _ & F6).
  destruct (connect_loop_calm "Shutting down, could not connect to PostgreSQL"
              (pg_connects w) w Hr Hs) as (w' & E & Hr' & Hs' & Hn & Hsl).
  rewrite E in *. simpl in *. eexists. by split_and!.
Qed.

Lemma connect_clickhouse_calm w :
  running w = true -> signal_in w = None ->
  exists w',
    connect_clickhouse w = (Ok (next_handle w), w')
    /\ running w' = true /\ signal_in w' = None
    /\ next_handle w' = S (next_handle w)
    /\ slept w' = slept w + 5 * Z.of_nat (leading_failures (ch_connects w))
    /\ pg_script w' = pg_script w /\ ch_script w' = ch_script w
    /\ pg_log w' = pg_log w.
Proof.
  intros Hr Hs. unfold connect_clickhouse.
  pose proof (connect_loop_scripts
                "Shutting down, could not connect to ClickHouse"
                (ch_connects w) w) as [P1 P2].
  pose proof (connect_loop_frame
                "Shutting down, could not connect to ClickHouse"
                (ch_connects w) w) as (_ & _ & _ & _ & _ & F6).
  destruct (connect_loop_calm "Shutting down, could not connect to ClickHouse"
              (ch_connects w) w Hr Hs) as (w' & E & Hr' & Hs' & Hn & Hsl).
  rewrite E in *. simpl in *. eexists. by split_and!.
Qed.

(** Once the flag is cleared, connecting raises at once and makes no
    attempt. *)
Lemma connect_postgres_stopped w :
  running w = false ->
  connect_postgres w
  = (Raise (RuntimeError "Shutting down, could not connect to PostgreSQL"), w).
Proof.
  intros Hr. unfold connect_postgres.
  destruct w as [r m t lg sk ps cs pc cc sg ck cr sl nh]. simpl in Hr.
  subst r. by destruct pc as [|[e|] pc].
Qed.

(** X12. The start-up of [main] stands outside every handler. When the
    shutdown flag is cleared before the first connection, or when the
    first subscription fails, [main] ends with that exception: the loop
    is never entered, whatever events wait; no error is counted, no row
    is fetched and neither store changes. A failed connection attempt is
    retried; a failed subscription is not. *)
Theorem startup_failure_ends_main cfg evs w :
  (running w = false ->
   main cfg evs w
   = Some (Crashed (RuntimeError
                      "Shutting down, could not connect to PostgreSQL"), w))
  /\ (forall e s,
        running w = true -> signal_in w = None ->
        pg_script w = Some e :: s ->
        exists w',
          main cfg evs w = Some (Crashed e, w')
          /\ metrics w' = metrics w
          /\ radacct w' = radacct w
          /\ radius_accounting w' = radius_accounting w
          /\ pg_log w' = (pg_log w ++ [(next_handle w, Listen)])%list
          /\ slept w'
             = slept w + 5 * Z.of_nat (leading_failures (pg_connects w))
               + 5 * Z.of_nat (leading_failures (ch_connects w))).
Proof.
  split.
  - intros Hr. unfold main. by rewrite connect_postgres_stopped.
  - intros e s Hr Hs Hps. unfold main.
    destruct (connect_postgres_frame w) as (M1 & _ & R1 & S1).
    destruct (connect_postgres_calm w Hr Hs)
      as (w1 & E1 & Hr1 & Hs1 & _ & Sl1 & P1 & _ & L1 & CC1).
    rewrite E1 in *. simpl in M1, R1, S1.
    destruct (connect_clickhouse_frame w1) as (M2 & _ & R2 & S2).
    destruct (connect_clickhouse_calm w1 Hr1 Hs1)
      as (w2 & E2 & _ & _ & _ & Sl2 & P2 & _ & L2).
    rewrite E2 in *. simpl in M2, R2, S2.
    destruct (pg_execute_head (next_handle w) Listen w2) as (w3 & E3 & _).
    rewrite P2, P1, Hps in E3. simpl in E3. rewrite E3.
    destruct (pg_execute_spec _ _ _ _ _ E3)
      as ([M3 _ _ Sl3 _ _] & R3 & S3 & L3 & _).
    exists w3. split_and!; congruence.
Qed.

(** The sample world whose first statement on the source fails: the four
    events are never looked at. *)
Lemma startup_failure_ends_main_witness :
  exists w',
    main (Sample.cfg 2) Scenario.events Scenario.listen_fails
    = Some (Crashed (DriverError "connection lost"), w')
    /\ metrics w' = Sample.metrics0
    /\ radacct w' = Sample.table.
Proof.
  destruct (proj2 (startup_failure_ends_main (Sample.cfg 2) Scenario.events
                     Scenario.listen_fails)
              (DriverError "connection lost") [] eq_refl eq_refl eq_refl)
    as (w' & H & M & R & _).
  exists w'. split; [exact H|]. split; [exact M|exact R].
Defined.

Lemma sleep_slept secs w : slept (sleep secs w) = slept w + secs.
Proof.
  unfold sleep.
  by destruct (deliver_same_process (set_slept (slept w + secs) w))
    as [_ _ _ -> _ _].
Qed.

Lemma sleep_next_handle secs w : next_handle (sleep secs w) = next_handle w.
Proof.
  unfold sleep.
  by destruct (deliver_same_process (set_slept (slept w + secs) w))
    as [_ _ _ _ -> _].
Qed.

Lemma sleep_running secs w :
  running w = false -> running (sleep secs w) = false.
Proof. intros Hr. unfold sleep. by apply deliver_running. Qed.

(** X13. A reconnection of the poll path can stop half way. When the new
    source connection is made but its subscription fails, [main] goes on
    with the new source connection, which is not subscribed, and with
    the old sink client; no sink connection is attempted, and the
    handler sleeps ten seconds on top of the retries. *)
Theorem failed_resubscription_keeps_new_connection l w e s :
  running w = true -> signal_in w = None ->
  pg_script w = Some e :: s ->
  exists w',
    poll_reconnect l w
    = ({| pg_conn := next_handle w; ch_client := ch_client l |}, w')
    /\ pg_log w' = (pg_log w ++ [(next_handle w, Listen)])%list
    /\ ch_connects w' = ch_connects w
    /\ next_handle w' = S (next_handle w)
    /\ slept w'
       = slept w + 5 * Z.of_nat (leading_failures (pg_connects w)) + 10.
Proof.
  intros Hr Hs Hps. unfold poll_reconnect.
  destruct (connect_postgres_calm w Hr Hs)
    as (w1 & -> & Hr1 & Hs1 & Hn1 & Sl1 & P1 & _ & L1 & CC1).
  destruct (pg_execute_head (next_handle w) Listen w1) as (w2 & E2 & _).
  rewrite P1, Hps in E2. simpl in E2. rewrite E2.
  destruct (pg_execute_spec _ _ _ _ _ E2)
    as ([_ _ CC2 Sl2 Hn2 _] & _ & _ & L2 & _).
  destruct (sleep_frame 10 w2) as (_ & _ & CC3 & _ & _ & L3).
  exists (sleep 10 w2). rewrite sleep_slept, sleep_next_handle.
  split_and!; congruence.
Qed.

Lemma failed_resubscription_keeps_new_connection_witness :
  exists w',
    poll_reconnect Sample.main_locals (Sample.source_down Sample.table)
    = ({| pg_conn := 2%nat; ch_client := 1%nat |}, w')
    /\ pg_log w' = [(2%nat, Listen)]
    /\ slept w' = 10.
Proof.
  destruct (failed_resubscription_keeps_new_connection Sample.main_locals
              (Sample.source_down Sample.table)
              (DriverError "connection lost") [] eq_refl eq_refl eq_refl)
    as (w' & H & L & _ & _ & Sl).
  exists w'. split; [exact H|]. split; [exact L|exact Sl].
Defined.

(** X14. An error met once shutdown has begun delays the exit. With the
    flag cleared, the reconnection of the poll path makes no attempt and
    sends nothing, keeps both connections, and still sleeps its ten
    seconds; the handler of the whole loop body sleeps fifteen. *)
Theorem handlers_sleep_through_shutdown l w :
  running w = false ->
  (poll_reconnect l w).1 = l
  /\ slept (poll_reconnect l w).2 = slept w + 10
  /\ pg_log (poll_reconnect l w).2 = pg_log w
  /\ pg_connects (poll_reconnect l w).2 = pg_connects w
  /\ running (poll_reconnect l w).2 = false
  /\ (loop_handler l w).1 = l
  /\ slept (loop_handler l w).2 = slept w + 15
  /\ total_errors (metrics (loop_handler l w).2)
     = total_errors (metrics w) + 1.
Proof.
  assert (H : forall w0, running w0 = false ->
                         poll_reconnect l w0 = (l, sleep 10 w0)).
  { intros w0 Hr. unfold poll_reconnect.
    by rewrite connect_postgres_stopped. }
  intros Hr. rewrite (H w Hr). unfold loop_handler.
  rewrite (H (sleep 5 (count_error w))) by (by apply sleep_running).
  destruct (sleep_frame 10 w) as (_ & PC & _ & _ & _ & L).
  destruct (sleep_frame 10 (sleep 5 (count_error w))) as (M1 & _).
  destruct (sleep_frame 5 (count_error w)) as (M2 & _).
  simpl. split_and!; try done.
  - apply sleep_slept.
  - by apply sleep_running.
  - rewrite !sleep_slept. simpl. lia.
  - by rewrite M1, M2.
Qed.

Lemma handlers_sleep_through_shutdown_witness :
  let w := shutdown_handler (Sample.calm Sample.table) in
  slept (poll_reconnect Sample.main_locals w).2 = 10
  /\ slept (loop_handler Sample.main_locals w).2 = 15.
Proof.
  intros w.
  destruct (handlers_sleep_through_shutdown Sample.main_locals w eq_refl)
    as (_ & H1 & _ & _ & _ & _ & H2 & _).
  split; [exact H1|exact H2].
Defined.

(** ** One iteration that polls *)

(** The drain loop, where nothing fails, leaves a world where nothing
    fails. *)
Lemma drain_keeps_quiet cfg l :
  0 <= BATCH_SIZE cfg ->
  forall fuel total w r w',
    quiet w -> pending_convert (radacct w) ->
    drain cfg fuel l total w = Some (r, w') -> quiet w'.
Proof.
  intros HN. induction fuel as [|fuel IH]; intros total w r w' Hq Hconv Hd;
    [done|].
  rewrite drain_S in Hd. rewrite (q_running w Hq) in Hd.
  destruct (forward_batch_takes cfg (pg_conn l) (ch_client l) w
              (quiet_unfailing w Hq) Hconv HN)
    as (w1 & Hfb & _ & Hc1 & _ & _ & _ & _ & Hq1).
  cbv zeta in Hfb. rewrite Hfb in Hd.
  destruct (_ =? 0) in Hd; [injection Hd as _ <-; by apply Hq1|].
  eapply IH; [| |exact Hd].
  - by apply count_forwarded_quiet, Hq1.
  - by destruct (count_forwarded_frame
                   (Z.of_nat (length (take (Z.to_nat (BATCH_SIZE cfg))
                                           (pending (radacct w))))) w1)
      as (_ & -> & _).
Qed.

Lemma main_iteration_quiet cfg ev l last w :
  quiet w -> pending_convert (radacct w) -> 0 < BATCH_SIZE cfg ->
  poll_due cfg (time_time ev) last = true ->
  (wait ev = TimedOut \/ exists ns, wait ev = Notified ns) ->
  exists w',
    main_iteration cfg ev l last w = Some (l, time_time ev, w')
    /\ quiet w'
    /\ pending (radacct w') = []
    /\ Ch.radacctid <$> radius_accounting w'
       = ((Ch.radacctid <$> radius_accounting w)
            ++ (radacctid <$> pending (radacct w)))%list
    /\ total_forwarded (metrics w')
       = total_forwarded (metrics w)
         + Z.of_nat (length (pending (radacct w)))
    /\ total_errors (metrics w') = total_errors (metrics w).
Proof.
  intros Hq Hconv HN Hdue Hev.
  assert (Hpoll : forall w1, quiet w1 -> pending_convert (radacct w1) ->
            exists w',
              poll_section cfg ev l last w1 = Some (l, time_time ev, w')
              /\ quiet w'
              /\ pending (radacct w') = []
              /\ Ch.radacctid <$> radius_accounting w'
                 = ((Ch.radacctid <$> radius_accounting w1)
                      ++ (radacctid <$> pending (radacct w1)))%list
              /\ total_errors (metrics w') = total_errors (metrics w1)).
  { intros w1 Hq1 Hc1. unfold poll_section, poll_cycle. rewrite Hdue.
    destruct (drain_quiet cfg l HN (drain_fuel w1) 0 w1 Hq1 Hc1)
      as (w' & batches & Hd & _ & _ & _ & _ & _ & _ & E & P & S).
    { unfold drain_fuel. rewrite pending_length. lia. }
    rewrite Hd. exists w'. split_and!; try done.
    eapply (drain_keeps_quiet cfg l); [lia|exact Hq1|exact Hc1|exact Hd]. }
  assert (Hit : exists w',
            main_iteration cfg ev l last w = Some (l, time_time ev, w')
            /\ quiet w'
            /\ pending (radacct w') = []
            /\ Ch.radacctid <$> radius_accounting w'
               = ((Ch.radacctid <$> radius_accounting w)
                    ++ (radacctid <$> pending (radacct w)))%list
            /\ total_errors (metrics w') = total_errors (metrics w)).
  { unfold main_iteration. rewrite (deliver_quiet w) by (by destruct Hq).
    destruct Hev as [->|[ns ->]]; [by apply Hpoll|].
    destruct (notify_loop_takes cfg ns l w (quiet_unfailing w Hq) Hconv
                ltac:(lia))
      as (w1 & -> & _ & Hc1 & P1 & S1 & E1 & _ & Hq1).
    destruct (Hpoll w1 (Hq1 Hq) Hc1) as (w' & -> & Hq' & P & S & E).
    exists w'. split_and!; try done.
    - rewrite S, S1, P1, <- app_assoc, <- fmap_app. by rewrite take_drop.
    - by rewrite E, E1. }
  destruct Hit as (w' & Hm & Hq' & P & S & E). exists w'.
  split_and!; try done.
  destruct (main_iteration_kept _ _ _ _ _ _ _ _ Hm) as (_ & A & _).
  unfold accounted in A. rewrite P in A. simpl in A. lia.
Qed.

(** X15. In a world where nothing fails, one iteration of the main loop
    whose poll is due leaves nothing pending, whether notifications came
    with it or not: every row that was pending is in the sink once, in
    ascending order of identifier, the forwarded counter has grown by
    their number, no error is counted, the connections are kept and the
    time of the poll is recorded. *)
Theorem due_poll_clears_backlog cfg ev l last w :
  quiet w -> pending_convert (radacct w) -> 0 < BATCH_SIZE cfg ->
  poll_due cfg (time_time ev) last = true ->
  (wait ev = TimedOut \/ exists ns, wait ev = Notified ns) ->
  exists w',
    main_iteration cfg ev l last w = Some (l, time_time ev, w')
    /\ pending (radacct w') = []
    /\ Ch.radacctid <$> radius_accounting w'
       = ((Ch.radacctid <$> radius_accounting w)
            ++ (radacctid <$> pending (radacct w)))%list
    /\ total_forwarded (metrics w')
       = total_forwarded (metrics w)
         + Z.of_nat (length (pending (radacct w)))
    /\ total_errors (metrics w') = total_errors (metrics w).
Proof.
  intros Hq Hconv HN Hdue Hev.
  destruct (main_iteration_quiet cfg ev l last w Hq Hconv HN Hdue Hev)
    as (w' & Hm & _ & P & S & F & E).
  by exists w'.
Qed.

(** The first event of the sample run, a notification at second 1000
    with the first poll due: the three pending sessions go out, two by
    the notification and one by the poll. *)
Lemma due_poll_clears_backlog_witness :
  exists w',
    main_iteration (Sample.cfg 2)
                   (Iteration (Notified ["radacct_change"]) 1000)
                   Sample.main_locals 0 (Sample.calm Sample.table)
    = Some (Sample.main_locals, 1000%Q, w')
    /\ pending (radacct w') = []
    /\ Ch.radacctid <$> radius_accounting w' = [10; 11; 12].
Proof.
  destruct (due_poll_clears_backlog (Sample.cfg 2)
              (Iteration (Notified ["radacct_change"]) 1000)
              Sample.main_locals 0 (Sample.calm Sample.table)
              ltac:(by constructor) sample_table_converts eq_refl eq_refl
              ltac:(right; by eexists))
    as (w' & H & P & S & _).
  exists w'. split; [exact H|]. split; [exact P|exact S].
Defined.

(** X16. [main] polls on its first iteration. [last_poll_time] starts at
    zero, so whatever the interval, the first time through the loop the
    poll is due as soon as the clock reads at least the interval: in a
    world where nothing fails, [main] connects to the source and then to
    the sink, subscribes, and has forwarded every pending row, in
    ascending order, by the end of its first iteration. *)
Theorem main_polls_at_once cfg ev w :
  quiet w -> pending_convert (radacct w) -> 0 < BATCH_SIZE cfg ->
  (inject_Z (POLL_INTERVAL_SECONDS cfg) <= time_time ev)%Q ->
  (wait ev = TimedOut \/ exists ns, wait ev = Notified ns) ->
  exists w',
    main cfg [ev] w
    = Some (Looping {| pg_conn := next_handle w;
                       ch_client := S (next_handle w) |} (time_time ev), w')
    /\ pending (radacct w') = []
    /\ Ch.radacctid <$> radius_accounting w'
       = ((Ch.radacctid <$> radius_accounting w)
            ++ (radacctid <$> pending (radacct w)))%list
    /\ total_forwarded (metrics w')
       = total_forwarded (metrics w)
         + Z.of_nat (length (pending (radacct w)))
    /\ total_errors (metrics w') = total_errors (metrics w).
Proof.
  intros Hq Hconv HN Hint Hev. unfold main.
  destruct Hq as [Hr Hs Hp Hc].
  destruct (connect_postgres_frame w) as (M1 & _ & R1 & S1).
  destruct (connect_postgres_calm w Hr Hs)
    as (w1 & E1 & Hr1 & Hs1 & Hn1 & _ & P1 & C1 & _).
  rewrite E1 in *. simpl in M1, R1, S1.
  destruct (connect_clickhouse_frame w1) as (M2 & _ & R2 & S2).
  destruct (connect_clickhouse_calm w1 Hr1 Hs1)
    as (w2 & E2 & Hr2 & Hs2 & _ & _ & P2 & C2 & _).
  rewrite E2 in *. simpl in M2, R2, S2.
  assert (Hq2 : quiet w2) by (constructor; congruence).
  destruct (pg_execute_quiet (next_handle w) Listen w2 Hq2)
    as (w3 & E3 & Hq3 & R3).
  rewrite E3. destruct (pg_execute_spec _ _ _ _ _ E3) as ([M3 _ _ _ _ _] & _ & S3 & _).
  assert (Hdue : poll_due cfg (time_time ev) 0 = true).
  { unfold poll_due. apply Qle_bool_iff.
    assert (Hz : (time_time ev - 0 == time_time ev)%Q) by ring.
    by rewrite Hz. }
  destruct (main_iteration_quiet cfg ev
              {| pg_conn := next_handle w; ch_client := next_handle w1 |}
              0%Q w3 Hq3 ltac:(by rewrite R3, R2, R1) HN Hdue Hev)
    as (w' & Hm & Hq' & P & S & F & E).
  cbn [main_loop]. rewrite (q_running w3 Hq3), Hm, (q_running w' Hq').
  rewrite Hn1. exists w'. rewrite R3, R2, R1, S3, S2, S1 in *.
  rewrite M3, M2, M1 in *. by split_and!.
Qed.

(** The sample table at second 1000 with a poll interval of five
    seconds. *)
Lemma main_polls_at_once_witness :
  exists w',
    main (Sample.cfg 2) [Iteration TimedOut 1000] (Sample.calm Sample.table)
    = Some (Looping {| pg_conn := 2%nat; ch_client := 3%nat |} 1000%Q, w')
    /\ pending (radacct w') = []
    /\ Ch.radacctid <$> radius_accounting w' = [10; 11; 12].
Proof.
  destruct (main_polls_at_once (Sample.cfg 2) (Iteration TimedOut 1000)
              (Sample.calm Sample.table)
              ltac:(by constructor) sample_table_converts eq_refl
              ltac:(vm_compute; discriminate)
              ltac:(by left))
    as (w' & H & P & S & _).
  exists w'. split; [exact H|]. split; [exact P|exact S].
Defined.
